(** * kasd: lexer, parser, semantic analyser and interpreter

    A shallow embedding of the C sources of the kasd interpreter
    (common.c, lexer.c, parser.c, semantic.c, interpreter.c, main.c) and
    the properties of its specification checked against it.

    Conventions of the embedding:
    - a C [int] is a [Z]; the counters involved (line, column, lengths)
      stay below 2^31 on a source shorter than 2^31 bytes, which is
      assumed, so no wrap-around is written out;
    - a pointer into the source buffer is its offset, a [nat];
    - the process-wide [kasd_state] is passed explicitly;
    - a C [double] is a binary64 number as the Standard Library's
      [SpecFloat] has them, and [strtod] is taken to round to the
      nearest double, ties to even;
    - a read outside the NUL-terminated source buffer is undefined
      behaviour in C and is the result [OutOfBounds] here; the array the
      REPL reads its lines into is a buffer that runs to the last NUL
      written to it, the bytes behind that NUL never having been
      written;
    - [while] loops run on a fuel bounded by the buffer length; a loop
      that would need more answers [OutOfFuel], never a value. *)

From Stdlib Require Import List String Ascii ZArith Lia Bool Arith.
From Stdlib Require Import Permutation.
From Stdlib Require SpecFloat.
Import ListNotations.
Open Scope string_scope.
Open Scope Z_scope.

(** ** Results of code that reads the source buffer *)

Inductive Res (A : Type) : Type :=
| Ok (a : A)
| OutOfBounds
| OutOfFuel.
Arguments Ok {A} a.
Arguments OutOfBounds {A}.
Arguments OutOfFuel {A}.

Definition bind {A B : Type} (m : Res A) (k : A -> Res B) : Res B :=
  match m with
  | Ok a => k a
  | OutOfBounds => OutOfBounds
  | OutOfFuel => OutOfFuel
  end.

Notation "x <- m ;; k" := (bind m (fun x => k))
  (at level 61, m at next level, right associativity).
Notation "' pat <- m ;; k" := (bind m (fun x => match x with pat => k end))
  (at level 61, pat pattern, m at next level, right associativity).

(** ** common.h / common.c *)

Module Common.

Inductive ErrorType : Type :=
| ERROR_NONE | ERROR_SYNTAX | ERROR_TYPE | ERROR_NAME | ERROR_RUNTIME
| ERROR_INTERNAL.

(** [char*] fields that may be [NULL] are options; [source_line] is the
    copy [strdup] takes of the whole source buffer. *)
Record Error : Type := mkError {
  err_type : ErrorType;
  err_line : Z;
  err_column : Z;
  err_message : option string;
  err_source_line : option (list ascii);
  err_source_pos : Z;
  err_source_len : Z;
  has_error : bool
}.

Inductive ValueType : Type :=
| VALUE_NULL | VALUE_INT | VALUE_FLOAT | VALUE_BOOL | VALUE_STRING.

(** A C [double]: an IEEE 754 binary64 number, in the form the Standard
    Library specifies them (sign, mantissa and binary exponent, the
    zeros, the infinities and NaN). *)
Definition double : Type := SpecFloat.spec_float.

(** The decimal [dec_mant * 10 ^ dec_exp], as a numeral writes it. *)
Record Decimal : Type := mkDecimal { dec_mant : Z; dec_exp : Z }.

(** The double nearest to a decimal that is not negative, a tie going
    to the even mantissa, what underflows to a subnormal or to zero and
    what lies past the largest double to infinity ([HUGE_VAL]): the
    value a correctly rounding [strtod] returns in the default rounding
    mode, which the program never changes. A whole number is rounded
    from its binary form, a fraction by the division of its digits by
    the power of ten. *)
Definition nearest_double (d : Decimal) : double :=
  if dec_mant d <=? 0 then SpecFloat.S754_zero false
  else if 0 <=? dec_exp d
  then SpecFloat.binary_normalize 53 1024
         (dec_mant d * 10 ^ dec_exp d) 0 false
  else SpecFloat.SFdiv 53 1024
         (SpecFloat.S754_finite false (Z.to_pos (dec_mant d)) 0)
         (SpecFloat.S754_finite false (Z.to_pos (10 ^ (- dec_exp d))) 0).

(** The tagged union [Value]; the constructor is the tag. *)
Inductive Value : Type :=
| VNull
| VInt (as_int : Z)
| VFloat (as_float : double)
| VBool (as_bool : bool)
| VString (as_string : string).

Definition value_type (v : Value) : ValueType :=
  match v with
  | VNull => VALUE_NULL
  | VInt _ => VALUE_INT
  | VFloat _ => VALUE_FLOAT
  | VBool _ => VALUE_BOOL
  | VString _ => VALUE_STRING
  end.

Record KasdState : Type := mkState {
  log_level : Z;
  error : Error
}.

Definition pending (g : KasdState) : bool := has_error (error g).

(** [strdup] of a buffer: the bytes before its first NUL. *)
Fixpoint strdup (s : list ascii) : list ascii :=
  match s with
  | [] => []
  | c :: rest => if Ascii.eqb c "000" then [] else c :: strdup rest
  end.

(** [source_line] is the buffer handed in, or [None] for [NULL]; the
    messages handed in are literal texts, which [strdup] copies whole. *)
Definition set_error (type : ErrorType) (line column : Z) (message : string)
    (source_line : option (list ascii)) (source_pos source_len : Z)
    (g : KasdState) : KasdState :=
  if has_error (error g) then g
  else mkState (log_level g)
         (mkError type line column (Some message)
                  (option_map strdup source_line) source_pos source_len
                  true).

Definition clear_error (g : KasdState) : KasdState :=
  mkState (log_level g) (mkError ERROR_NONE 0 0 None None (-1) 0 false).

Definition init_kasd_state (log_level : Z) : KasdState :=
  clear_error
    (mkState log_level (mkError ERROR_NONE 0 0 None None 0 0 false)).

(** [print_error] writes to stderr and assigns no field of the slot. What
    it writes is kept as the pieces handed to [fprintf]: nothing when no
    diagnostic is pending, otherwise the header and, when a source line
    is attached and [source_pos >= 0], the caret block. *)
Inductive ErrorReport : Type :=
| ReportNothing
| ReportHeader (type : ErrorType) (line column : Z) (message : option string)
| ReportCaret (type : ErrorType) (line column : Z) (message : option string)
    (source_line : list ascii) (spaces carets : Z)
| ReportLine (type : ErrorType) (line column : Z) (message : option string)
    (source_line : list ascii).

Definition print_error (g : KasdState) : KasdState * ErrorReport :=
  let e := error g in
  if negb (has_error e) then (g, ReportNothing)
  else match err_source_line e with
       | Some sl =>
           if 0 <=? err_source_pos e
           then (g, ReportCaret (err_type e) (err_line e) (err_column e)
                      (err_message e) sl (err_source_pos e)
                      (err_source_len e))
           else (g, ReportLine (err_type e) (err_line e) (err_column e)
                      (err_message e) sl)
       | None => (g, ReportHeader (err_type e) (err_line e) (err_column e)
                       (err_message e))
       end.

Definition create_null_value : Value := VNull.
Definition create_int_value (val : Z) : Value := VInt val.
Definition create_float_value (val : double) : Value := VFloat val.
Definition create_bool_value (val : bool) : Value := VBool val.
Definition create_string_value (val : string) : Value := VString val.

Definition value_type_to_string (type : ValueType) : string :=
  match type with
  | VALUE_NULL => "null"
  | VALUE_INT => "int"
  | VALUE_FLOAT => "float"
  | VALUE_BOOL => "bool"
  | VALUE_STRING => "string"
  end.

(** [snprintf(buffer, sizeof(buffer), "%lld", ...)]: the decimal digits
    of the number, most significant first, behind a minus sign when it
    is negative. Twenty digits are more than a 64-bit number has, and
    the 64 bytes of [buffer] more than the text needs. *)
Definition digit_char (d : Z) : ascii := ascii_of_nat (48 + Z.to_nat d).

Fixpoint decimal_digits (fuel : nat) (n : Z) : list ascii :=
  match fuel with
  | O => []
  | S fuel' =>
      if n <? 10 then [digit_char n]
      else (decimal_digits fuel' (n / 10) ++ [digit_char (n mod 10)])%list
  end.

Definition print_lld (z : Z) : string :=
  if z <? 0 then String "-" (string_of_list_ascii (decimal_digits 20 (- z)))
  else string_of_list_ascii (decimal_digits 20 z).

(** [value_to_string]. What [snprintf] makes of a double with "%g" is
    left to the C library: [format_g] stands for it. *)
Section ValueToString.

Variable format_g : double -> string.

Definition value_to_string (value : Value) : string :=
  match value with
  | VNull => "null"
  | VInt z => print_lld z
  | VFloat d => format_g d
  | VBool b => if b then "true" else "false"
  | VString s => String "034" (s ++ String "034" EmptyString)
  end.

End ValueToString.

(** The operations on the diagnostic slot, for statements that range
    over all of them. *)
Inductive SlotOp : Type :=
| OpSet (type : ErrorType) (line column : Z) (message : string)
    (source_line : option (list ascii)) (source_pos source_len : Z)
| OpPrint
| OpClear.

Definition run_op (op : SlotOp) (g : KasdState) : KasdState :=
  match op with
  | OpSet t l c m sl p n => set_error t l c m sl p n g
  | OpPrint => fst (print_error g)
  | OpClear => clear_error g
  end.

End Common.
Import Common.

(** ** lexer.h / lexer.c *)

Module Lex.

Inductive TokenType : Type :=
| TOKEN_EOF | TOKEN_IDENTIFIER | TOKEN_INT | TOKEN_FLOAT | TOKEN_STRING
| TOKEN_LET | TOKEN_COLON | TOKEN_EQUAL | TOKEN_SEMICOLON | TOKEN_TRUE
| TOKEN_FALSE | TOKEN_NULL | TOKEN_TYPE_INT | TOKEN_TYPE_FLOAT
| TOKEN_TYPE_BOOL | TOKEN_TYPE_STRING | TOKEN_TYPE_NULL.

Definition TokenType_eqb (a b : TokenType) : bool :=
  match a, b with
  | TOKEN_EOF, TOKEN_EOF | TOKEN_IDENTIFIER, TOKEN_IDENTIFIER
  | TOKEN_INT, TOKEN_INT | TOKEN_FLOAT, TOKEN_FLOAT
  | TOKEN_STRING, TOKEN_STRING | TOKEN_LET, TOKEN_LET
  | TOKEN_COLON, TOKEN_COLON | TOKEN_EQUAL, TOKEN_EQUAL
  | TOKEN_SEMICOLON, TOKEN_SEMICOLON | TOKEN_TRUE, TOKEN_TRUE
  | TOKEN_FALSE, TOKEN_FALSE | TOKEN_NULL, TOKEN_NULL
  | TOKEN_TYPE_INT, TOKEN_TYPE_INT | TOKEN_TYPE_FLOAT, TOKEN_TYPE_FLOAT
  | TOKEN_TYPE_BOOL, TOKEN_TYPE_BOOL | TOKEN_TYPE_STRING, TOKEN_TYPE_STRING
  | TOKEN_TYPE_NULL, TOKEN_TYPE_NULL => true
  | _, _ => false
  end.

(** [token.start] points into the source buffer for a token made by
    [make_token] and at the message for one made by [error_token]. *)
Inductive TokenStart : Type :=
| InSource (offset : nat)
| InMessage (message : string).

(** The union [token.value]; [NoValue] is the payload left unassigned. *)
Inductive TokenValue : Type :=
| NoValue
| TokInt (as_int : Z)
| TokFloat (as_float : double)
| TokString (as_string : string).

Record Token : Type := mkToken {
  tok_type : TokenType;
  tok_start : TokenStart;
  tok_length : Z;
  tok_line : Z;
  tok_column : Z;
  tok_value : TokenValue
}.

(** The [Lexer] struct; its [previous] member is never assigned or read
    and is left out. [lex_source] is the text before the terminating
    NUL. *)
Record Lexer : Type := mkLexer {
  lex_source : list ascii;
  lex_current : nat;
  lex_start : nat;
  lex_line : Z;
  lex_column : Z;
  lex_had_error : bool
}.

Inductive CharClass : Type :=
| CHAR_WHITESPACE | CHAR_ALPHA | CHAR_DIGIT | CHAR_SPECIAL | CHAR_QUOTE
| CHAR_NEWLINE | CHAR_EOF.

Definition NUL : ascii := "000"%char.
Definition QUOTE : ascii := "034"%char.

(** <ctype.h> in the "C" locale, the one in effect since the program
    never calls [setlocale]. *)
Definition isspace (c : ascii) : bool :=
  let n := nat_of_ascii c in
  (((9 <=? n) && (n <=? 13)) || (n =? 32))%nat.

Definition isalpha (c : ascii) : bool :=
  let n := nat_of_ascii c in
  (((65 <=? n) && (n <=? 90)) || ((97 <=? n) && (n <=? 122)))%nat.

Definition isdigit (c : ascii) : bool :=
  let n := nat_of_ascii c in
  ((48 <=? n) && (n <=? 57))%nat.

(** The table [init_char_classes] fills: the assignments of the second
    loop in their order, each overriding the ones before it. *)
Definition char_classes (c : ascii) : CharClass :=
  let k := CHAR_SPECIAL in
  let k := if isspace c && negb (Ascii.eqb c "010") then CHAR_WHITESPACE
           else k in
  let k := if isalpha c || Ascii.eqb c "_" then CHAR_ALPHA else k in
  let k := if isdigit c then CHAR_DIGIT else k in
  let k := if Ascii.eqb c QUOTE then CHAR_QUOTE else k in
  let k := if Ascii.eqb c "010" then CHAR_NEWLINE else k in
  let k := if Ascii.eqb c NUL then CHAR_EOF else k in
  k.

Definition init_lexer (source : list ascii) : Lexer :=
  mkLexer source 0 0 1 1 false.

(** Reading the byte at offset [i] of the buffer that holds [source]
    followed by its terminating NUL. *)
Definition read (source : list ascii) (i : nat) : Res ascii :=
  if (i <? List.length source)%nat then Ok (nth i source NUL)
  else if (i =? List.length source)%nat then Ok NUL
  else OutOfBounds.

Definition peek (l : Lexer) : Res ascii :=
  read (lex_source l) (lex_current l).

Definition is_at_end (l : Lexer) : Res bool :=
  c <- peek l ;; Ok (Ascii.eqb c NUL).

Definition advance (l : Lexer) : Res (ascii * Lexer) :=
  c <- read (lex_source l) (lex_current l) ;;
  Ok (c, mkLexer (lex_source l) (S (lex_current l)) (lex_start l)
           (lex_line l) (lex_column l + 1) (lex_had_error l)).

Definition peek_next (l : Lexer) : Res ascii :=
  e <- is_at_end l ;;
  if e then Ok NUL else read (lex_source l) (S (lex_current l)).

Definition fuel_of (l : Lexer) : nat :=
  S (List.length (lex_source l) - lex_current l).

Definition new_line (l : Lexer) : Lexer :=
  mkLexer (lex_source l) (lex_current l) (lex_start l)
          (lex_line l + 1) 1 (lex_had_error l).

Fixpoint skip_whitespace_loop (fuel : nat) (l : Lexer) : Res Lexer :=
  match fuel with
  | O => OutOfFuel
  | S fuel' =>
      c <- peek l ;;
      match char_classes c with
      | CHAR_WHITESPACE =>
          '(_, l1) <- advance l ;; skip_whitespace_loop fuel' l1
      | CHAR_NEWLINE =>
          '(_, l1) <- advance (new_line l) ;; skip_whitespace_loop fuel' l1
      | _ => Ok l
      end
  end.

Definition skip_whitespace (l : Lexer) : Res Lexer :=
  skip_whitespace_loop (fuel_of l) l.

Definition ptr_diff (a b : nat) : Z := Z.of_nat a - Z.of_nat b.

Definition make_token (l : Lexer) (type : TokenType) : Token :=
  let len := ptr_diff (lex_current l) (lex_start l) in
  mkToken type (InSource (lex_start l)) len (lex_line l)
          (lex_column l - len) NoValue.

Definition set_had_error (l : Lexer) : Lexer :=
  mkLexer (lex_source l) (lex_current l) (lex_start l) (lex_line l)
          (lex_column l) true.

Definition error_token (l : Lexer) (message : string) (g : KasdState)
    : Token * Lexer * KasdState :=
  let l1 := set_had_error l in
  let g1 := set_error ERROR_SYNTAX (lex_line l1) (lex_column l1) message
              (Some (lex_source l1)) (ptr_diff (lex_start l1) 0)
              (ptr_diff (lex_current l1) (lex_start l1)) g in
  (mkToken TOKEN_EOF (InMessage message)
           (Z.of_nat (String.length message)) (lex_line l1) (lex_column l1)
           NoValue,
   l1, g1).

(** The text of the lexeme, [lex_start] up to [lex_current]. *)
Definition lexeme (l : Lexer) : list ascii :=
  firstn (lex_current l - lex_start l) (skipn (lex_start l) (lex_source l)).

Definition keywords : list (string * TokenType) :=
  [ ("let", TOKEN_LET); ("true", TOKEN_TRUE); ("false", TOKEN_FALSE);
    ("null", TOKEN_NULL); ("int", TOKEN_TYPE_INT);
    ("float", TOKEN_TYPE_FLOAT); ("bool", TOKEN_TYPE_BOOL);
    ("string", TOKEN_TYPE_STRING) ].

(** [length == keywords[i].length && memcmp(...) == 0]: the lexeme is
    the keyword, byte for byte. *)
Fixpoint check_keyword_from (kws : list (string * TokenType))
    (lx : list ascii) : TokenType :=
  match kws with
  | [] => TOKEN_IDENTIFIER
  | (name, type) :: rest =>
      if ((List.length lx =? String.length name)%nat)
         && String.eqb (string_of_list_ascii lx) name
      then type
      else check_keyword_from rest lx
  end.

Definition check_keyword (l : Lexer) : TokenType :=
  check_keyword_from keywords (lexeme l).

Definition is_class (k : CharClass) (c : ascii) : bool :=
  match char_classes c, k with
  | CHAR_WHITESPACE, CHAR_WHITESPACE | CHAR_ALPHA, CHAR_ALPHA
  | CHAR_DIGIT, CHAR_DIGIT | CHAR_SPECIAL, CHAR_SPECIAL
  | CHAR_QUOTE, CHAR_QUOTE | CHAR_NEWLINE, CHAR_NEWLINE
  | CHAR_EOF, CHAR_EOF => true
  | _, _ => false
  end.

Fixpoint identifier_loop (fuel : nat) (l : Lexer) : Res Lexer :=
  match fuel with
  | O => OutOfFuel
  | S fuel' =>
      c <- peek l ;;
      if is_class CHAR_ALPHA c || is_class CHAR_DIGIT c
      then '(_, l1) <- advance l ;; identifier_loop fuel' l1
      else Ok l
  end.

Definition identifier (l : Lexer) : Res (Token * Lexer) :=
  l1 <- identifier_loop (fuel_of l) l ;;
  Ok (make_token l1 (check_keyword l1), l1).

Fixpoint digits_loop (fuel : nat) (l : Lexer) : Res Lexer :=
  match fuel with
  | O => OutOfFuel
  | S fuel' =>
      c <- peek l ;;
      if is_class CHAR_DIGIT c
      then '(_, l1) <- advance l ;; digits_loop fuel' l1
      else Ok l
  end.

Definition digit_value (c : ascii) : Z := Z.of_nat (nat_of_ascii c) - 48.

(** The longest run of decimal digits at the head of [s]: its value on
    top of [acc], how many digits it has, and what follows it. *)
Fixpoint read_digits (s : list ascii) (acc : Z) (count : Z)
    : Z * Z * list ascii :=
  match s with
  | c :: rest =>
      if isdigit c then read_digits rest (acc * 10 + digit_value c) (count + 1)
      else (acc, count, s)
  | [] => (acc, count, s)
  end.

Definition LLONG_MAX : Z := 2 ^ 63 - 1.

(** [strtoll(s, &end, 10)] on text that starts with a digit: the value
    of the digit run, [LLONG_MAX] when it does not fit. *)
Definition strtoll (s : list ascii) : Z :=
  let '(v, _, _) := read_digits s 0 0 in Z.min v LLONG_MAX.

(** The decimal numeral at the head of a text that starts with a digit,
    as [strtod] takes it: integer part, optional fraction, optional
    exponent (taken only when a digit follows the [e] and its sign). *)
Definition read_decimal (s : list ascii) : Decimal :=
  let '(ip, _, r1) := read_digits s 0 0 in
  let '(m, k, r2) :=
    match r1 with
    | "."%char :: r => read_digits r ip 0
    | _ => (ip, 0, r1)
    end in
  let e :=
    match r2 with
    | x :: r =>
        if Ascii.eqb x "e" || Ascii.eqb x "E" then
          let '(neg, r') :=
            match r with
            | "-"%char :: r' => (true, r')
            | "+"%char :: r' => (false, r')
            | _ => (false, r)
            end in
          let '(ev, n, _) := read_digits r' 0 0 in
          if n =? 0 then 0 else if neg then - ev else ev
        else 0
    | [] => 0
    end in
  mkDecimal m (e - k).

(** [strtod(s, &end)] on text that starts with a digit: the double
    nearest to the numeral at its head. *)
Definition strtod (s : list ascii) : double :=
  nearest_double (read_decimal s).

Definition with_value (t : Token) (v : TokenValue) : Token :=
  mkToken (tok_type t) (tok_start t) (tok_length t) (tok_line t)
          (tok_column t) v.

Definition number (l : Lexer) : Res (Token * Lexer) :=
  l1 <- digits_loop (fuel_of l) l ;;
  c <- peek l1 ;;
  '(type, l2) <-
    (if Ascii.eqb c "."
     then n <- peek_next l1 ;;
          if is_class CHAR_DIGIT n
          then '(_, l') <- advance l1 ;;
               l'' <- digits_loop (fuel_of l') l' ;;
               Ok (TOKEN_FLOAT, l'')
          else Ok (TOKEN_INT, l1)
     else Ok (TOKEN_INT, l1)) ;;
  let token := make_token l2 type in
  let text := skipn (lex_start l2) (lex_source l2) in
  match type with
  | TOKEN_INT => Ok (with_value token (TokInt (strtoll text)), l2)
  | _ => Ok (with_value token (TokFloat (strtod text)), l2)
  end.

Fixpoint string_loop (fuel : nat) (l : Lexer) : Res Lexer :=
  match fuel with
  | O => OutOfFuel
  | S fuel' =>
      c <- peek l ;;
      e <- is_at_end l ;;
      if negb (Ascii.eqb c QUOTE) && negb e
      then c' <- peek l ;;
           let l1 := if Ascii.eqb c' "010" then new_line l else l in
           '(_, l2) <- advance l1 ;; string_loop fuel' l2
      else Ok l
  end.

(** [string] (the name is taken by the type of strings). It is entered
    from [scan_token], which has already taken the opening quote with
    its own [advance]. *)
Definition string_ (l : Lexer) (g : KasdState)
    : Res (Token * Lexer * KasdState) :=
  '(_, l1) <- advance l ;;
  let start := lex_current l1 in
  l2 <- string_loop (fuel_of l1) l1 ;;
  e <- is_at_end l2 ;;
  if e then Ok (error_token l2 "Unterminated string." g)
  else
    let length := ptr_diff (lex_current l2) start in
    let token := make_token l2 TOKEN_STRING in
    let copy := firstn (Z.to_nat length) (skipn start (lex_source l2)) in
    let token := with_value token (TokString (string_of_list_ascii copy)) in
    '(_, l3) <- advance l2 ;;
    Ok (token, l3, g).

Definition mark_start (l : Lexer) : Lexer :=
  mkLexer (lex_source l) (lex_current l) (lex_current l) (lex_line l)
          (lex_column l) (lex_had_error l).

Definition unexpected_character (c : ascii) : string :=
  "Unexpected character: '" ++ String c "'".

Definition scan_token (l : Lexer) (g : KasdState)
    : Res (Token * Lexer * KasdState) :=
  l1 <- skip_whitespace l ;;
  let l2 := mark_start l1 in
  e <- is_at_end l2 ;;
  if e then Ok (make_token l2 TOKEN_EOF, l2, g)
  else
    '(c, l3) <- advance l2 ;;
    match char_classes c with
    | CHAR_ALPHA => '(t, l4) <- identifier l3 ;; Ok (t, l4, g)
    | CHAR_DIGIT => '(t, l4) <- number l3 ;; Ok (t, l4, g)
    | CHAR_QUOTE => string_ l3 g
    | _ =>
        if Ascii.eqb c ":" then Ok (make_token l3 TOKEN_COLON, l3, g)
        else if Ascii.eqb c "=" then Ok (make_token l3 TOKEN_EQUAL, l3, g)
        else if Ascii.eqb c ";" then Ok (make_token l3 TOKEN_SEMICOLON, l3, g)
        else Ok (error_token l3 (unexpected_character c) g)
    end.

End Lex.

Import Lex.

(** ** parser.h / parser.c *)

Module Parse.

(** [AstNode]: the node type is the constructor; a node owns its
    children. The parser never builds a declaration without an
    initializer. *)
Inductive AstNode : Type :=
| NODE_VARIABLE_DECLARATION (line column : Z) (name : string)
    (var_type : ValueType) (initializer : AstNode)
| NODE_LITERAL (line column : Z) (literal : Value).

(** The parser reaches its lexer through a pointer of which it is the
    only user while it runs; the lexer is held in the record. *)
Record Parser : Type := mkParser {
  lexer : Lexer;
  current : Token;
  previous : Token;
  had_error : bool;
  panic_mode : bool
}.

(** What [parser->current] holds before the first [advance]: the struct
    is not initialised, its bytes are never read before being assigned. *)
Definition uninitialised_token : Token :=
  mkToken TOKEN_EOF (InSource 0) 0 0 0 NoValue.

Definition advance (p : Parser) (g : KasdState)
    : Res (Parser * KasdState) :=
  '(t, l, g1) <- scan_token (lexer p) g ;;
  Ok (mkParser l t (current p) (had_error p) (panic_mode p), g1).

Definition check (p : Parser) (type : TokenType) : bool :=
  TokenType_eqb (tok_type (current p)) type.

Definition match_ (p : Parser) (type : TokenType) (g : KasdState)
    : Res (bool * Parser * KasdState) :=
  if check p type
  then '(p1, g1) <- advance p g ;; Ok (true, p1, g1)
  else Ok (false, p, g).

(** [(int)(token.start - lexer->source)]. For an error token the two
    pointers belong to different objects and C leaves the difference
    unspecified; it is taken as 0, and [set_error] drops it, a
    diagnostic being pending from the moment an error token exists. *)
Definition start_offset (t : Token) : Z :=
  match tok_start t with
  | InSource o => ptr_diff o 0
  | InMessage _ => 0
  end.

Definition set_had_error (p : Parser) : Parser :=
  mkParser (lexer p) (current p) (previous p) true (panic_mode p).

(** The call [set_error(ERROR_SYNTAX, ...)] at the current token followed
    by [parser->had_error = true], as it is written out in [consume],
    [parse], [parse_variable_declaration] and [parse_literal]. *)
Definition error_at_current (p : Parser) (message : string) (g : KasdState)
    : Parser * KasdState :=
  (set_had_error p,
   set_error ERROR_SYNTAX (tok_line (current p)) (tok_column (current p))
     message (Some (lex_source (lexer p))) (start_offset (current p))
     (tok_length (current p)) g).

Definition consume (p : Parser) (type : TokenType) (message : string)
    (g : KasdState) : Res (bool * Parser * KasdState) :=
  if check p type
  then '(p1, g1) <- advance p g ;; Ok (true, p1, g1)
  else let '(p1, g1) := error_at_current p message g in Ok (false, p1, g1).

Definition create_node_literal (line column : Z) (v : Value) : AstNode :=
  NODE_LITERAL line column v.

Definition init_parser (l : Lexer) (g : KasdState)
    : Res (Parser * KasdState) :=
  advance (mkParser l uninitialised_token uninitialised_token false false) g.

(** Reading a member of the token's payload union. *)
Definition payload_int (t : Token) : Z :=
  match tok_value t with TokInt z => z | _ => 0 end.
Definition payload_float (t : Token) : double :=
  match tok_value t with TokFloat d => d | _ => SpecFloat.S754_zero false end.
Definition payload_string (t : Token) : string :=
  match tok_value t with TokString s => s | _ => EmptyString end.

Definition parse_literal (p : Parser) (g : KasdState)
    : Res (option AstNode * Parser * KasdState) :=
  let c := current p in
  let literal (v : Value) :=
    '(p1, g1) <- advance p g ;;
    Ok (Some (create_node_literal (tok_line c) (tok_column c) v), p1, g1) in
  match tok_type c with
  | TOKEN_INT => literal (create_int_value (payload_int c))
  | TOKEN_FLOAT => literal (create_float_value (payload_float c))
  | TOKEN_STRING => literal (create_string_value (payload_string c))
  | TOKEN_TRUE => literal (create_bool_value true)
  | TOKEN_FALSE => literal (create_bool_value false)
  | TOKEN_NULL => literal create_null_value
  | _ =>
      let '(p1, g1) := error_at_current p "Expected literal value." g in
      Ok (None, p1, g1)
  end.

Definition parse_expression := parse_literal.

(** [type_map]: the designated entries, every other entry of the static
    array being zero, which is [VALUE_NULL]. *)
Definition token_to_value_type (type : TokenType) : ValueType :=
  match type with
  | TOKEN_TYPE_INT => VALUE_INT
  | TOKEN_TYPE_FLOAT => VALUE_FLOAT
  | TOKEN_TYPE_BOOL => VALUE_BOOL
  | TOKEN_TYPE_STRING => VALUE_STRING
  | _ => VALUE_NULL
  end.

Definition type_tokens : list TokenType :=
  [TOKEN_TYPE_INT; TOKEN_TYPE_FLOAT; TOKEN_TYPE_BOOL; TOKEN_TYPE_STRING;
   TOKEN_TYPE_NULL].

(** The [for] loop over [type_tokens], left at the first [match]. *)
Fixpoint match_first (types : list TokenType) (p : Parser) (g : KasdState)
    : Res (option TokenType * Parser * KasdState) :=
  match types with
  | [] => Ok (None, p, g)
  | t :: rest =>
      '(found, p1, g1) <- match_ p t g ;;
      if (found : bool) then Ok (Some t, p1, g1) else match_first rest p1 g1
  end.

(** [strndup(token.start, token.length)]. *)
Definition token_text (source : list ascii) (t : Token) : string :=
  match tok_start t with
  | InSource o =>
      string_of_list_ascii (firstn (Z.to_nat (tok_length t)) (skipn o source))
  | InMessage m => String.substring 0 (Z.to_nat (tok_length t)) m
  end.

Definition parse_variable_declaration (p : Parser) (g : KasdState)
    : Res (option AstNode * Parser * KasdState) :=
  '(ok, p, g) <- consume p TOKEN_LET "Expected 'let' keyword." g ;;
  if negb ok then Ok (None, p, g) else
  '(ok, p, g) <- consume p TOKEN_IDENTIFIER "Expected variable name." g ;;
  if negb ok then Ok (None, p, g) else
  let name_token := previous p in
  '(ok, p, g) <- consume p TOKEN_COLON "Expected ':' after variable name." g ;;
  if negb ok then Ok (None, p, g) else
  '(found, p, g) <- match_first type_tokens p g ;;
  match found with
  | None =>
      let '(p, g) :=
        error_at_current p
          "Expected type (int, float, bool, string, or null)." g in
      Ok (None, p, g)
  | Some type_token =>
      let var_type := token_to_value_type type_token in
      '(ok, p, g) <- consume p TOKEN_EQUAL "Expected '=' after type." g ;;
      if negb ok then Ok (None, p, g) else
      '(init, p, g) <- parse_expression p g ;;
      match init with
      | None => Ok (None, p, g)
      | Some initializer =>
          '(ok, p, g) <-
            consume p TOKEN_SEMICOLON
              "Expected ';' after variable declaration." g ;;
          if negb ok then Ok (None, p, g) else
          Ok (Some (NODE_VARIABLE_DECLARATION
                      (tok_line name_token) (tok_column name_token)
                      (token_text (lex_source (lexer p)) name_token)
                      var_type initializer),
              p, g)
      end
  end.

Definition parse_declaration := parse_variable_declaration.

Definition parse (p : Parser) (g : KasdState)
    : Res (option AstNode * Parser * KasdState) :=
  '(node, p1, g1) <- parse_declaration p g ;;
  if negb (check p1 TOKEN_EOF) && negb (had_error p1)
  then let '(p2, g2) := error_at_current p1 "Expected end of file." g1 in
       Ok (node, p2, g2)
  else Ok (node, p1, g1).

End Parse.
Import Parse.

(** ** semantic.h / semantic.c *)

Module Semantic.

(** The linked list of [SymbolEntry], head first. *)
Definition SymbolTable : Type := list (string * ValueType).

Record SemanticAnalyzer : Type := mkAnalyzer {
  symbol_table : SymbolTable;
  sem_had_error : bool
}.

Definition init_semantic_analyzer : SemanticAnalyzer := mkAnalyzer [] false.

Definition add_symbol (table : SymbolTable) (name : string)
    (type : ValueType) : SymbolTable :=
  (name, type) :: table.

Fixpoint find_symbol (table : SymbolTable) (name : string)
    : option (string * ValueType) :=
  match table with
  | [] => None
  | entry :: next =>
      if String.eqb (fst entry) name then Some entry
      else find_symbol next name
  end.

(** The enumerators of [ValueType] as array indices. *)
Definition ValueType_index (t : ValueType) : nat :=
  match t with
  | VALUE_NULL => 0
  | VALUE_INT => 1
  | VALUE_FLOAT => 2
  | VALUE_BOOL => 3
  | VALUE_STRING => 4
  end.

Definition ValueType_eqb (a b : ValueType) : bool :=
  (ValueType_index a =? ValueType_index b)%nat.

Definition compatibility_table : list (list bool) :=
  (*  NULL   INT    FLOAT  BOOL   STRING        *)
  [ [ true;  false; false; false; false ];   (* NULL *)
    [ false; true;  true;  false; false ];   (* INT *)
    [ false; false; true;  false; false ];   (* FLOAT *)
    [ false; false; false; true;  false ];   (* BOOL *)
    [ false; false; false; false; true  ] ]. (* STRING *)

Definition check_types_compatible (expected actual : ValueType) : bool :=
  if ValueType_eqb expected actual then true
  else if ValueType_eqb actual VALUE_NULL then true
  else nth (ValueType_index actual)
           (nth (ValueType_index expected) compatibility_table [])
           false.

Definition get_node_type (node : AstNode) : ValueType :=
  match node with
  | NODE_LITERAL _ _ literal => value_type literal
  | NODE_VARIABLE_DECLARATION _ _ _ var_type _ => var_type
  end.

Definition node_line (node : AstNode) : Z :=
  match node with
  | NODE_LITERAL line _ _ => line
  | NODE_VARIABLE_DECLARATION line _ _ _ _ => line
  end.

Definition node_column (node : AstNode) : Z :=
  match node with
  | NODE_LITERAL _ column _ => column
  | NODE_VARIABLE_DECLARATION _ column _ _ _ => column
  end.

Definition set_sem_error (a : SemanticAnalyzer) : SemanticAnalyzer :=
  mkAnalyzer (symbol_table a) true.

Definition type_mismatch (init_type var_type : ValueType) : string :=
  "Type mismatch: cannot assign " ++ value_type_to_string init_type
  ++ " to variable of type " ++ value_type_to_string var_type.

(** [analyze_variable_declaration] on the members of a declaration
    node. *)
Definition analyze_variable_declaration (a : SemanticAnalyzer)
    (line column : Z) (name : string) (var_type : ValueType)
    (initializer : AstNode) (g : KasdState)
    : bool * SemanticAnalyzer * KasdState :=
  match find_symbol (symbol_table a) name with
  | Some _ =>
      (false, set_sem_error a,
       set_error ERROR_NAME line column "Variable already declared" None 0 0 g)
  | None =>
      let a1 := mkAnalyzer (add_symbol (symbol_table a) name var_type)
                  (sem_had_error a) in
      let init_type := get_node_type initializer in
      if negb (check_types_compatible var_type init_type)
      then (false, set_sem_error a1,
            set_error ERROR_TYPE (node_line initializer)
              (node_column initializer) (type_mismatch init_type var_type)
              None 0 0 g)
      else (true, a1, g)
  end.

(** [node] is [None] for the C [NULL]. *)
Definition analyze_node (a : SemanticAnalyzer) (node : option AstNode)
    (g : KasdState) : bool * SemanticAnalyzer * KasdState :=
  match node with
  | None => (true, a, g)
  | Some (NODE_VARIABLE_DECLARATION line column name var_type initializer) =>
      analyze_variable_declaration a line column name var_type initializer g
  | Some (NODE_LITERAL _ _ _) => (true, a, g)
  end.

Definition analyze (a : SemanticAnalyzer) (node : option AstNode)
    (g : KasdState) : bool * SemanticAnalyzer * KasdState :=
  let '(result, a1, g1) := analyze_node a node g in
  (result && negb (sem_had_error a1), a1, g1).

End Semantic.
Import Semantic.

(** ** interpreter.h / interpreter.c *)

Module Interp.

(** The linked list of [EnvEntry], head first. *)
Definition Environment : Type := list (string * Value).

Record Interpreter : Type := mkInterpreter {
  env : Environment;
  int_had_error : bool;
  repl_mode : bool
}.

(** A line written to stdout in REPL mode, before [value_to_string]
    turns the value into text. *)
Record EchoLine : Type := mkEcho {
  echo_name : string;
  echo_type : string;
  echo_value : Value
}.

Definition init_interpreter (repl_mode : bool) : Interpreter :=
  mkInterpreter [] false repl_mode.

(** The string payloads [free] is called on when a value is dropped. *)
Definition released (v : Value) : list string :=
  match v with
  | VString s => [s]
  | _ => []
  end.

(** The search loop of [env_define]: the first entry called [name] gets
    [value] (a string payload is duplicated, which copies the text) and
    the payload it held is released; [None] when no entry has the
    name. *)
Fixpoint env_overwrite (entries : Environment) (name : string)
    (value : Value) : option (Environment * list string) :=
  match entries with
  | [] => None
  | (n, old) :: next =>
      if String.eqb n name then Some ((n, value) :: next, released old)
      else match env_overwrite next name value with
           | Some (next', freed) => Some ((n, old) :: next', freed)
           | None => None
           end
  end.

Definition env_define (e : Environment) (name : string) (value : Value)
    : Environment * list string :=
  match env_overwrite e name value with
  | Some r => r
  | None => ((name, value) :: e, [])
  end.

Fixpoint evaluate_node (i : Interpreter) (node : AstNode)
    : Value * Interpreter * list EchoLine :=
  match node with
  | NODE_VARIABLE_DECLARATION _ _ name var_type initializer =>
      let '(value, i1, out) := evaluate_node i initializer in
      let '(e, _) := env_define (env i1) name value in
      let i2 := mkInterpreter e (int_had_error i1) (repl_mode i1) in
      let line := mkEcho name (value_type_to_string var_type) value in
      (value, i2, if repl_mode i2 then (out ++ [line])%list else out)
  | NODE_LITERAL _ _ literal => (literal, i, [])
  end.

Definition evaluate_variable_declaration (i : Interpreter) (line column : Z)
    (name : string) (var_type : ValueType) (initializer : AstNode)
    : Value * Interpreter * list EchoLine :=
  evaluate_node i
    (NODE_VARIABLE_DECLARATION line column name var_type initializer).

Definition interpret (i : Interpreter) (node : option AstNode)
    : Value * Interpreter * list EchoLine :=
  match node with
  | None => (create_null_value, i, [])
  | Some n => evaluate_node i n
  end.

(** [env_free] walks the list from its head: it releases the name of
    every entry and the payload of every string value, and leaves the
    environment empty. The names and the payloads released are handed
    back in the order of the walk. *)
Definition env_free (e : Environment)
    : Environment * list string * list string :=
  ([], map fst e, flat_map (fun entry => released (snd entry)) e).

Definition free_interpreter (i : Interpreter)
    : Interpreter * list string * list string :=
  let '(e, names, payloads) := env_free (env i) in
  (mkInterpreter e (int_had_error i) (repl_mode i), names, payloads).

End Interp.
Import Interp.

(** ** main.c *)

Module Main.

(** What a call of [run_source] did: its return value, the tree [parse]
    returned, what [print_error] wrote, the diagnostic slot at return
    and, when [interpret] was called, its result together with the
    interpreter as it stood before [free_interpreter]. *)
Record RunResult : Type := mkRun {
  run_ok : bool;
  run_ast : option AstNode;
  run_report : ErrorReport;
  run_interpreted : option (Value * Interpreter * list EchoLine);
  run_state : KasdState
}.

Definition is_null (node : option AstNode) : bool :=
  match node with None => true | Some _ => false end.

(** [run_source]. Its [log_level] argument only decides whether the tree
    is dumped to stdout before interpretation, an output that is not
    kept here, and is left out. *)
Definition run_source (source : list ascii) (repl_mode : bool)
    (g : KasdState) : Res RunResult :=
  let lexer := init_lexer source in
  '(parser, g) <- init_parser lexer g ;;
  let analyzer := init_semantic_analyzer in
  let interpreter := init_interpreter repl_mode in
  '(ast, parser, g) <- parse parser g ;;
  if had_error parser || is_null ast then
    let '(g, report) := print_error g in
    Ok (mkRun false ast report None g)
  else
    let '(ok, analyzer, g) := analyze analyzer ast g in
    if negb ok then
      let '(g, report) := print_error g in
      Ok (mkRun false ast report None g)
    else
      Ok (mkRun true ast ReportNothing (Some (interpret interpreter ast)) g).

(** The source text of a string literal, as bytes. *)
Definition text (s : string) : list ascii := list_ascii_of_string s.

Definition MAX_LINE_LENGTH : nat := 1024.

(** The bytes [fgets] takes from what standard input still holds: at
    most [room] of them, up to and including the first newline; the
    result is the bytes taken and the bytes left in the stream. *)
Fixpoint fgets_bytes (room : nat) (stdin : list ascii)
    : list ascii * list ascii :=
  match room, stdin with
  | O, _ => ([], stdin)
  | S _, [] => ([], [])
  | S room', c :: rest =>
      if Ascii.eqb c "010" then ([c], rest)
      else let '(line, rest') := fgets_bytes room' rest in (c :: line, rest')
  end.

(** [fgets(line, size, stdin)]. The array [line] is kept as the bytes
    written to it so far, from its first byte on; nothing has been
    written when [repl] starts. [fgets] stores the bytes it takes and a
    NUL after them at the start of the array and leaves the bytes behind
    that NUL as they were. [None] is the null pointer it returns at the
    end of the stream when no byte was read; the array is then
    untouched. *)
Definition fgets (line : list ascii) (size : nat) (stdin : list ascii)
    : option (list ascii * list ascii) :=
  match stdin with
  | [] => None
  | _ :: _ =>
      let '(taken, stdin') := fgets_bytes (size - 1) stdin in
      Some ((taken ++ NUL :: skipn (S (List.length taken)) line)%list, stdin')
  end.

(** [strcmp(a, b) == 0]: the two buffers hold the same string. *)
Definition strcmp_is_0 (a b : list ascii) : bool :=
  String.eqb (string_of_list_ascii (strdup a)) (string_of_list_ascii (strdup b)).

(** The literal ["exit\n"]. *)
Definition exit_line : list ascii := text "exit" ++ ["010"%char].

(** The buffer a pointer to the array [line] hands to [run_source]: the
    bytes written to the array in front of the last NUL written, that
    NUL being the last byte [read] answers for. The string of the line
    ends at the first NUL; behind it the buffer goes on with what longer
    lines read earlier left in the array, and a lexer that steps over
    the first NUL reads on in those bytes. Behind the last NUL written
    the array holds bytes no one wrote, whose values the program does
    not determine, and the array ends after [MAX_LINE_LENGTH] bytes: a
    read there has no result. *)
Definition line_buffer (line : list ascii) : list ascii := removelast line.

(** The [while (1)] loop of [repl] on the array [line] and the bytes of
    standard input; the prompts are not kept. Every [fgets] that returns
    takes at least one byte, so that the length of the input bounds the
    iterations. *)
Fixpoint repl_loop (fuel : nat) (line stdin : list ascii) (g : KasdState)
    : Res (list RunResult * KasdState) :=
  match fuel with
  | O => OutOfFuel
  | S fuel' =>
      match fgets line MAX_LINE_LENGTH stdin with
      | None => Ok ([], g)
      | Some (line, stdin') =>
          if strcmp_is_0 line exit_line then Ok ([], g)
          else
            r <- run_source (line_buffer line) true g ;;
            let g1 := clear_error (run_state r) in
            '(rs, g2) <- repl_loop fuel' line stdin' g1 ;;
            Ok (r :: rs, g2)
      end
  end.

(** [repl], its array not yet written to: what each line that was run
    did, and the diagnostic slot at return. *)
Definition repl (stdin : list ascii) (g : KasdState)
    : Res (list RunResult * KasdState) :=
  repl_loop (S (List.length stdin)) [] stdin g.

End Main.
Import Main.

(** * Vocabulary of the statements *)

(** ** Predicates and measures *)

(** Running slot operations one after the other. *)
Definition run_ops (ops : list SlotOp) (g : KasdState) : KasdState :=
  fold_left (fun st op => run_op op st) ops g.

(** Defining a list of bindings one after the other, as successive
    declarations would. *)
Definition env_define_all (defs : list (string * Value)) (e : Environment)
    : Environment :=
  fold_left (fun acc d => fst (env_define acc (fst d) (snd d))) defs e.

(** Defining a list of bindings one after the other, with the payloads
    the overwrites release on the way, in order. *)
Fixpoint env_define_trace (defs : list (string * Value)) (e : Environment)
    : Environment * list string :=
  match defs with
  | [] => (e, [])
  | (name, value) :: rest =>
      let '(e1, freed) := env_define e name value in
      let '(e2, freed') := env_define_trace rest e1 in
      (e2, (freed ++ freed')%list)
  end.

(** The string payloads of a list of bindings, in order: the text of
    every string value, and nothing for a value of another type. They
    are what an environment holds, and what [env_define] takes a copy of
    over a list of definitions. *)
Fixpoint payloads (e : list (string * Value)) : list string :=
  match e with
  | [] => []
  | (_, VString payload) :: rest => payload :: payloads rest
  | (_, _) :: rest => payloads rest
  end.

(** The values whose text, as [value_to_string] writes it, is a literal
    of the language again: null, the booleans, and the integers a
    literal can denote. *)
Definition written_as_literal (v : Value) : bool :=
  match v with
  | VNull | VBool _ => true
  | VInt z => (0 <=? z) && (z <=? LLONG_MAX)
  | VFloat _ | VString _ => false
  end.

(** Analysing trees one after the other with the same analyzer: the
    verdicts in order, the analyzer and the slot at the end. *)
Fixpoint analyze_all (a : SemanticAnalyzer) (nodes : list (option AstNode))
    (g : KasdState) : list bool * SemanticAnalyzer * KasdState :=
  match nodes with
  | [] => ([], a, g)
  | node :: rest =>
      let '(ok, a1, g1) := analyze a node g in
      let '(oks, a2, g2) := analyze_all a1 rest g1 in
      (ok :: oks, a2, g2)
  end.

(** The lexer's [current] points into the buffer, the terminating NUL
    included. *)
Definition in_bounds (l : Lexer) : Prop :=
  (lex_current l <= List.length (lex_source l))%nat.

(** What a loop of the lexer may change: it moves [current] forward and
    counts lines and columns, nothing else. *)
Definition extends (l l' : Lexer) : Prop :=
  lex_source l' = lex_source l /\
  (lex_current l <= lex_current l')%nat /\
  lex_start l' = lex_start l /\
  lex_had_error l' = lex_had_error l.

(** The bytes [skip_whitespace] steps over. *)
Definition blank (c : ascii) : bool :=
  match char_classes c with
  | CHAR_WHITESPACE | CHAR_NEWLINE => true
  | _ => false
  end.

Definition is_newline (c : ascii) : bool := Ascii.eqb c "010".

(** The bytes between two positions of the same source. *)
Definition consumed (l l' : Lexer) : list ascii :=
  firstn (lex_current l' - lex_current l)
         (skipn (lex_current l) (lex_source l)).

(** The one state from which [scan_token] leaves the buffer: past the
    blanks, the next byte is a double quote and the last of the
    source. *)
Definition quote_is_last (l : Lexer) : bool :=
  match peek l with
  | Ok c => Ascii.eqb c QUOTE
            && (S (lex_current l) =? List.length (lex_source l))%nat
  | _ => false
  end.

Definition is_numeric (t : ValueType) : bool :=
  match t with
  | VALUE_INT | VALUE_FLOAT => true
  | _ => false
  end.

(** How a stage may leave the diagnostic slot: as it found it, or, if
    nothing was pending, with a Syntax diagnostic pending. *)
Definition raised_syntax (g g' : KasdState) : Prop :=
  g' = g \/
  (pending g = false /\ pending g' = true /\
   err_type (error g') = ERROR_SYNTAX /\ log_level g' = log_level g).

(** The trees [parse] can build: one declaration of a non-null type
    whose initializer is a literal. *)
Definition well_shaped (node : AstNode) : Prop :=
  match node with
  | NODE_VARIABLE_DECLARATION _ _ _ var_type (NODE_LITERAL _ _ _) =>
      var_type <> VALUE_NULL
  | _ => False
  end.

(** ** Text in front of the lexer *)

(** The text the lexer has not taken yet. *)
Definition rest_of (l : Lexer) : list ascii :=
  skipn (lex_current l) (lex_source l).

(** The lexer [n] bytes further on, on the same line. *)
Definition moved (l : Lexer) (n : nat) : Lexer :=
  mkLexer (lex_source l) (lex_current l + n) (lex_start l) (lex_line l)
          (lex_column l + Z.of_nat n) (lex_had_error l).

Definition starts_with (f : ascii -> bool) (s : list ascii) : bool :=
  match s with
  | c :: _ => f c
  | [] => false
  end.

(** The bytes that start a word, and those that continue one. *)
Definition word_start (c : ascii) : bool := isalpha c || Ascii.eqb c "_".
Definition word_char (c : ascii) : bool := word_start c || isdigit c.

(** The number a run of decimal digits writes. *)
Definition digits_value (ds : list ascii) : Z :=
  fold_left (fun acc c => acc * 10 + digit_value c) ds 0.

(** A dot with a digit after it, which continues a number. *)
Definition starts_fraction (s : list ascii) : bool :=
  match s with
  | c :: d :: _ => Ascii.eqb c "." && isdigit d
  | _ => false
  end.

(** The letters that start an exponent for [strtod]. *)
Definition exponent_mark (c : ascii) : bool :=
  Ascii.eqb c "e" || Ascii.eqb c "E".

(** The lexer after taking the bytes [cs] the way [skip_whitespace] and
    the loop of [string] take them: a newline first starts a new line,
    then every byte is one [advance]. *)
Definition step_over (l : Lexer) (c : ascii) : Lexer :=
  moved (if is_newline c then new_line l else l) 1.

Definition over (l : Lexer) (cs : list ascii) : Lexer :=
  fold_left step_over cs l.

(** The bytes a string literal may hold between its quotes. *)
Definition string_byte (c : ascii) : bool :=
  negb (Ascii.eqb c QUOTE) && negb (Ascii.eqb c NUL).

(** ** Texts the lexer and the parser accept *)

(** Line and column after the bytes [cs], counted the way the lexer
    counts them: a newline starts a new line at column 1 and is then
    taken like any other byte, which leaves the column at 2. *)
Definition place (from : Z * Z) (cs : list ascii) : Z * Z :=
  fold_left
    (fun p c => if is_newline c then (fst p + 1, 2) else (fst p, snd p + 1))
    cs from.

Definition position (l : Lexer) : Z * Z := (lex_line l, lex_column l).

(** [spells rest txt type value]: the bytes [txt], when [rest] comes
    after them, are the text of one token of that type and payload. *)
Inductive spells (rest : list ascii)
    : list ascii -> TokenType -> TokenValue -> Prop :=
| spells_word c w :
    word_start c = true -> forallb word_char w = true ->
    starts_with word_char rest = false ->
    spells rest (c :: w) (check_keyword_from keywords (c :: w)) NoValue
| spells_int d ds :
    forallb isdigit (d :: ds) = true ->
    starts_with isdigit rest = false -> starts_fraction rest = false ->
    spells rest (d :: ds) TOKEN_INT
      (TokInt (Z.min (digits_value (d :: ds)) LLONG_MAX))
| spells_float d ds d2 ds2 :
    forallb isdigit (d :: ds) = true -> forallb isdigit (d2 :: ds2) = true ->
    starts_with isdigit rest = false ->
    starts_with exponent_mark rest = false ->
    spells rest (d :: ds ++ "."%char :: d2 :: ds2) TOKEN_FLOAT
      (TokFloat
         (nearest_double
            (mkDecimal (digits_value ((d :: ds) ++ d2 :: ds2))
               (- Z.of_nat (S (List.length ds2))))))
| spells_string c body :
    forallb string_byte body = true ->
    spells rest (QUOTE :: c :: body ++ [QUOTE]) TOKEN_STRING
      (TokString (string_of_list_ascii body))
| spells_colon : spells rest [":"%char] TOKEN_COLON NoValue
| spells_equal : spells rest ["="%char] TOKEN_EQUAL NoValue
| spells_semicolon : spells rest [";"%char] TOKEN_SEMICOLON NoValue
| spells_eof : rest = [] -> spells rest [] TOKEN_EOF NoValue.

(** The texts [parse_literal] takes for a literal, each with the value
    it makes of it. In a string literal the byte after the opening
    quote is not part of the value. *)
Inductive literal_text : list ascii -> Value -> Prop :=
| literal_int d ds :
    forallb isdigit (d :: ds) = true ->
    literal_text (d :: ds) (VInt (Z.min (digits_value (d :: ds)) LLONG_MAX))
| literal_float d ds d2 ds2 :
    forallb isdigit (d :: ds) = true -> forallb isdigit (d2 :: ds2) = true ->
    literal_text (d :: ds ++ "."%char :: d2 :: ds2)
      (VFloat
         (nearest_double
            (mkDecimal (digits_value ((d :: ds) ++ d2 :: ds2))
               (- Z.of_nat (S (List.length ds2))))))
| literal_string c body :
    forallb string_byte body = true ->
    literal_text (QUOTE :: c :: body ++ [QUOTE])
      (VString (string_of_list_ascii body))
| literal_true : literal_text (text "true") (VBool true)
| literal_false : literal_text (text "false") (VBool false)
| literal_null : literal_text (text "null") VNull.

(** The type names a declaration can be written with. *)
Definition type_words : list (list ascii * ValueType) :=
  [ (text "int", VALUE_INT); (text "float", VALUE_FLOAT);
    (text "bool", VALUE_BOOL); (text "string", VALUE_STRING) ].

(** A declaration laid out with the blanks [gap 0] to [gap 6] around
    its tokens, and [tail] after its semicolon. *)
Definition declaration_then (gap : nat -> list ascii)
    (name type literal tail : list ascii) : list ascii :=
  (gap 0%nat ++ text "let" ++ gap 1%nat ++ name ++ gap 2%nat ++ text ":"
   ++ gap 3%nat ++ type ++ gap 4%nat ++ text "=" ++ gap 5%nat ++ literal
   ++ gap 6%nat ++ text ";" ++ tail)%list.

(** A source that is one declaration, with the blanks [gap 7] after
    it. *)
Definition declaration_text (gap : nat -> list ascii)
    (name type literal : list ascii) : list ascii :=
  declaration_then gap name type literal (gap 7%nat).

(** The texts that end in a lexical error, each with the message of the
    diagnostic and the length of its span: a byte that starts no token,
    and a string that is not closed before the end of the source. *)
Inductive lexical_error : list ascii -> string -> Z -> Prop :=
| unexpected_byte x junk :
    char_classes x = CHAR_SPECIAL ->
    x <> ":"%char -> x <> "="%char -> x <> ";"%char ->
    lexical_error (x :: junk) (unexpected_character x) 1
| open_string c body :
    forallb string_byte body = true ->
    lexical_error (QUOTE :: c :: body) "Unterminated string."
      (Z.of_nat (2 + List.length body)).

(** The bytes of a declaration in front of its literal. *)
Definition before_literal (gap : nat -> list ascii)
    (name type : list ascii) : list ascii :=
  (gap 0%nat ++ text "let" ++ gap 1%nat ++ name ++ gap 2%nat ++ text ":"
   ++ gap 3%nat ++ type ++ gap 4%nat ++ text "=" ++ gap 5%nat)%list.

(** ** What the parser expects, token by token *)

(** The token types [parse_variable_declaration] accepts at each of its
    seven positions, and the message of the diagnostic it raises at a
    token of another type. *)
Definition fits (k : nat) (type : TokenType) : bool :=
  match k with
  | 0%nat => TokenType_eqb type TOKEN_LET
  | 1%nat => TokenType_eqb type TOKEN_IDENTIFIER
  | 2%nat => TokenType_eqb type TOKEN_COLON
  | 3%nat => existsb (TokenType_eqb type) type_tokens
  | 4%nat => TokenType_eqb type TOKEN_EQUAL
  | 5%nat =>
      existsb (TokenType_eqb type)
        [TOKEN_INT; TOKEN_FLOAT; TOKEN_STRING; TOKEN_TRUE; TOKEN_FALSE;
         TOKEN_NULL]
  | _ => TokenType_eqb type TOKEN_SEMICOLON
  end.

Definition expected_message (k : nat) : string :=
  match k with
  | 0%nat => "Expected 'let' keyword."
  | 1%nat => "Expected variable name."
  | 2%nat => "Expected ':' after variable name."
  | 3%nat => "Expected type (int, float, bool, string, or null)."
  | 4%nat => "Expected '=' after type."
  | 5%nat => "Expected literal value."
  | _ => "Expected ';' after variable declaration."
  end.

(** The length a token records for its text: all its bytes, but for a
    string literal, whose token ends before the closing quote. *)
Definition token_span (type : TokenType) (txt : list ascii) : Z :=
  match type with
  | TOKEN_STRING => Z.of_nat (List.length txt) - 1
  | _ => Z.of_nat (List.length txt)
  end.

(** The bytes that make a word or a number longer. *)
Definition continues (c : ascii) : bool := word_char c || Ascii.eqb c ".".

(** The positions that come after a word or a number, which the next
    token must not run into. *)
Definition needs_gap (k : nat) : bool :=
  match k with
  | 1%nat | 2%nat | 4%nat | 6%nat => true
  | _ => false
  end.

(** The first [k] tokens of a declaration with the blanks in front of
    each. *)
Definition declaration_prefix (k : nat) (gap : nat -> list ascii)
    (name type literal : list ascii) : list ascii :=
  List.concat
    (firstn k
       [ gap 0%nat ++ text "let"; gap 1%nat ++ name; gap 2%nat ++ text ":";
         gap 3%nat ++ type; gap 4%nat ++ text "="; gap 5%nat ++ literal;
         gap 6%nat ++ text ";" ])%list.

(** [n] calls of the parser's [advance]. *)
Fixpoint advance_n (n : nat) (p : Parser) (g : KasdState)
    : Res (Parser * KasdState) :=
  match n with
  | O => Ok (p, g)
  | S n' => '(p1, g1) <- Parse.advance p g ;; advance_n n' p1 g1
  end.

(** Tokens as they are written: the blanks in front, the text, and the
    type and payload the text has. *)
Definition Spelled : Type :=
  (list ascii * list ascii * TokenType * TokenValue)%type.

Fixpoint laid_out (toks : list Spelled) : list ascii :=
  match toks with
  | [] => []
  | (ws, txt, _, _) :: rest => (ws ++ txt ++ laid_out rest)%list
  end.

(** Every token of [toks] is spelled by its text, given what follows
    it, [final] coming after the last. *)
Fixpoint well_spelled (toks : list Spelled) (final : list ascii) : Prop :=
  match toks with
  | [] => True
  | (ws, txt, type, value) :: rest =>
      forallb blank ws = true /\
      spells (laid_out rest ++ final) txt type value /\
      well_spelled rest final
  end.

Definition spelled_type (tok : Spelled) : TokenType := snd (fst tok).

(** ** The lines of a REPL session *)

(** The buffers a REPL session runs: the input is cut by [fgets] into
    lines of at most 1023 bytes that end with a newline when one comes
    in time, up to the end of the input or the first line that is
    "exit"; each line is stored in the array, over the start of what the
    array held, and the array is what is run. *)
Fixpoint repl_sources (fuel : nat) (line stdin : list ascii)
    : list (list ascii) :=
  match fuel with
  | O => []
  | S fuel' =>
      match fgets line MAX_LINE_LENGTH stdin with
      | None => []
      | Some (line, stdin') =>
          if strcmp_is_0 line exit_line then []
          else line_buffer line :: repl_sources fuel' line stdin'
      end
  end.

(** A session of two lines, the second one shorter, without a newline
    at the end of the input and ending in an opening quote. *)
Definition session_of_two_lines : list ascii :=
  (text "let s: string = " ++ QUOTE :: text "abcdef" ++ QUOTE
   :: text ";" ++ "010"%char :: text "let t: string = " ++ [QUOTE])%list.

(** ** Diagnostics as the parser records them *)

(** "Expected end of file." at the token [t] of [source]. *)
Definition expected_end_of_file (log : Z) (source : list ascii) (t : Token)
    : KasdState :=
  mkState log
    (mkError ERROR_SYNTAX (tok_line t) (tok_column t)
       (Some "Expected end of file.") (Some (strdup source)) (start_offset t)
       (tok_length t) true).

(** "Expected 'let' keyword." at the EOF token that ends [source]. *)
Definition expected_let (log : Z) (source : list ascii) (line column : Z)
    : KasdState :=
  mkState log
    (mkError ERROR_SYNTAX line column (Some "Expected 'let' keyword.")
       (Some (strdup source)) (Z.of_nat (List.length source)) 0 true).

(** ** Concrete sources and states *)

Definition syntax_error_at_3_7 : KasdState :=
  set_error ERROR_SYNTAX 3 7 "Unterminated string." None 0 0
    (init_kasd_state 1).

Definition env_x_s : Environment := [("x", VInt 1); ("s", VString "old")].

Definition decl_x_int_42 : AstNode :=
  NODE_VARIABLE_DECLARATION 1 5 "x" VALUE_INT (NODE_LITERAL 1 14 (VInt 42)).

(** A newline, then [let]. *)
Definition newline_let : list ascii := "010"%char :: text "let".

(** A complete declaration, then a string that is never closed. *)
Definition decl_then_open_string : list ascii :=
  (text "let x: int = 1; " ++ QUOTE :: text "abc")%list.

(** A string that is never closed, and nothing else. *)
Definition open_string_abc : list ascii := QUOTE :: text "abc".

Definition three_blanks : list ascii := [" "; "010"; "009"]%char.

Definition two_semicolons : list ascii := text "let x: int = 1;;".

(** A declaration and then an empty string literal. *)
Definition decl_then_empty_string : list ascii :=
  (text "let x: int = 1;" ++ [QUOTE; QUOTE])%list.

(** [let] and then a string literal where the name is expected. *)
Definition let_then_string : list ascii :=
  (text "let " ++ QUOTE :: text "abc" ++ [QUOTE])%list.

(** The parser on [two_semicolons] after [init_parser], and after the
    declaration. *)
Definition parser_at_let : Parser :=
  mkParser (mkLexer two_semicolons 3 0 1 4 false)
    (mkToken TOKEN_LET (InSource 0) 3 1 1 NoValue)
    uninitialised_token false false.

Definition parser_at_second_semicolon : Parser :=
  mkParser (mkLexer two_semicolons 16 15 1 17 false)
    (mkToken TOKEN_SEMICOLON (InSource 15) 1 1 16 NoValue)
    (mkToken TOKEN_SEMICOLON (InSource 14) 1 1 15 NoValue)
    false false.

Definition bool_gets_42 : list ascii := text "let b: bool = 42;".

(** The parser on [bool_gets_42] after the declaration. *)
Definition parser_after_bool_gets_42 : Parser :=
  mkParser (mkLexer bool_gets_42 17 17 1 18 false)
    (mkToken TOKEN_EOF (InSource 17) 0 1 18 NoValue)
    (mkToken TOKEN_SEMICOLON (InSource 16) 1 1 17 NoValue)
    false false.

(** * Properties *)

(** ** The diagnostic slot (common.c) *)

Section DiagnosticSlot.

Variable g : KasdState.
Hypothesis Hpending : pending g = true.

Lemma set_error_pending_noop t l c m sl p n :
  set_error t l c m sl p n g = g.
Proof.
  unfold set_error. unfold pending in Hpending. now rewrite Hpending.
Qed.

Lemma print_error_keeps_slot : fst (print_error g) = g.
Proof.
  unfold print_error.
  destruct (negb (has_error (error g))); [reflexivity|].
  destruct (err_source_line (error g)); [|reflexivity].
  destruct (0 <=? err_source_pos (error g)); reflexivity.
Qed.

Lemma only_clear_unpends op :
  pending (run_op op g) = false -> op = OpClear.
Proof.
  destruct op; simpl; intros H; [| |reflexivity].
  - rewrite set_error_pending_noop in H. congruence.
  - rewrite print_error_keeps_slot in H. congruence.
Qed.

End DiagnosticSlot.

Lemma set_error_records t l c m sl p n g :
  pending g = false ->
  error (set_error t l c m sl p n g)
  = mkError t l c (Some m) (option_map strdup sl) p n true.
Proof.
  unfold set_error, pending. intros ->. reflexivity.
Qed.

Lemma set_error_pends t l c m sl p n g :
  pending (set_error t l c m sl p n g) = true.
Proof.
  unfold set_error, pending.
  destruct (has_error (error g)) eqn:E; [exact E|reflexivity].
Qed.

Lemma run_ops_without_clear ops :
  forall g, pending g = true -> ~ In OpClear ops -> run_ops ops g = g.
Proof.
  induction ops as [|op ops IH]; intros g Hp Hno; [reflexivity|].
  unfold run_ops. simpl. fold (run_ops ops (run_op op g)).
  assert (Hop : run_op op g = g).
  { destruct op; simpl.
    - now apply set_error_pending_noop.
    - now apply print_error_keeps_slot.
    - exfalso. apply Hno. now left. }
  rewrite Hop. apply IH; [exact Hp|].
  intros Hin. apply Hno. now right.
Qed.

(** C3. While a diagnostic is pending, [set_error] with any arguments
    returns the state it was given, and so does any run of [set_error]
    and [print_error] calls; [clear_error] leaves nothing pending and is
    the only operation that does; and of two errors raised one after the
    other on an empty slot, the slot describes the first. *)
Theorem diagnostic_first_error_wins (g : KasdState) :
  pending g = true ->
  (forall t l c m sl p n, set_error t l c m sl p n g = g) /\
  (forall ops, ~ In OpClear ops -> run_ops ops g = g) /\
  pending (clear_error g) = false /\
  (forall op, pending (run_op op g) = false -> op = OpClear) /\
  (forall g0 t1 l1 c1 m1 sl1 p1 n1 t2 l2 c2 m2 sl2 p2 n2,
      pending g0 = false ->
      g = set_error t1 l1 c1 m1 sl1 p1 n1 g0 ->
      error (set_error t2 l2 c2 m2 sl2 p2 n2 g)
      = mkError t1 l1 c1 (Some m1) (option_map strdup sl1) p1 n1 true).
Proof.
  intros Hp. repeat split.
  - intros. now apply set_error_pending_noop.
  - intros ops Hno. now apply run_ops_without_clear.
  - intros op. now apply only_clear_unpends.
  - intros g0 t1 l1 c1 m1 sl1 p1 n1 t2 l2 c2 m2 sl2 p2 n2 H0 ->.
    rewrite set_error_pending_noop by apply set_error_pends.
    now apply set_error_records.
Qed.

Lemma diagnostic_first_error_wins_witness :
  pending syntax_error_at_3_7 = true /\
  set_error ERROR_TYPE 9 9 "later" None 0 0 syntax_error_at_3_7
  = syntax_error_at_3_7.
Proof.
  split; [reflexivity|].
  apply (diagnostic_first_error_wins syntax_error_at_3_7). reflexivity.
Defined.

(** ** The environment (interpreter.c) *)

Lemma env_overwrite_none e name value :
  env_overwrite e name value = None <-> ~ In name (map fst e).
Proof.
  induction e as [|[n old] e IH]; simpl.
  - split; [intros _ []|reflexivity].
  - destruct (String.eqb n name) eqn:E.
    + apply String.eqb_eq in E. split; [discriminate|].
      intros H. exfalso. apply H. now left.
    + apply String.eqb_neq in E.
      destruct (env_overwrite e name value) as [[e' freed]|].
      * split; [discriminate|]. intros H. exfalso.
        assert (Hn : ~ In name (map fst e)) by (intros Hin; apply H; now right).
        apply IH in Hn. discriminate.
      * split; [|reflexivity]. intros _ [H|H]; [now apply E|].
        now apply (proj1 IH).
Qed.

(** A successful overwrite replaces the value of the first entry called
    [name], where it stands, and releases what that entry held: the
    payload of a string, nothing for a value of another type. *)
Lemma env_overwrite_some e name value e' freed :
  env_overwrite e name value = Some (e', freed) ->
  exists before old after,
    e = (before ++ (name, old) :: after)%list /\
    e' = (before ++ (name, value) :: after)%list /\
    ~ In name (map fst before) /\
    freed = match old with VString payload => [payload] | _ => [] end.
Proof.
  revert e' freed.
  induction e as [|[n old] e IH]; simpl; intros e' freed H; [discriminate|].
  destruct (String.eqb n name) eqn:E.
  - apply String.eqb_eq in E. subst n. inversion H; subst.
    exists [], old, e. repeat split. intros [].
  - apply String.eqb_neq in E.
    destruct (env_overwrite e name value) as [[e1 f1]|] eqn:R; [|discriminate].
    inversion H; subst.
    destruct (IH e1 freed eq_refl) as (b & o & a & -> & -> & Hb & ->).
    exists ((n, old) :: b), o, a. repeat split.
    intros [Hn|Hn]; [now apply E|now apply Hb].
Qed.

Lemma env_define_keeps_names_unique e name value :
  NoDup (map fst e) -> NoDup (map fst (fst (env_define e name value))).
Proof.
  intros Hnd. unfold env_define.
  destruct (env_overwrite e name value) as [[e1 f1]|] eqn:R; simpl.
  - destruct (env_overwrite_some _ _ _ _ _ R) as (b & o & a & He & He1 & _).
    subst e e1. rewrite map_app in *. exact Hnd.
  - apply env_overwrite_none in R. now constructor.
Qed.

(** C8. [env_define] is a total function. On an environment with no
    repeated name: when [name] is bound, the entry's value is replaced
    where the entry stands, every other entry is untouched, and what is
    released is the payload of the value the entry held when that value
    is a string, and nothing when it is of another type; when [name] is
    not bound, one entry is put in front and nothing is released;
    either way no name is repeated afterwards. *)
Theorem env_define_rebinds_in_place (e : Environment) (name : string)
    (value : Value) :
  NoDup (map fst e) ->
  let e' := fst (env_define e name value) in
  let freed := snd (env_define e name value) in
  NoDup (map fst e') /\
  In (name, value) e' /\
  (In name (map fst e) ->
     exists before old after,
       e = (before ++ (name, old) :: after)%list /\
       e' = (before ++ (name, value) :: after)%list /\
       freed = match old with VString payload => [payload] | _ => [] end /\
       List.length e' = List.length e) /\
  (~ In name (map fst e) -> e' = (name, value) :: e /\ freed = []).
Proof.
  intros Hnd. cbv zeta.
  split; [now apply env_define_keeps_names_unique|].
  unfold env_define.
  destruct (env_overwrite e name value) as [[e1 f1]|] eqn:R; simpl.
  - destruct (env_overwrite_some _ _ _ _ _ R)
      as (b & o & a & He & He1 & Hb & Hf).
    split; [|split].
    + subst e1. apply in_or_app. right. now left.
    + intros _. exists b, o, a.
      split; [exact He|]. split; [exact He1|]. split; [exact Hf|].
      subst e e1. rewrite !length_app. reflexivity.
    + intros Hno. apply (proj2 (env_overwrite_none e name value)) in Hno.
      congruence.
  - apply env_overwrite_none in R.
    split; [now left|]. split.
    + intros Hin. contradiction.
    + intros _. split; reflexivity.
Qed.

Lemma env_define_rebinds_in_place_witness :
  NoDup (map fst env_x_s) /\
  In ("s", VBool true) (fst (env_define env_x_s "s" (VBool true))) /\
  exists before old after,
    env_x_s = (before ++ ("s", old) :: after)%list /\
    fst (env_define env_x_s "s" (VBool true))
    = (before ++ ("s", VBool true) :: after)%list /\
    snd (env_define env_x_s "s" (VBool true))
    = match old with VString payload => [payload] | _ => [] end /\
    List.length (fst (env_define env_x_s "s" (VBool true)))
    = List.length env_x_s.
Proof.
  assert (Hnd : NoDup (map fst env_x_s)).
  { simpl. repeat constructor; simpl; intuition discriminate. }
  split; [exact Hnd|]. split.
  - exact (proj1 (proj2 (env_define_rebinds_in_place env_x_s "s" (VBool true)
                           Hnd))).
  - apply (proj1 (proj2 (proj2 (env_define_rebinds_in_place env_x_s "s"
                                  (VBool true) Hnd)))).
    simpl. right. now left.
Defined.

(** X9. Every environment reached from the empty one by any sequence
    of [env_define] calls binds each name once. *)
Theorem env_define_all_no_repeats (defs : list (string * Value)) :
  NoDup (map fst (env_define_all defs [])).
Proof.
  assert (H : forall e, NoDup (map fst e) ->
                        NoDup (map fst (env_define_all defs e))).
  { induction defs as [|[n v] defs IH]; intros e He; [exact He|].
    simpl. apply IH.
    now apply env_define_keeps_names_unique. }
  apply H. constructor.
Qed.

(** ** Whole runs on concrete sources (main.c) *)

(** C4. [let x: int = 42;] run non-interactively: [parse] returns the one
    declaration node x : int = Literal 42, analysis passes, [interpret]
    is called and returns Int 42 with the environment holding exactly
    x -> Int 42, nothing is echoed or reported, and the diagnostic slot
    is the one the run was given. *)
Theorem run_let_x_int_42 (g : KasdState) :
  run_source (text "let x: int = 42;") false g
  = Ok (mkRun true (Some decl_x_int_42) ReportNothing
          (Some (VInt 42, mkInterpreter [("x", VInt 42)] false false, []))
          g).
Proof. vm_compute. reflexivity. Qed.

Lemma evaluate_declaration_of_literal i line column name var_type l c v :
  evaluate_variable_declaration i line column name var_type
    (NODE_LITERAL l c v)
  = (v,
     mkInterpreter (fst (env_define (env i) name v)) (int_had_error i)
       (repl_mode i),
     if repl_mode i then [mkEcho name (value_type_to_string var_type) v]
     else []).
Proof.
  unfold evaluate_variable_declaration. simpl.
  destruct (env_define (env i) name v) as [e freed]. reflexivity.
Qed.

Lemma env_define_binds e name value :
  In (name, value) (fst (env_define e name value)).
Proof.
  unfold env_define.
  destruct (env_overwrite e name value) as [[e1 f1]|] eqn:R; simpl.
  - destruct (env_overwrite_some _ _ _ _ _ R) as (b & o & a & _ & -> & _).
    apply in_or_app. right. now left.
  - now left.
Qed.

(** C5. [let y: bool = null;] passes analysis and binds y to the Null
    value; a null literal is compatible with every declared type. In
    general a declaration of any type with a literal initializer returns
    the literal's value as it is and binds the name to it: the declared
    type takes no part in what is stored, it only names the type in the
    REPL echo. *)
Theorem null_initializer_stays_null :
  (forall var_type, check_types_compatible var_type VALUE_NULL = true) /\
  (forall g,
      run_source (text "let y: bool = null;") false g
      = Ok (mkRun true
              (Some (NODE_VARIABLE_DECLARATION 1 5 "y" VALUE_BOOL
                       (NODE_LITERAL 1 15 VNull)))
              ReportNothing
              (Some (VNull, mkInterpreter [("y", VNull)] false false, []))
              g)) /\
  (forall i line column name var_type l c v,
      let '(result, i', _) :=
        evaluate_variable_declaration i line column name var_type
          (NODE_LITERAL l c v) in
      result = v /\ In (name, v) (env i') /\
      env i' = fst (env_define (env i) name v)).
Proof.
  split; [|split].
  - now intros [].
  - intros g. vm_compute. reflexivity.
  - intros. rewrite evaluate_declaration_of_literal. simpl.
    split; [reflexivity|]. split; [apply env_define_binds|reflexivity].
Qed.

(** ** Where the code departs from its specification *)

(** C1. [check_types_compatible] indexes its table as
    [expected][actual], which reads the widening entry the wrong way
    round: an int literal is refused for a float variable, with a Type
    diagnostic and no interpretation, while a float literal is taken for
    an int variable and bound as it is. *)
Theorem int_literal_refused_for_float (log : Z) :
  check_types_compatible VALUE_FLOAT VALUE_INT = false /\
  check_types_compatible VALUE_INT VALUE_FLOAT = true /\
  run_source (text "let x: float = 1;") false (init_kasd_state log)
  = Ok (mkRun false
          (Some (NODE_VARIABLE_DECLARATION 1 5 "x" VALUE_FLOAT
                   (NODE_LITERAL 1 16 (VInt 1))))
          (ReportHeader ERROR_TYPE 1 16
             (Some "Type mismatch: cannot assign int to variable of type float"))
          None
          (mkState log
             (mkError ERROR_TYPE 1 16
                (Some "Type mismatch: cannot assign int to variable of type float")
                None 0 0 true))) /\
  run_source (text "let x: int = 1.5;") false (init_kasd_state log)
  = Ok (mkRun true
          (Some (NODE_VARIABLE_DECLARATION 1 5 "x" VALUE_INT
                   (NODE_LITERAL 1 14
                      (VFloat (nearest_double (mkDecimal 15 (-1)))))))
          ReportNothing
          (Some (VFloat (nearest_double (mkDecimal 15 (-1))),
                 mkInterpreter
                   [("x", VFloat (nearest_double (mkDecimal 15 (-1))))]
                   false false,
                 []))
          (init_kasd_state log)).
Proof. repeat split; vm_compute; reflexivity. Qed.

(** C2. A newline taken by [skip_whitespace] sets the column to 1 and
    the [advance] that consumes it adds 1: the [let] that starts line 2
    is reported at column 2, where the same word at the start of line 1
    is reported at column 1. *)
Theorem first_token_of_second_line_at_column_2 (g : KasdState) :
  scan_token (init_lexer newline_let) g
  = Ok (mkToken TOKEN_LET (InSource 1) 3 2 2 NoValue,
        mkLexer newline_let 4 1 2 5 false, g) /\
  scan_token (init_lexer (text "let")) g
  = Ok (mkToken TOKEN_LET (InSource 0) 3 1 1 NoValue,
        mkLexer (text "let") 3 0 1 4 false, g) /\
  skip_whitespace (init_lexer newline_let)
  = Ok (mkLexer newline_let 1 0 2 2 false).
Proof. repeat split; vm_compute; reflexivity. Qed.

(** C6. An unterminated string after a complete declaration: the lexer
    records the Syntax diagnostic "Unterminated string." spanning the
    opening quote (offset 16) to the end of input, and hands the parser
    a token of type EOF; [parse] takes it for the end of file, leaves
    [had_error] unset, and [run_source] goes on to analyse and interpret
    the declaration and returns [true] with the diagnostic still
    pending and never printed. *)
Theorem open_string_after_declaration_is_interpreted (log : Z) :
  run_source decl_then_open_string false (init_kasd_state log)
  = Ok (mkRun true
          (Some (NODE_VARIABLE_DECLARATION 1 5 "x" VALUE_INT
                   (NODE_LITERAL 1 14 (VInt 1))))
          ReportNothing
          (Some (VInt 1, mkInterpreter [("x", VInt 1)] false false, []))
          (mkState log
             (mkError ERROR_SYNTAX 1 21 (Some "Unterminated string.")
                (Some decl_then_open_string) 16 4 true))).
Proof. vm_compute. reflexivity. Qed.

(** C7. The token after a declaration decides: a second semicolon is
    refused by the end-of-file check of [parse] with the Syntax
    diagnostic "Expected end of file." at that semicolon, and the
    declaration is not interpreted; an empty string literal, two
    double quotes that end the source, is not. [scan_token] takes the
    first quote and [string] steps over the second before it looks for
    the closing quote, finds the end of the source and hands back an
    error token, of type EOF: [parse] takes it for the end of file,
    [run_source] interprets the declaration and returns [true], and
    "Expected end of file." is never raised; what is left pending,
    and not printed, is "Unterminated string.". *)
Theorem empty_string_after_declaration_is_interpreted (log : Z) :
  run_source two_semicolons false (init_kasd_state log)
  = Ok (mkRun false
          (Some (NODE_VARIABLE_DECLARATION 1 5 "x" VALUE_INT
                   (NODE_LITERAL 1 14 (VInt 1))))
          (ReportCaret ERROR_SYNTAX 1 16 (Some "Expected end of file.")
             two_semicolons 15 1)
          None
          (mkState log
             (mkError ERROR_SYNTAX 1 16 (Some "Expected end of file.")
                (Some two_semicolons) 15 1 true))) /\
  run_source decl_then_empty_string false (init_kasd_state log)
  = Ok (mkRun true
          (Some (NODE_VARIABLE_DECLARATION 1 5 "x" VALUE_INT
                   (NODE_LITERAL 1 14 (VInt 1))))
          ReportNothing
          (Some (VInt 1, mkInterpreter [("x", VInt 1)] false false, []))
          (mkState log
             (mkError ERROR_SYNTAX 1 18 (Some "Unterminated string.")
                (Some decl_then_empty_string) 15 2 true))).
Proof. split; vm_compute; reflexivity. Qed.

(** C9. On the source that is a single double quote, [scan_token] takes
    the quote, [string] takes one more byte, the terminating NUL, and
    the next [peek] reads past the end of the buffer: the call has no
    defined result. The same happens in a whole run whenever a quote is
    the last byte of the source. *)
Theorem scan_token_reads_past_lone_quote (g : KasdState) :
  scan_token (init_lexer [QUOTE]) g = OutOfBounds /\
  run_source (text "let s: string = " ++ [QUOTE])%list false g = OutOfBounds.
Proof. split; vm_compute; reflexivity. Qed.

(** ** The lexer's loops (lexer.c) *)

Lemma fuel_of_eq l :
  fuel_of l = S (List.length (lex_source l) - lex_current l).
Proof. reflexivity. Qed.

Opaque fuel_of.
Arguments error_token : simpl never.

Lemma Ok_inj {A : Type} (a b : A) : Ok a = Ok b -> a = b.
Proof. now intros [= ->]. Qed.

Lemma read_not_nul source i c :
  read source i = Ok c -> c <> NUL -> (i < List.length source)%nat.
Proof.
  unfold read. destruct (Nat.ltb_spec i (List.length source)); [lia|].
  destruct (Nat.eqb_spec i (List.length source)); [|discriminate].
  intros [= <-] Hc. now elim Hc.
Qed.

Lemma extends_refl l : extends l l.
Proof. unfold extends. auto. Qed.

Lemma extends_trans l1 l2 l3 : extends l1 l2 -> extends l2 l3 -> extends l1 l3.
Proof.
  unfold extends. intros (A & B & C & D) (A' & B' & C' & D').
  repeat split; try congruence. lia.
Qed.

Lemma advance_spec l c l' :
  Lex.advance l = Ok (c, l') ->
  read (lex_source l) (lex_current l) = Ok c /\
  l' = mkLexer (lex_source l) (S (lex_current l)) (lex_start l) (lex_line l)
         (lex_column l + 1) (lex_had_error l).
Proof.
  unfold Lex.advance.
  destruct (read (lex_source l) (lex_current l)); simpl; try discriminate.
  intros [= <- <-]. auto.
Qed.

Lemma advance_extends l c l' :
  Lex.advance l = Ok (c, l') ->
  extends l l' /\ lex_current l' = S (lex_current l).
Proof.
  intros H. apply advance_spec in H. destruct H as [_ ->].
  unfold extends. simpl. auto.
Qed.

Lemma new_line_extends l : extends l (new_line l).
Proof. unfold extends. simpl. auto. Qed.

Lemma advance_defined l c :
  read (lex_source l) (lex_current l) = Ok c -> exists l', Lex.advance l = Ok (c, l').
Proof. unfold Lex.advance. intros ->. simpl. eauto. Qed.

(** Destructs the first effectful step of a hypothesis that is a chain
    of [bind]s, naming its result and the equation that gives it. *)
Ltac step_in H x E :=
  match type of H with
  | context [bind ?m _] =>
      destruct m as [x| |] eqn:E; simpl in H; try discriminate
  end.

Lemma skip_whitespace_loop_extends fuel :
  forall l l', skip_whitespace_loop fuel l = Ok l' -> extends l l'.
Proof.
  induction fuel as [|fuel IH]; intros l l' H; simpl in H; [discriminate|].
  step_in H a Ea.
  destruct (char_classes a);
    try (injection H as <-; apply extends_refl).
  - step_in H r Er. destruct r as [c l1]. apply advance_extends in Er.
    eapply extends_trans; [apply Er|]. apply IH. exact H.
  - step_in H r Er. destruct r as [c l1]. apply advance_extends in Er.
    eapply extends_trans; [apply new_line_extends|].
    eapply extends_trans; [apply Er|]. apply IH. exact H.
Qed.

Lemma identifier_loop_extends fuel :
  forall l l', identifier_loop fuel l = Ok l' -> extends l l'.
Proof.
  induction fuel as [|fuel IH]; intros l l' H; simpl in H; [discriminate|].
  step_in H a Ea.
  destruct (is_class CHAR_ALPHA a || is_class CHAR_DIGIT a).
  - step_in H r Er. destruct r as [c l1]. apply advance_extends in Er.
    eapply extends_trans; [apply Er|]. apply IH. exact H.
  - injection H as <-. apply extends_refl.
Qed.

Lemma digits_loop_extends fuel :
  forall l l', digits_loop fuel l = Ok l' -> extends l l'.
Proof.
  induction fuel as [|fuel IH]; intros l l' H; simpl in H; [discriminate|].
  step_in H a Ea.
  destruct (is_class CHAR_DIGIT a).
  - step_in H r Er. destruct r as [c l1]. apply advance_extends in Er.
    eapply extends_trans; [apply Er|]. apply IH. exact H.
  - injection H as <-. apply extends_refl.
Qed.

Lemma string_loop_extends fuel :
  forall l l', string_loop fuel l = Ok l' -> extends l l'.
Proof.
  induction fuel as [|fuel IH]; intros l l' H; simpl in H; [discriminate|].
  step_in H a Ea. step_in H e Ee.
  destruct (negb (Ascii.eqb a QUOTE) && negb e).
  - simpl in H. step_in H r Er. destruct r as [c l1].
    apply advance_extends in Er.
    eapply extends_trans; [|apply IH; exact H].
    eapply extends_trans; [|apply Er].
    destruct (Ascii.eqb a "010"); [apply new_line_extends|apply extends_refl].
  - injection H as <-. apply extends_refl.
Qed.

Lemma check_keyword_from_not_string lx :
  check_keyword_from keywords lx <> TOKEN_STRING.
Proof.
  unfold keywords. simpl.
  repeat match goal with
         | |- context [if ?b then _ else _] => destruct b; try discriminate
         end.
Qed.

Lemma check_keyword_not_eof l : check_keyword l <> TOKEN_EOF.
Proof.
  unfold check_keyword, keywords. simpl.
  repeat match goal with
         | |- context [if ?b then _ else _] => destruct b; try discriminate
         end.
Qed.

Lemma identifier_spec l t l' :
  identifier l = Ok (t, l') -> extends l l' /\ tok_type t <> TOKEN_EOF.
Proof.
  unfold identifier. intros H. step_in H l1 E1. injection H as <- <-.
  split; [now apply identifier_loop_extends in E1|].
  simpl. apply check_keyword_not_eof.
Qed.

Lemma number_spec l t l' :
  number l = Ok (t, l') -> extends l l' /\ tok_type t <> TOKEN_EOF.
Proof.
  unfold number. intros H. step_in H l1 E1. step_in H c Ec.
  apply digits_loop_extends in E1.
  step_in H r Er. destruct r as [type l2].
  assert (Hr : extends l1 l2 /\ (type = TOKEN_INT \/ type = TOKEN_FLOAT)).
  { destruct (Ascii.eqb c ".").
    - step_in Er n En. destruct (is_class CHAR_DIGIT n).
      + step_in Er r Ea. destruct r as [c' l3]. step_in Er l4 E4.
        injection Er as <- <-. apply advance_extends in Ea.
        apply digits_loop_extends in E4. split; [|now right].
        eapply extends_trans; [apply Ea|exact E4].
      + injection Er as <- <-. split; [apply extends_refl|now left].
    - injection Er as <- <-. split; [apply extends_refl|now left]. }
  destruct Hr as [Hext [-> | ->]]; injection H as <- <-;
    (split; [eapply extends_trans; eassumption|simpl; discriminate]).
Qed.

Lemma error_token_spec l message g t l' g' :
  error_token l message g = (t, l', g') ->
  tok_type t = TOKEN_EOF /\ pending g' = true /\
  lex_source l' = lex_source l /\ lex_current l' = lex_current l /\
  lex_had_error l' = true /\
  (pending g = false ->
   error g' = mkError ERROR_SYNTAX (lex_line l) (lex_column l) (Some message)
                (Some (strdup (lex_source l))) (Z.of_nat (lex_start l))
                (ptr_diff (lex_current l) (lex_start l)) true).
Proof.
  unfold error_token. intros [= <- <- <-]. simpl.
  repeat split; try apply set_error_pends.
  intros Hp. rewrite set_error_records by exact Hp.
  unfold ptr_diff. simpl. now rewrite Z.sub_0_r.
Qed.

(** [string], entered with the opening quote just taken: it either
    makes a STRING token and leaves the slot alone, or reaches the end
    of input and hands back an error token, the diagnostic pending. *)
Lemma string_spec l g t l' g' :
  string_ l g = Ok (t, l', g') ->
  lex_source l' = lex_source l /\
  (lex_current l < lex_current l')%nat /\
  ((tok_type t = TOKEN_STRING /\ g' = g /\
    lex_had_error l' = lex_had_error l) \/
   (tok_type t = TOKEN_EOF /\ pending g' = true /\ Lex.is_at_end l' = Ok true)).
Proof.
  unfold string_. intros H. step_in H r Er. destruct r as [c l1].
  apply advance_extends in Er. destruct Er as [(S1 & C1 & T1 & H1) N1].
  step_in H l2 E2. apply string_loop_extends in E2.
  destruct E2 as (S2 & C2 & T2 & H2).
  step_in H e Ee. destruct e.
  - apply Ok_inj in H. pose proof (error_token_spec _ _ _ _ _ _ H)
      as (Ht & Hp & Hs & Hc & _).
    split; [congruence|]. split; [lia|]. right.
    split; [exact Ht|]. split; [exact Hp|].
    unfold Lex.is_at_end, peek in *. now rewrite Hs, Hc.
  - step_in H r Er. destruct r as [c3 l3]. injection H as <- <- <-.
    apply advance_extends in Er. destruct Er as [(S3 & C3 & T3 & H3) N3].
    split; [congruence|]. split; [lia|]. left.
    split; [reflexivity|]. split; [reflexivity|congruence].
Qed.

Lemma mark_start_fields l :
  lex_source (mark_start l) = lex_source l /\
  lex_current (mark_start l) = lex_current l /\
  lex_had_error (mark_start l) = lex_had_error l.
Proof. unfold mark_start. simpl. auto. Qed.

(** One call of [scan_token] that has a defined result: the source is
    kept; the call took at least one byte unless it made the EOF token
    at the end of input; and the diagnostic slot and the lexer's error
    flag are as before unless the token handed back has type EOF. *)
Lemma scan_token_spec l g t l' g' :
  scan_token l g = Ok (t, l', g') ->
  lex_source l' = lex_source l /\
  ((lex_current l < lex_current l')%nat \/
   (tok_type t = TOKEN_EOF /\ Lex.is_at_end l' = Ok true /\ g' = g)) /\
  (tok_type t <> TOKEN_EOF -> g' = g /\ lex_had_error l' = lex_had_error l) /\
  (g' = g \/ pending g' = true).
Proof.
  unfold scan_token. intros H. step_in H l1 E1.
  apply skip_whitespace_loop_extends in E1. destruct E1 as (S1 & C1 & _ & H1).
  destruct (mark_start_fields l1) as (S2 & C2 & H2).
  step_in H e Ee. destruct e.
  - injection H as <- <- <-. split; [congruence|]. split.
    + right. simpl. auto.
    + split; [simpl; congruence|now left].
  - step_in H r Er. destruct r as [c l3].
    apply advance_extends in Er. destruct Er as [(S3 & C3 & T3 & H3) N3].
    assert (Hlt : (lex_current l < lex_current l3)%nat) by lia.
    assert (Hsrc : lex_source l3 = lex_source l) by congruence.
    assert (Herr : lex_had_error l3 = lex_had_error l) by congruence.
    assert (Hspecial :
      (if Ascii.eqb c ":" then Ok (make_token l3 TOKEN_COLON, l3, g)
       else if Ascii.eqb c "=" then Ok (make_token l3 TOKEN_EQUAL, l3, g)
       else if Ascii.eqb c ";" then Ok (make_token l3 TOKEN_SEMICOLON, l3, g)
       else Ok (error_token l3 (unexpected_character c) g))
      = Ok (t, l', g') ->
      lex_source l' = lex_source l /\
      ((lex_current l < lex_current l')%nat \/
       (tok_type t = TOKEN_EOF /\ Lex.is_at_end l' = Ok true /\ g' = g)) /\
      (tok_type t <> TOKEN_EOF ->
       g' = g /\ lex_had_error l' = lex_had_error l) /\
      (g' = g \/ pending g' = true)).
    { intros Hs.
      destruct (Ascii.eqb c ":");
        [|destruct (Ascii.eqb c "=");
          [|destruct (Ascii.eqb c ";")]];
        try (injection Hs as <- <- <-;
             split; [exact Hsrc|]; split; [now left|];
             split; [intros _; split; [reflexivity|exact Herr]|now left]).
      apply Ok_inj in Hs.
      pose proof (error_token_spec _ _ _ _ _ _ Hs) as (Ht & Hp & Hs' & Hc & _).
      split; [congruence|]. split; [left; lia|].
      split; [intros Hne; contradiction|now right]. }
    destruct (char_classes c); try (apply Hspecial; exact H).
    + step_in H r Er. destruct r as [t4 l4]. injection H as <- <- <-.
      apply identifier_spec in Er. destruct Er as [(S4 & C4 & _ & H4) Ht].
      split; [congruence|]. split; [left; lia|].
      split; [intros _; split; [reflexivity|congruence]|now left].
    + step_in H r Er. destruct r as [t4 l4]. injection H as <- <- <-.
      apply number_spec in Er. destruct Er as [(S4 & C4 & _ & H4) Ht].
      split; [congruence|]. split; [left; lia|].
      split; [intros _; split; [reflexivity|congruence]|now left].
    + apply string_spec in H.
      destruct H as (S4 & C4 & [(Ht & -> & H4)|(Ht & Hp & He)]).
      * split; [congruence|]. split; [left; lia|].
        split; [intros _; split; [reflexivity|congruence]|now left].
      * split; [congruence|]. split; [left; lia|].
        split; [intros Hne; contradiction|now right].
Qed.

(** ** The parser (parser.c) *)

Lemma TokenType_eqb_eq a b : TokenType_eqb a b = true <-> a = b.
Proof. split; [destruct a, b; simpl; congruence|intros ->; now destruct b]. Qed.

Lemma parser_advance_spec p g p' g' :
  Parse.advance p g = Ok (p', g') ->
  had_error p' = had_error p /\
  lex_source (lexer p') = lex_source (lexer p) /\
  previous p' = current p /\
  (tok_type (current p') <> TOKEN_EOF -> g' = g) /\
  (g' = g \/ pending g' = true).
Proof.
  unfold Parse.advance. intros H. step_in H r Er.
  destruct r as [[t l] g1]. injection H as <- <-. simpl.
  apply scan_token_spec in Er. destruct Er as (Hs & _ & Hg & Hp).
  repeat split; try assumption. intros Hne. now apply Hg.
Qed.

Lemma consume_true p type message g p' g' :
  consume p type message g = Ok (true, p', g') ->
  tok_type (current p) = type /\ Parse.advance p g = Ok (p', g').
Proof.
  unfold consume, check. destruct (TokenType_eqb _ _) eqn:C.
  - apply TokenType_eqb_eq in C. intros H. step_in H r Er.
    destruct r as [p1 g1]. injection H as <- <-. auto.
  - unfold error_at_current. discriminate.
Qed.

Lemma match_first_some types :
  forall p g t p' g',
    match_first types p g = Ok (Some t, p', g') ->
    In t types /\ tok_type (current p) = t /\
    Parse.advance p g = Ok (p', g').
Proof.
  induction types as [|ty types IH]; intros p g t p' g' H; simpl in H;
    [discriminate|].
  unfold match_, check in H. destruct (TokenType_eqb _ _) eqn:C.
  - apply TokenType_eqb_eq in C. simpl in H.
    destruct (Parse.advance p g) as [[p1 g1]| |] eqn:Ea; simpl in H;
      try discriminate.
    injection H as <- <- <-. split; [now left|auto].
  - simpl in H. apply IH in H. destruct H as (Hin & Ht & Ha).
    split; [now right|auto].
Qed.

Lemma parse_literal_some p g node p' g' :
  parse_literal p g = Ok (Some node, p', g') ->
  tok_type (current p) <> TOKEN_EOF /\ Parse.advance p g = Ok (p', g').
Proof.
  unfold parse_literal, error_at_current.
  destruct (tok_type (current p)); try discriminate; intros H;
    (split; [discriminate|]);
    step_in H r Er; destruct r as [p1 g1]; now injection H as _ <- <-.
Qed.

Lemma type_tokens_not_eof t : In t type_tokens -> t <> TOKEN_EOF.
Proof. simpl. intuition (subst; discriminate). Qed.

Opaque type_tokens.

(** A declaration that parses leaves the parser's error flag and the
    source as they were and starts at a [let]; when the token after it
    is not of type EOF, none of the tokens scanned on the way was an
    error token and the diagnostic slot is untouched. *)
Lemma parse_variable_declaration_some p g node p' g' :
  parse_variable_declaration p g = Ok (Some node, p', g') ->
  tok_type (current p) = TOKEN_LET /\
  had_error p' = had_error p /\
  lex_source (lexer p') = lex_source (lexer p) /\
  (tok_type (current p') <> TOKEN_EOF -> g' = g).
Proof.
  unfold parse_variable_declaration, parse_expression. intros H.
  step_in H r E1. destruct r as [[[] pa] ga]; simpl in H; [|discriminate].
  step_in H r E2. destruct r as [[[] pb] gb]; simpl in H; [|discriminate].
  step_in H r E3. destruct r as [[[] pc] gc]; simpl in H; [|discriminate].
  step_in H r E4. destruct r as [[[ty|] pd] gd]; simpl in H;
    [|unfold error_at_current in H; discriminate].
  step_in H r E5. destruct r as [[[] pe] ge]; simpl in H; [|discriminate].
  step_in H r E6. destruct r as [[[init|] pf] gf]; simpl in H; [|discriminate].
  step_in H r E7. destruct r as [[[] ph] gh]; simpl in H; [|discriminate].
  injection H as _ <- <-.
  apply consume_true in E1, E2, E3, E5, E7.
  apply match_first_some in E4. apply parse_literal_some in E6.
  destruct E1 as [T1 A1], E2 as [T2 A2], E3 as [T3 A3], E4 as (I4 & T4 & A4),
    E5 as [T5 A5], E6 as [T6 A6], E7 as [T7 A7].
  apply parser_advance_spec in A1, A2, A3, A4, A5, A6, A7.
  destruct A1 as (H1 & S1 & _ & G1 & _), A2 as (H2 & S2 & _ & G2 & _),
    A3 as (H3 & S3 & _ & G3 & _), A4 as (H4 & S4 & _ & G4 & _),
    A5 as (H5 & S5 & _ & G5 & _), A6 as (H6 & S6 & _ & G6 & _),
    A7 as (H7 & S7 & _ & G7 & _).
  split; [exact T1|]. split; [congruence|]. split; [congruence|].
  intros Hne.
  assert (Ety : tok_type (current pc) <> TOKEN_EOF).
  { rewrite T4. now apply type_tokens_not_eof. }
  rewrite (G7 Hne), (G6 ltac:(congruence)), (G5 ltac:(congruence)),
    (G4 ltac:(congruence)), (G3 Ety), (G2 ltac:(congruence)),
    (G1 ltac:(congruence)).
  reflexivity.
Qed.

Lemma init_parser_spec l g p g' :
  init_parser l g = Ok (p, g') ->
  had_error p = false /\ lex_source (lexer p) = lex_source l /\
  (tok_type (current p) <> TOKEN_EOF -> g' = g).
Proof.
  unfold init_parser. intros H. apply parser_advance_spec in H.
  destruct H as (Hh & Hs & _ & Hg & _). auto.
Qed.

Lemma start_offset_nonneg t : (0 <=? start_offset t) = true.
Proof.
  unfold start_offset, ptr_diff. destruct (tok_start t); apply Z.leb_le; lia.
Qed.

(** [run_source] after a parse that set the parser's error flag. *)
Lemma run_source_parse_failed source repl g p0 g0 ast p1 g1 :
  init_parser (init_lexer source) g = Ok (p0, g0) ->
  parse p0 g0 = Ok (ast, p1, g1) ->
  had_error p1 = true ->
  run_source source repl g
  = Ok (mkRun false ast (snd (print_error g1)) None g1).
Proof.
  intros Hi Hparse Hh. unfold run_source. rewrite Hi. simpl.
  rewrite Hparse. simpl. rewrite Hh. simpl.
  pose proof (print_error_keeps_slot g1) as Hk.
  destruct (print_error g1) as [g2 report]. simpl in Hk. now subst g2.
Qed.

(** The end-of-file check of [parse]. When nothing is pending, the
    declaration at the head of the source parses (to [node]) and the
    token the parser then looks at is not of type EOF: [parse] hands
    back the node, sets the parser's error flag and records the Syntax
    diagnostic "Expected end of file." at the line, column and lexeme of
    that token; [run_source] prints it and returns [false] without
    calling [interpret]. *)
Lemma parse_stops_at_trailing_token (source : list ascii)
    (repl : bool) (g g0 g1 : KasdState) (p0 p1 : Parser) (node : AstNode) :
  pending g = false ->
  init_parser (init_lexer source) g = Ok (p0, g0) ->
  parse_declaration p0 g0 = Ok (Some node, p1, g1) ->
  tok_type (current p1) <> TOKEN_EOF ->
  let g2 := expected_end_of_file (log_level g) source (current p1) in
  parse p0 g0 = Ok (Some node, Parse.set_had_error p1, g2) /\
  run_source source repl g
  = Ok (mkRun false (Some node)
          (ReportCaret ERROR_SYNTAX (tok_line (current p1))
             (tok_column (current p1)) (Some "Expected end of file.")
             (strdup source) (start_offset (current p1))
             (tok_length (current p1)))
          None g2).
Proof.
  intros Hp Hi Hd Hne g2.
  pose proof (init_parser_spec _ _ _ _ Hi) as (Hh0 & Hs0 & Hg0).
  pose proof (parse_variable_declaration_some _ _ _ _ _ Hd)
    as (Hlet & Hh1 & Hs1 & Hg1).
  assert (Eg0 : g0 = g) by (apply Hg0; congruence).
  assert (Eg1 : g1 = g) by (rewrite (Hg1 Hne); exact Eg0).
  assert (Hparse : parse p0 g0 = Ok (Some node, Parse.set_had_error p1, g2)).
  { unfold parse. rewrite Hd. simpl.
    assert (Hc : check p1 TOKEN_EOF = false).
    { unfold check. destruct (TokenType_eqb _ _) eqn:C; [|reflexivity].
      apply TokenType_eqb_eq in C. contradiction. }
    rewrite Hc, Hh1, Hh0. simpl. unfold error_at_current.
    subst g1. unfold set_error. unfold pending in Hp. rewrite Hp.
    unfold g2, expected_end_of_file. simpl in Hs0. now rewrite Hs1, Hs0. }
  split; [exact Hparse|].
  rewrite (run_source_parse_failed _ _ _ _ _ _ _ _ Hi Hparse eq_refl).
  unfold print_error, g2, expected_end_of_file. simpl.
  now rewrite start_offset_nonneg.
Qed.

(** ** Sources with nothing in them *)

Lemma skipn_cons_nth {A : Type} (d : A) (s : list A) (i : nat) :
  (i < List.length s)%nat -> skipn i s = nth i s d :: skipn (S i) s.
Proof.
  revert i. induction s as [|x s IH]; intros i Hi; simpl in Hi; [lia|].
  destruct i as [|i]; [reflexivity|]. simpl. apply IH. lia.
Qed.

Lemma char_classes_newline c :
  char_classes c = CHAR_NEWLINE -> is_newline c = true.
Proof.
  unfold char_classes, is_newline.
  destruct (Ascii.eqb c NUL); [discriminate|].
  destruct (Ascii.eqb c "010"); [reflexivity|].
  destruct (Ascii.eqb c QUOTE); [discriminate|].
  destruct (isdigit c); [discriminate|].
  destruct (isalpha c || Ascii.eqb c "_"); [discriminate|].
  destruct (isspace c && negb false); discriminate.
Qed.

Lemma char_classes_whitespace c :
  char_classes c = CHAR_WHITESPACE -> is_newline c = false.
Proof.
  unfold char_classes, is_newline.
  destruct (Ascii.eqb c NUL); [discriminate|].
  destruct (Ascii.eqb c "010"); [discriminate|reflexivity].
Qed.

(** On a tail of blanks [skip_whitespace] runs to the end of the source
    and has counted one line for each newline of the tail. *)
Lemma skip_whitespace_loop_blank fuel :
  forall l,
    (lex_current l <= List.length (lex_source l))%nat ->
    (List.length (lex_source l) - lex_current l < fuel)%nat ->
    forallb blank (skipn (lex_current l) (lex_source l)) = true ->
    exists l',
      skip_whitespace_loop fuel l = Ok l' /\
      lex_source l' = lex_source l /\
      lex_current l' = List.length (lex_source l) /\
      lex_had_error l' = lex_had_error l /\
      lex_line l' =
        lex_line l
        + Z.of_nat (List.length
                      (filter is_newline
                         (skipn (lex_current l) (lex_source l)))).
Proof.
  induction fuel as [|fuel IH]; intros l Hle Hfuel Hb; [lia|].
  simpl. unfold peek, read.
  destruct (Nat.ltb_spec (lex_current l) (List.length (lex_source l)))
    as [Hlt|Hge].
  - rewrite (skipn_cons_nth NUL) in Hb |- * by exact Hlt.
    remember (skipn (S (lex_current l)) (lex_source l)) as rest eqn:Hrest_eq.
    simpl in Hb. apply andb_prop in Hb. destruct Hb as [Hc Hrest].
    set (c := nth (lex_current l) (lex_source l) NUL) in *.
    assert (Hadv : forall l0, lex_source l0 = lex_source l ->
                     lex_current l0 = lex_current l ->
                     Lex.advance l0
                     = Ok (c, mkLexer (lex_source l) (S (lex_current l))
                                (lex_start l0) (lex_line l0)
                                (lex_column l0 + 1) (lex_had_error l0))).
    { intros l0 Hs0 Hc0. unfold Lex.advance, read. rewrite Hs0, Hc0.
      apply Nat.ltb_lt in Hlt. rewrite Hlt. reflexivity. }
    simpl. unfold blank in Hc.
    destruct (char_classes c) eqn:K; try discriminate.
    + rewrite (Hadv l eq_refl eq_refl). simpl.
      match goal with
      | |- context [skip_whitespace_loop fuel ?l1] =>
          destruct (IH l1) as (l' & Hl' & Hs & Hcur & Herr & Hline)
      end; cbn [lex_current lex_source]; try lia.
      { rewrite <- Hrest_eq. exact Hrest. }
      exists l'. rewrite Hl'.
      cbn [lex_current lex_source lex_had_error lex_line] in Hs, Hcur, Herr, Hline.
      rewrite <- Hrest_eq in Hline.
      rewrite (char_classes_whitespace c K).
      repeat split; assumption.
    + rewrite (Hadv (new_line l) eq_refl eq_refl). simpl.
      match goal with
      | |- context [skip_whitespace_loop fuel ?l1] =>
          destruct (IH l1) as (l' & Hl' & Hs & Hcur & Herr & Hline)
      end; cbn [lex_current lex_source]; try lia.
      { rewrite <- Hrest_eq. exact Hrest. }
      exists l'. rewrite Hl'.
      cbn [lex_current lex_source lex_had_error lex_line] in Hs, Hcur, Herr, Hline.
      rewrite <- Hrest_eq in Hline.
      rewrite (char_classes_newline c K).
      repeat split; try assumption. rewrite Hline.
      change (List.length (c :: filter is_newline rest))
        with (S (List.length (filter is_newline rest))).
      lia.
  - assert (Heq : lex_current l = List.length (lex_source l)) by lia.
    rewrite Heq, Nat.eqb_refl. simpl.
    exists l. rewrite skipn_all. simpl. repeat split; lia.
Qed.

(** C10. On a source made of whitespace and newlines only, with nothing
    pending: the first token is the EOF token at the end of the source,
    the first [consume] of [parse_variable_declaration] fails, [parse]
    returns no tree with the parser's error flag set and the Syntax
    diagnostic "Expected 'let' keyword." recorded at the end of the
    source, on the line after the last newline, and [run_source]
    returns [false] without analysing or interpreting anything. *)
Theorem blank_source_expects_let (source : list ascii) (repl : bool)
    (g : KasdState) :
  forallb blank source = true ->
  pending g = false ->
  exists p0 column report,
    let line := 1 + Z.of_nat (List.length (filter is_newline source)) in
    let g1 := expected_let (log_level g) source line column in
    init_parser (init_lexer source) g = Ok (p0, g) /\
    tok_type (current p0) = TOKEN_EOF /\
    consume p0 TOKEN_LET "Expected 'let' keyword." g
    = Ok (false, Parse.set_had_error p0, g1) /\
    parse p0 g = Ok (None, Parse.set_had_error p0, g1) /\
    run_source source repl g = Ok (mkRun false None report None g1).
Proof.
  intros Hb Hp.
  destruct (skip_whitespace_loop_blank (fuel_of (init_lexer source))
              (init_lexer source))
    as (l1 & Hl1 & Hs & Hc & He & Hline); simpl; try lia.
  { rewrite fuel_of_eq. simpl. lia. }
  { exact Hb. }
  simpl in Hs, Hc, He, Hline.
  assert (Hscan : scan_token (init_lexer source) g
                  = Ok (make_token (mark_start l1) TOKEN_EOF, mark_start l1, g)).
  { unfold scan_token, skip_whitespace. rewrite Hl1. simpl.
    unfold Lex.is_at_end, peek, read. simpl. rewrite Hs, Hc.
    rewrite Nat.ltb_irrefl, Nat.eqb_refl. reflexivity. }
  set (p0 := mkParser (mark_start l1) (make_token (mark_start l1) TOKEN_EOF)
               uninitialised_token false false).
  assert (Hinit : init_parser (init_lexer source) g = Ok (p0, g)).
  { unfold init_parser, Parse.advance. simpl. rewrite Hscan. reflexivity. }
  set (g1 := expected_let (log_level g) source
               (1 + Z.of_nat (List.length (filter is_newline source)))
               (lex_column l1)).
  assert (Herr : error_at_current p0 "Expected 'let' keyword." g
                 = (Parse.set_had_error p0, g1)).
  { unfold error_at_current, set_error. unfold pending in Hp. rewrite Hp.
    unfold g1, expected_let, p0, start_offset, make_token, ptr_diff. simpl.
    rewrite Hs, Hc, Hline. repeat f_equal; lia. }
  assert (Hcons : consume p0 TOKEN_LET "Expected 'let' keyword." g
                  = Ok (false, Parse.set_had_error p0, g1)).
  { unfold consume. rewrite Herr. reflexivity. }
  assert (Hparse : parse p0 g = Ok (None, Parse.set_had_error p0, g1)).
  { unfold parse, parse_declaration, parse_variable_declaration.
    rewrite Hcons. reflexivity. }
  exists p0, (lex_column l1), (snd (print_error g1)).
  cbv zeta. fold g1.
  split; [exact Hinit|]. split; [reflexivity|]. split; [exact Hcons|].
  split; [exact Hparse|].
  exact (run_source_parse_failed _ _ _ _ _ _ _ _ Hinit Hparse eq_refl).
Qed.

Lemma blank_source_expects_let_witness :
  forallb blank three_blanks = true /\
  exists p0 column report,
    parse p0 (init_kasd_state 1)
    = Ok (None, Parse.set_had_error p0,
          expected_let 1 three_blanks 2 column) /\
    run_source three_blanks false (init_kasd_state 1)
    = Ok (mkRun false None report None (expected_let 1 three_blanks 2 column)).
Proof.
  split; [reflexivity|].
  destruct (blank_source_expects_let three_blanks false (init_kasd_state 1)
              eq_refl eq_refl)
    as (p0 & column & report & _ & _ & _ & Hparse & Hrun).
  exists p0, column, report. split; [exact Hparse|exact Hrun].
Defined.

(** ** Which calls of [scan_token] have a result *)

Lemma peek_in_bounds l :
  in_bounds l -> exists c, peek l = Ok c.
Proof.
  unfold in_bounds, peek, read. intros H.
  destruct (Nat.ltb_spec (lex_current l) (List.length (lex_source l)));
    [eauto|].
  replace (lex_current l) with (List.length (lex_source l)) by lia.
  rewrite Nat.eqb_refl. eauto.
Qed.

Lemma peek_not_nul l c :
  peek l = Ok c -> c <> NUL ->
  (lex_current l < List.length (lex_source l))%nat.
Proof. unfold peek. apply read_not_nul. Qed.

Lemma advance_in_bounds l c :
  peek l = Ok c -> c <> NUL ->
  exists l', Lex.advance l = Ok (c, l') /\ in_bounds l' /\
             lex_source l' = lex_source l /\
             lex_current l' = S (lex_current l).
Proof.
  intros Hp Hc. pose proof (peek_not_nul l c Hp Hc) as Hlt.
  unfold peek in Hp. unfold Lex.advance. rewrite Hp. simpl.
  eexists. split; [reflexivity|]. unfold in_bounds. simpl. auto.
Qed.

Lemma is_class_not_nul k c :
  is_class k c = true -> k <> CHAR_EOF -> c <> NUL.
Proof.
  unfold is_class. intros H Hk ->.
  change (char_classes NUL) with CHAR_EOF in H.
  destruct k; try discriminate. now apply Hk.
Qed.

Lemma skip_whitespace_loop_defined fuel :
  forall l,
    in_bounds l ->
    (List.length (lex_source l) - lex_current l < fuel)%nat ->
    exists l', skip_whitespace_loop fuel l = Ok l' /\ in_bounds l'.
Proof.
  induction fuel as [|fuel IH]; intros l Hb Hf; [lia|].
  simpl. destruct (peek_in_bounds l Hb) as [c Hc]. rewrite Hc. simpl.
  destruct (char_classes c) eqn:K; eauto.
  - assert (Hn : c <> NUL) by (intros ->; discriminate).
    destruct (advance_in_bounds l c Hc Hn) as (l1 & Ha & Hb1 & Hs1 & Hc1).
    rewrite Ha. simpl. apply IH; [exact Hb1|]. rewrite Hs1, Hc1.
    pose proof (peek_not_nul l c Hc Hn). lia.
  - assert (Hn : c <> NUL) by (intros ->; discriminate).
    destruct (advance_in_bounds (new_line l) c Hc Hn)
      as (l1 & Ha & Hb1 & Hs1 & Hc1).
    rewrite Ha. simpl. apply IH; [exact Hb1|]. rewrite Hs1, Hc1. simpl.
    pose proof (peek_not_nul l c Hc Hn). lia.
Qed.

Lemma identifier_loop_defined fuel :
  forall l,
    in_bounds l ->
    (List.length (lex_source l) - lex_current l < fuel)%nat ->
    exists l', identifier_loop fuel l = Ok l' /\ in_bounds l'.
Proof.
  induction fuel as [|fuel IH]; intros l Hb Hf; [lia|].
  simpl. destruct (peek_in_bounds l Hb) as [c Hc]. rewrite Hc. simpl.
  destruct (is_class CHAR_ALPHA c || is_class CHAR_DIGIT c) eqn:K; eauto.
  assert (Hn : c <> NUL).
  { apply orb_prop in K. destruct K as [K|K];
      apply (is_class_not_nul _ _ K); discriminate. }
  destruct (advance_in_bounds l c Hc Hn) as (l1 & Ha & Hb1 & Hs1 & Hc1).
  rewrite Ha. simpl. apply IH; [exact Hb1|]. rewrite Hs1, Hc1.
  pose proof (peek_not_nul l c Hc Hn). lia.
Qed.

Lemma digits_loop_defined fuel :
  forall l,
    in_bounds l ->
    (List.length (lex_source l) - lex_current l < fuel)%nat ->
    exists l', digits_loop fuel l = Ok l' /\ in_bounds l'.
Proof.
  induction fuel as [|fuel IH]; intros l Hb Hf; [lia|].
  simpl. destruct (peek_in_bounds l Hb) as [c Hc]. rewrite Hc. simpl.
  destruct (is_class CHAR_DIGIT c) eqn:K; eauto.
  assert (Hn : c <> NUL) by (apply (is_class_not_nul _ _ K); discriminate).
  destruct (advance_in_bounds l c Hc Hn) as (l1 & Ha & Hb1 & Hs1 & Hc1).
  rewrite Ha. simpl. apply IH; [exact Hb1|]. rewrite Hs1, Hc1.
  pose proof (peek_not_nul l c Hc Hn). lia.
Qed.

Lemma string_loop_defined fuel :
  forall l,
    in_bounds l ->
    (List.length (lex_source l) - lex_current l < fuel)%nat ->
    exists l', string_loop fuel l = Ok l' /\ in_bounds l'.
Proof.
  induction fuel as [|fuel IH]; intros l Hb Hf; [lia|].
  simpl. unfold Lex.is_at_end.
  destruct (peek_in_bounds l Hb) as [c Hc]. rewrite Hc. simpl.
  destruct (Ascii.eqb_spec c NUL) as [->|Hn].
  - rewrite andb_false_r. eauto.
  - destruct (negb (Ascii.eqb c QUOTE)); simpl; eauto.
    set (l0 := if Ascii.eqb c "010" then new_line l else l).
    assert (Hp0 : peek l0 = Ok c) by (unfold l0; now destruct (Ascii.eqb c "010")).
    destruct (advance_in_bounds l0 c Hp0 Hn) as (l1 & Ha & Hb1 & Hs1 & Hc1).
    rewrite Ha. simpl. apply IH; [exact Hb1|]. rewrite Hs1, Hc1.
    pose proof (peek_not_nul l c Hc Hn).
    unfold l0. destruct (Ascii.eqb c "010"); simpl; lia.
Qed.

Lemma fuel_enough l :
  (List.length (lex_source l) - lex_current l < fuel_of l)%nat.
Proof. rewrite fuel_of_eq. lia. Qed.

Arguments Lex.advance : simpl never.

Lemma identifier_defined l :
  in_bounds l -> exists t l', identifier l = Ok (t, l') /\ in_bounds l'.
Proof.
  intros Hb. unfold identifier.
  destruct (identifier_loop_defined (fuel_of l) l Hb (fuel_enough l))
    as (l1 & -> & Hb1).
  simpl. eauto.
Qed.

Lemma number_defined l :
  in_bounds l -> exists t l', number l = Ok (t, l') /\ in_bounds l'.
Proof.
  intros Hb. unfold number.
  destruct (digits_loop_defined (fuel_of l) l Hb (fuel_enough l))
    as (l1 & -> & Hb1).
  simpl. destruct (peek_in_bounds l1 Hb1) as [c Hc]. rewrite Hc. simpl.
  destruct (Ascii.eqb_spec c ".") as [->|Hdot]; [|simpl; eauto].
  assert (Hn : "."%char <> NUL) by discriminate.
  unfold peek_next, Lex.is_at_end. rewrite Hc. simpl.
  pose proof (peek_not_nul l1 _ Hc Hn) as Hlt.
  unfold read.
  destruct (Nat.ltb_spec (S (lex_current l1)) (List.length (lex_source l1)))
    as [Hlt'|Hge'].
  - simpl. destruct (is_class CHAR_DIGIT _); [|simpl; eauto].
    destruct (advance_in_bounds l1 _ Hc Hn) as (l2 & -> & Hb2 & _).
    simpl.
    destruct (digits_loop_defined (fuel_of l2) l2 Hb2 (fuel_enough l2))
      as (l3 & -> & Hb3).
    simpl. eauto.
  - replace (S (lex_current l1)) with (List.length (lex_source l1)) by lia.
    rewrite Nat.eqb_refl. simpl. eauto.
Qed.

(** [string] has a result exactly when the opening quote, the byte
    before [current], is not the last byte of the source. *)
Lemma string_defined l g :
  in_bounds l ->
  if (lex_current l <? List.length (lex_source l))%nat
  then exists t l' g', string_ l g = Ok (t, l', g') /\ in_bounds l'
  else string_ l g = OutOfBounds.
Proof.
  intros Hb. unfold string_.
  destruct (peek_in_bounds l Hb) as [c Hc].
  destruct (advance_defined l c Hc) as [l1 Ha].
  pose proof (advance_spec _ _ _ Ha) as [_ Hl1].
  rewrite Ha. simpl.
  destruct (Nat.ltb_spec (lex_current l) (List.length (lex_source l)))
    as [Hlt|Hge].
  - assert (Hb1 : in_bounds l1) by (subst l1; unfold in_bounds; simpl; lia).
    destruct (string_loop_defined (fuel_of l1) l1 Hb1 (fuel_enough l1))
      as (l2 & -> & Hb2).
    simpl. unfold Lex.is_at_end.
    destruct (peek_in_bounds l2 Hb2) as [c2 Hc2]. rewrite Hc2. simpl.
    destruct (Ascii.eqb_spec c2 NUL) as [->|Hn].
    + destruct (error_token l2 "Unterminated string." g) as [[t l3] g3] eqn:Et.
      apply error_token_spec in Et. destruct Et as (_ & _ & Hs & Hcur & _).
      exists t, l3, g3. split; [reflexivity|].
      unfold in_bounds in *. now rewrite Hs, Hcur.
    + destruct (advance_in_bounds l2 c2 Hc2 Hn) as (l3 & -> & Hb3 & _).
      simpl. eauto.
  - unfold in_bounds in Hb.
    assert (Hloop : string_loop (fuel_of l1) l1 = OutOfBounds).
    { assert (Hpk : peek l1 = OutOfBounds).
      { unfold peek, read. subst l1. cbn [lex_source lex_current].
        destruct (Nat.ltb_spec (S (lex_current l))
                    (List.length (lex_source l))); [lia|].
        destruct (Nat.eqb_spec (S (lex_current l))
                    (List.length (lex_source l))); [lia|reflexivity]. }
      rewrite fuel_of_eq. cbn [string_loop]. rewrite Hpk. reflexivity. }
    rewrite Hloop. reflexivity.
Qed.

Lemma char_classes_quote c : char_classes c = CHAR_QUOTE -> c = QUOTE.
Proof.
  unfold char_classes.
  destruct (Ascii.eqb c NUL); [discriminate|].
  destruct (Ascii.eqb c "010"); [discriminate|].
  destruct (Ascii.eqb_spec c QUOTE); [easy|].
  destruct (isdigit c); [discriminate|].
  destruct (isalpha c || Ascii.eqb c "_"); [discriminate|].
  destruct (isspace c && negb false); discriminate.
Qed.

(** X2. From a lexer that stands inside its buffer, [scan_token] skips
    the blanks and then has a result, a token and a lexer that is again
    inside the buffer, in every case but one: when the byte after the
    blanks is a double quote and the last byte of the source, the call
    reads past the terminating NUL. No call runs out of fuel. *)
Theorem scan_token_result (l : Lexer) (g : KasdState) :
  in_bounds l ->
  exists l1,
    skip_whitespace l = Ok l1 /\ in_bounds l1 /\
    if quote_is_last l1 then scan_token l g = OutOfBounds
    else exists t l' g', scan_token l g = Ok (t, l', g') /\ in_bounds l'.
Proof.
  intros Hb. unfold scan_token, skip_whitespace.
  destruct (skip_whitespace_loop_defined (fuel_of l) l Hb (fuel_enough l))
    as (l1 & Hl1 & Hb1).
  exists l1. rewrite Hl1. split; [reflexivity|]. split; [exact Hb1|].
  simpl. unfold quote_is_last, Lex.is_at_end.
  destruct (peek_in_bounds l1 Hb1) as [c Hc].
  assert (Hc' : peek (mark_start l1) = Ok c) by exact Hc.
  rewrite Hc, Hc'.
  remember (S (lex_current l1) =? List.length (lex_source l1))%nat
    as last eqn:Hlast.
  simpl.
  destruct (Ascii.eqb_spec c NUL) as [->|Hn].
  - simpl. exists (make_token (mark_start l1) TOKEN_EOF), (mark_start l1), g.
    split; [reflexivity|exact Hb1].
  - destruct (advance_in_bounds (mark_start l1) c Hc' Hn)
      as (l3 & Ha & Hb3 & Hs3 & Hc3).
    rewrite Ha. simpl.
    assert (Hspecial :
      Ascii.eqb c QUOTE = false ->
      exists t l' g',
        (if Ascii.eqb c ":" then Ok (make_token l3 TOKEN_COLON, l3, g)
         else if Ascii.eqb c "=" then Ok (make_token l3 TOKEN_EQUAL, l3, g)
         else if Ascii.eqb c ";"
              then Ok (make_token l3 TOKEN_SEMICOLON, l3, g)
              else Ok (error_token l3 (unexpected_character c) g))
        = Ok (t, l', g') /\ in_bounds l').
    { intros _.
      destruct (Ascii.eqb c ":"); [eauto|].
      destruct (Ascii.eqb c "="); [eauto|].
      destruct (Ascii.eqb c ";"); [eauto|].
      destruct (error_token l3 (unexpected_character c) g)
        as [[t l4] g4] eqn:Et.
      apply error_token_spec in Et. destruct Et as (_ & _ & Hs & Hcur & _).
      exists t, l4, g4. split; [reflexivity|].
      unfold in_bounds in *. now rewrite Hs, Hcur. }
    destruct (char_classes c) eqn:K;
      try (assert (Hq : Ascii.eqb c QUOTE = false)
             by (destruct (Ascii.eqb_spec c QUOTE) as [->|]; [discriminate K|reflexivity]);
           rewrite Hq; simpl).
    + apply Hspecial, Hq.
    + destruct (identifier_defined l3 Hb3) as (t & l4 & -> & Hb4).
      simpl. eauto.
    + destruct (number_defined l3 Hb3) as (t & l4 & -> & Hb4).
      simpl. eauto.
    + apply Hspecial, Hq.
    + apply char_classes_quote in K. subst c.
      change (Ascii.eqb QUOTE QUOTE) with true. cbn [andb].
      pose proof (string_defined l3 g Hb3) as Hstr.
      rewrite Hs3, Hc3 in Hstr.
      cbn [mark_start lex_source lex_current] in Hstr.
      pose proof (peek_not_nul l1 _ Hc Hn) as Hlt.
      destruct last; symmetry in Hlast.
      * apply Nat.eqb_eq in Hlast. rewrite Hlast, Nat.ltb_irrefl in Hstr.
        exact Hstr.
      * apply Nat.eqb_neq in Hlast.
        destruct (Nat.ltb_spec (S (lex_current l1))
                    (List.length (lex_source l1))); [exact Hstr|lia].
    + apply Hspecial, Hq.
    + apply Hspecial, Hq.
Qed.

(** ** The lexer at the end of input *)

Lemma is_at_end_true l : Lex.is_at_end l = Ok true -> peek l = Ok NUL.
Proof.
  unfold Lex.is_at_end. destruct (peek l) as [c| |]; simpl; try discriminate.
  destruct (Ascii.eqb_spec c NUL); [now subst|discriminate].
Qed.

Lemma scan_token_at_end l g :
  Lex.is_at_end l = Ok true ->
  scan_token l g = Ok (make_token (mark_start l) TOKEN_EOF, mark_start l, g).
Proof.
  intros He. pose proof (is_at_end_true l He) as Hp.
  unfold scan_token, skip_whitespace. rewrite fuel_of_eq.
  cbn [skip_whitespace_loop]. rewrite Hp. simpl.
  unfold Lex.is_at_end.
  change (peek (mark_start l)) with (peek l). rewrite Hp. reflexivity.
Qed.

(** X1. Once the lexer stands at the end of input, [scan_token] makes
    the EOF token and moves nothing but the lexeme mark [start], which
    it sets to [current]; the diagnostic slot is as before; and a
    further call returns the same token and the same state. *)
Theorem scan_token_at_end_is_stable (l : Lexer) (g : KasdState) :
  Lex.is_at_end l = Ok true ->
  let eof := mkToken TOKEN_EOF (InSource (lex_current l)) 0 (lex_line l)
               (lex_column l) NoValue in
  let l' := mkLexer (lex_source l) (lex_current l) (lex_current l)
              (lex_line l) (lex_column l) (lex_had_error l) in
  scan_token l g = Ok (eof, l', g) /\ scan_token l' g = Ok (eof, l', g).
Proof.
  intros He eof l'.
  assert (Hm : make_token (mark_start l) TOKEN_EOF = eof).
  { unfold make_token, eof, mark_start, ptr_diff. simpl.
    rewrite Z.sub_diag, Z.sub_0_r. reflexivity. }
  split.
  - rewrite (scan_token_at_end l g He), Hm. reflexivity.
  - assert (He' : Lex.is_at_end l' = Ok true) by exact He.
    rewrite (scan_token_at_end l' g He').
    change (mark_start l') with l'. now rewrite <- Hm.
Qed.

Lemma scan_token_at_end_is_stable_witness :
  scan_token (mkLexer (text "let") 3 0 1 4 false) (init_kasd_state 1)
  = Ok (mkToken TOKEN_EOF (InSource 3) 0 1 4 NoValue,
        mkLexer (text "let") 3 3 1 4 false, init_kasd_state 1).
Proof.
  exact (proj1 (scan_token_at_end_is_stable
                  (mkLexer (text "let") 3 0 1 4 false) (init_kasd_state 1)
                  eq_refl)).
Defined.

Lemma scan_token_result_witness :
  exists l1,
    skip_whitespace (init_lexer (text "  x")) = Ok l1 /\ in_bounds l1 /\
    if quote_is_last l1
    then scan_token (init_lexer (text "  x")) (init_kasd_state 1) = OutOfBounds
    else exists t l' g',
        scan_token (init_lexer (text "  x")) (init_kasd_state 1)
        = Ok (t, l', g') /\ in_bounds l'.
Proof.
  apply (scan_token_result (init_lexer (text "  x")) (init_kasd_state 1)).
  unfold in_bounds. simpl. lia.
Defined.

(** X3. A call of [scan_token] that has a result took at least one byte
    of the source, or made the EOF token with the lexer at the end of
    input and the diagnostic slot untouched; it never changes the
    source text, and a token whose type is not EOF leaves the slot and
    the lexer's error flag as they were. *)
Theorem scan_token_makes_progress (l : Lexer) (g : KasdState) (t : Token)
    (l' : Lexer) (g' : KasdState) :
  scan_token l g = Ok (t, l', g') ->
  lex_source l' = lex_source l /\
  ((lex_current l < lex_current l')%nat \/
   (tok_type t = TOKEN_EOF /\ Lex.is_at_end l' = Ok true /\ g' = g)) /\
  (tok_type t <> TOKEN_EOF -> g' = g /\ lex_had_error l' = lex_had_error l).
Proof.
  intros H. apply scan_token_spec in H. tauto.
Qed.

Lemma scan_token_makes_progress_witness :
  (lex_current (init_lexer (text "let x")) < 3)%nat \/
  (TOKEN_LET = TOKEN_EOF /\
   Lex.is_at_end (mkLexer (text "let x") 3 0 1 4 false) = Ok true /\
   init_kasd_state 1 = init_kasd_state 1).
Proof.
  exact (proj1 (proj2 (scan_token_makes_progress
                         (init_lexer (text "let x")) (init_kasd_state 1)
                         (mkToken TOKEN_LET (InSource 0) 3 1 1 NoValue)
                         (mkLexer (text "let x") 3 0 1 4 false)
                         (init_kasd_state 1) eq_refl))).
Defined.

(** ** Unterminated strings *)

Lemma string_unterminated l g t l' g' :
  string_ l g = Ok (t, l', g') ->
  tok_type t = TOKEN_EOF ->
  pending g = false ->
  Lex.is_at_end l' = Ok true /\ lex_had_error l' = true /\
  lex_start l' = lex_start l /\
  error g' = mkError ERROR_SYNTAX (lex_line l') (lex_column l')
               (Some "Unterminated string.") (Some (strdup (lex_source l)))
               (Z.of_nat (lex_start l))
               (ptr_diff (lex_current l') (lex_start l)) true.
Proof.
  unfold string_. intros H Ht Hp. step_in H r Er. destruct r as [c l1].
  apply advance_extends in Er. destruct Er as [(S1 & C1 & T1 & H1) N1].
  step_in H l2 E2. apply string_loop_extends in E2.
  destruct E2 as (S2 & C2 & T2 & H2).
  step_in H e Ee. destruct e.
  - apply Ok_inj in H. unfold error_token in H. injection H as <- <- <-.
    simpl. rewrite (set_error_records _ _ _ _ _ _ _ _ Hp).
    split; [exact Ee|]. split; [reflexivity|]. split; [congruence|].
    unfold ptr_diff. rewrite Z.sub_0_r, S2, S1, T2, T1. reflexivity.
  - step_in H r Er. destruct r as [c3 l3]. injection H as <- <- <-.
    discriminate Ht.
Qed.

Lemma string_message_is_error l g t l' g' m :
  string_ l g = Ok (t, l', g') -> tok_start t = InMessage m ->
  tok_type t = TOKEN_EOF.
Proof.
  unfold string_. intros H Hm. step_in H r Er. destruct r as [c l1].
  step_in H l2 E2. step_in H e Ee. destruct e.
  - apply Ok_inj in H. unfold error_token in H. now injection H as <- _ _.
  - step_in H r Er'. destruct r as [c3 l3]. injection H as <- _ _.
    discriminate Hm.
Qed.

Lemma number_in_source l t l' :
  number l = Ok (t, l') -> exists o, tok_start t = InSource o.
Proof.
  unfold number. intros H. step_in H l1 E1. step_in H c Ec.
  step_in H r Er. destruct r as [type l2].
  destruct type; injection H as <- _; simpl; eauto.
Qed.

(** X4. Whenever [scan_token], called with an empty diagnostic slot,
    hands back the error token of an unterminated string: the lexer is
    at the end of input with its error flag set, the byte at the lexeme
    mark is the opening quote, and the diagnostic recorded is the Syntax
    error "Unterminated string." at the lexer's line and column, with a
    span that starts at the opening quote and runs to where the scan
    stopped. *)
Theorem unterminated_string_diagnostic (l : Lexer) (g : KasdState)
    (t : Token) (l' : Lexer) (g' : KasdState) :
  scan_token l g = Ok (t, l', g') ->
  pending g = false ->
  tok_start t = InMessage "Unterminated string." ->
  tok_type t = TOKEN_EOF /\
  Lex.is_at_end l' = Ok true /\
  lex_had_error l' = true /\
  read (lex_source l) (lex_start l') = Ok QUOTE /\
  error g' = mkError ERROR_SYNTAX (lex_line l') (lex_column l')
               (Some "Unterminated string.") (Some (strdup (lex_source l)))
               (Z.of_nat (lex_start l'))
               (ptr_diff (lex_current l') (lex_start l')) true.
Proof.
  unfold scan_token. intros H Hp Hm. step_in H l1 E1.
  apply skip_whitespace_loop_extends in E1. destruct E1 as (S1 & C1 & _ & H1).
  step_in H e Ee. destruct e.
  - injection H as <- <- <-. discriminate Hm.
  - step_in H r Er. destruct r as [c l3].
    pose proof (advance_spec _ _ _ Er) as [Hread Hl3].
    assert (Hspecial :
      (if Ascii.eqb c ":" then Ok (make_token l3 TOKEN_COLON, l3, g)
       else if Ascii.eqb c "=" then Ok (make_token l3 TOKEN_EQUAL, l3, g)
       else if Ascii.eqb c ";" then Ok (make_token l3 TOKEN_SEMICOLON, l3, g)
       else Ok (error_token l3 (unexpected_character c) g))
      = Ok (t, l', g') -> False).
    { intros Hs.
      destruct (Ascii.eqb c ":");
        [|destruct (Ascii.eqb c "=");
          [|destruct (Ascii.eqb c ";")]];
        injection Hs as <- <- <-; discriminate Hm. }
    destruct (char_classes c) eqn:K; try (exfalso; apply Hspecial; exact H).
    + step_in H r Ei. destruct r as [t4 l4]. injection H as <- <- <-.
      unfold identifier in Ei. step_in Ei l5 E5. injection Ei as <- <-.
      discriminate Hm.
    + step_in H r En. destruct r as [t4 l4]. injection H as <- <- <-.
      apply number_in_source in En. destruct En as [o Ho]. congruence.
    + apply char_classes_quote in K. subst c.
      pose proof (string_message_is_error _ _ _ _ _ _ H Hm) as Ht.
      pose proof (string_unterminated _ _ _ _ _ H Ht Hp)
        as (Hend & Herr & Hst & Herror).
      split; [exact Ht|]. split; [exact Hend|]. split; [exact Herr|].
      clear Hspecial. subst l3. simpl in Hst, Herror, Hread.
      rewrite Hst, Herror, <- S1. split; [exact Hread|reflexivity].
Qed.

Lemma unterminated_string_diagnostic_witness :
  error (mkState 1 (mkError ERROR_SYNTAX 1 5 (Some "Unterminated string.")
                      (Some open_string_abc) 0 4 true))
  = mkError ERROR_SYNTAX 1 5 (Some "Unterminated string.")
      (Some open_string_abc) 0
      (ptr_diff (lex_current (mkLexer open_string_abc 4 0 1 5 true)) 0) true.
Proof.
  exact (proj2 (proj2 (proj2 (proj2
    (unterminated_string_diagnostic (init_lexer open_string_abc)
       (init_kasd_state 1)
       (mkToken TOKEN_EOF (InMessage "Unterminated string.") 20 1 5 NoValue)
       (mkLexer open_string_abc 4 0 1 5 true)
       (mkState 1 (mkError ERROR_SYNTAX 1 5 (Some "Unterminated string.")
                     (Some open_string_abc) 0 4 true))
       eq_refl eq_refl eq_refl))))).
Defined.

(** ** Analysis decides whether a unit is interpreted *)

(** X5. For a source that parses to a declaration with the parser's
    error flag unset, [run_source] interprets the declaration exactly
    when [check_types_compatible] accepts the declared type with the
    initializer's type; otherwise it raises the Type diagnostic that
    names both types at the initializer, prints the slot and returns
    [false], [interpret] not called. *)
Theorem analysis_gates_interpretation (source : list ascii) (repl : bool)
    (g g0 g1 : KasdState) (p0 p1 : Parser) (line column : Z) (name : string)
    (var_type : ValueType) (init : AstNode) :
  let decl := NODE_VARIABLE_DECLARATION line column name var_type init in
  let g2 := set_error ERROR_TYPE (node_line init) (node_column init)
              (type_mismatch (get_node_type init) var_type) None 0 0 g1 in
  init_parser (init_lexer source) g = Ok (p0, g0) ->
  parse p0 g0 = Ok (Some decl, p1, g1) ->
  had_error p1 = false ->
  run_source source repl g
  = if check_types_compatible var_type (get_node_type init)
    then Ok (mkRun true (Some decl) ReportNothing
               (Some (interpret (init_interpreter repl) (Some decl))) g1)
    else Ok (mkRun false (Some decl) (snd (print_error g2)) None g2).
Proof.
  intros decl g2 Hi Hparse Hh. unfold run_source. rewrite Hi. simpl.
  rewrite Hparse. simpl. rewrite Hh. simpl.
  unfold analyze, analyze_node, decl, analyze_variable_declaration. simpl.
  destruct (check_types_compatible var_type (get_node_type init)); simpl.
  - reflexivity.
  - fold g2. pose proof (print_error_keeps_slot g2) as Hk.
    destruct (print_error g2) as [g3 report]. simpl in Hk. now subst g3.
Qed.

Lemma analysis_gates_interpretation_witness :
  run_source bool_gets_42 false (init_kasd_state 1)
  = Ok (mkRun false
          (Some (NODE_VARIABLE_DECLARATION 1 5 "b" VALUE_BOOL
                   (NODE_LITERAL 1 15 (VInt 42))))
          (ReportHeader ERROR_TYPE 1 15
             (Some "Type mismatch: cannot assign int to variable of type bool"))
          None
          (mkState 1
             (mkError ERROR_TYPE 1 15
                (Some "Type mismatch: cannot assign int to variable of type bool")
                None 0 0 true))).
Proof.
  exact (analysis_gates_interpretation bool_gets_42 false
           (init_kasd_state 1) (init_kasd_state 1) (init_kasd_state 1)
           (mkParser (mkLexer bool_gets_42 3 0 1 4 false)
              (mkToken TOKEN_LET (InSource 0) 3 1 1 NoValue)
              uninitialised_token false false)
           parser_after_bool_gets_42 1 5 "b" VALUE_BOOL
           (NODE_LITERAL 1 15 (VInt 42)) eq_refl eq_refl eq_refl).
Defined.

(** X6. [check_types_compatible] accepts every declared type with a
    literal of the same type and with a null literal, and refuses every
    pair of different types whose literal is not null unless both are
    numeric (int and float). *)
Theorem compatible_same_or_null (expected actual : ValueType) :
  (expected = actual \/ actual = VALUE_NULL ->
   check_types_compatible expected actual = true) /\
  (expected <> actual -> actual <> VALUE_NULL ->
   is_numeric expected && is_numeric actual = false ->
   check_types_compatible expected actual = false).
Proof.
  split.
  - intros [-> | ->]; [now destruct actual|now destruct expected].
  - destruct expected, actual; simpl; intros H1 H2 H3;
      try reflexivity; try discriminate; try (now elim H1); now elim H2.
Qed.

(** ** Lines counted by [skip_whitespace] *)

Lemma consumed_step l l1 l' c :
  Lex.advance l = Ok (c, l1) -> c <> NUL -> extends l1 l' ->
  consumed l l' = c :: consumed l1 l'.
Proof.
  intros Ha Hn (Hs & Hc & _). pose proof (advance_spec _ _ _ Ha) as [Hr ->].
  pose proof (read_not_nul _ _ _ Hr Hn) as Hlt.
  unfold consumed. simpl in *.
  rewrite (skipn_cons_nth NUL _ _ Hlt).
  replace (lex_current l' - lex_current l)%nat
    with (S (lex_current l' - S (lex_current l))) by lia.
  simpl. f_equal.
  unfold read in Hr. apply Nat.ltb_lt in Hlt. rewrite Hlt in Hr.
  now injection Hr.
Qed.

(** X7. The bytes [skip_whitespace] takes are all blanks, and the line
    counter grows by exactly the number of newlines among them. *)
Theorem skip_whitespace_counts_newlines (l l' : Lexer) :
  skip_whitespace l = Ok l' ->
  forallb blank (consumed l l') = true /\
  lex_line l' =
    lex_line l + Z.of_nat (List.length (filter is_newline (consumed l l'))).
Proof.
  unfold skip_whitespace. generalize (fuel_of l) as fuel. intros fuel.
  revert l. induction fuel as [|fuel IH]; intros l H; simpl in H;
    [discriminate|].
  step_in H a Ea.
  assert (Hstop : Ok l = Ok l' ->
            forallb blank (consumed l l') = true /\
            lex_line l' = lex_line l
              + Z.of_nat (List.length (filter is_newline (consumed l l')))).
  { intros [= <-]. unfold consumed. rewrite Nat.sub_diag. simpl.
    split; [reflexivity|lia]. }
  destruct (char_classes a) eqn:K; try (now apply Hstop).
  - step_in H r Er. destruct r as [c l1].
    pose proof (advance_spec _ _ _ Er) as [Hr _].
    unfold peek in Ea. assert (c = a) by congruence. subst c.
    assert (Hn : a <> NUL) by (intros ->; discriminate).
    pose proof (skip_whitespace_loop_extends _ _ _ H) as Hext.
    rewrite (consumed_step l l1 l' a Er Hn Hext).
    destruct (IH l1 H) as [Hb Hl]. simpl.
    unfold blank at 1. rewrite K, (char_classes_whitespace a K). simpl.
    split; [exact Hb|].
    rewrite Hl. apply advance_spec in Er. destruct Er as [_ ->]. reflexivity.
  - step_in H r Er. destruct r as [c l1].
    pose proof (advance_spec _ _ _ Er) as [Hr _].
    unfold peek in Ea. simpl in Hr. assert (c = a) by congruence. subst c.
    assert (Hn : a <> NUL) by (intros ->; discriminate).
    pose proof (skip_whitespace_loop_extends _ _ _ H) as Hext.
    assert (Er' : Lex.advance l
                  = Ok (a, mkLexer (lex_source l) (S (lex_current l))
                             (lex_start l) (lex_line l) (lex_column l + 1)
                             (lex_had_error l))).
    { unfold Lex.advance. rewrite Ea. reflexivity. }
    assert (Hext' : extends (mkLexer (lex_source l) (S (lex_current l))
                               (lex_start l) (lex_line l) (lex_column l + 1)
                               (lex_had_error l)) l').
    { apply advance_spec in Er. destruct Er as [_ ->].
      destruct Hext as (A & B & C & D). unfold extends. simpl in *. auto. }
    rewrite (consumed_step l _ l' a Er' Hn Hext').
    destruct (IH l1 H) as [Hb Hl].
    assert (Hcons : consumed l1 l'
                    = consumed (mkLexer (lex_source l) (S (lex_current l))
                                  (lex_start l) (lex_line l)
                                  (lex_column l + 1) (lex_had_error l)) l').
    { apply advance_spec in Er. destruct Er as [_ ->]. reflexivity. }
    rewrite <- Hcons. simpl.
    unfold blank at 1. rewrite K, (char_classes_newline a K). simpl.
    split; [exact Hb|].
    rewrite Hl. apply advance_spec in Er. destruct Er as [_ ->]. simpl.
    lia.
Qed.

Lemma skip_whitespace_counts_newlines_witness :
  lex_line (mkLexer newline_let 1 0 2 2 false)
  = lex_line (init_lexer newline_let)
    + Z.of_nat (List.length
                  (filter is_newline
                     (consumed (init_lexer newline_let)
                        (mkLexer newline_let 1 0 2 2 false)))).
Proof.
  exact (proj2 (skip_whitespace_counts_newlines (init_lexer newline_let)
                  (mkLexer newline_let 1 0 2 2 false) eq_refl)).
Defined.

(** ** Two errors in one pass *)

(** An instance: on the source that is an unterminated string and nothing else,
    the lexer's "Unterminated string." is recorded first; the parser
    then fails to find [let], and its own diagnostic is dropped: the
    slot printed and left by [run_source] describes the lexer's error
    only. *)
Theorem lexer_error_wins_over_parser_error (log : Z) :
  let g1 := mkState log
              (mkError ERROR_SYNTAX 1 5 (Some "Unterminated string.")
                 (Some open_string_abc) 0 4 true) in
  let p0 := mkParser (mkLexer open_string_abc 4 0 1 5 true)
              (mkToken TOKEN_EOF (InMessage "Unterminated string.") 20 1 5
                 NoValue)
              uninitialised_token false false in
  init_parser (init_lexer open_string_abc) (init_kasd_state log)
  = Ok (p0, g1) /\
  consume p0 TOKEN_LET "Expected 'let' keyword." g1
  = Ok (false, Parse.set_had_error p0, g1) /\
  run_source open_string_abc false (init_kasd_state log)
  = Ok (mkRun false None
          (ReportCaret ERROR_SYNTAX 1 5 (Some "Unterminated string.")
             open_string_abc 0 4)
          None g1).
Proof. repeat split; vm_compute; reflexivity. Qed.

(** ** What lexing and parsing do to the diagnostic slot *)

Lemma raised_syntax_refl g : raised_syntax g g.
Proof. now left. Qed.

Lemma raised_syntax_trans g1 g2 g3 :
  raised_syntax g1 g2 -> raised_syntax g2 g3 -> raised_syntax g1 g3.
Proof.
  intros [->|(A & B & C & D)] [->|(A' & B' & C' & D')]; try (now left).
  - right. auto.
  - right. auto.
  - congruence.
Qed.

Lemma set_error_log_level t l c m sl p n g :
  log_level (set_error t l c m sl p n g) = log_level g.
Proof. unfold set_error. now destruct (has_error (error g)). Qed.

Lemma set_error_raised l c m sl p n g :
  raised_syntax g (set_error ERROR_SYNTAX l c m sl p n g).
Proof.
  destruct (pending g) eqn:Hp.
  - left. now apply set_error_pending_noop.
  - right. split; [exact Hp|]. split; [apply set_error_pends|].
    split; [now rewrite set_error_records|apply set_error_log_level].
Qed.

Lemma error_token_raised l message g t l' g' :
  error_token l message g = (t, l', g') -> raised_syntax g g'.
Proof. unfold error_token. intros [= _ _ <-]. apply set_error_raised. Qed.

Lemma string_raised l g t l' g' :
  string_ l g = Ok (t, l', g') -> raised_syntax g g'.
Proof.
  unfold string_. intros H. step_in H r Er. destruct r as [c l1].
  step_in H l2 E2. step_in H e Ee. destruct e.
  - apply Ok_inj in H. now apply error_token_raised in H.
  - step_in H r Er'. destruct r as [c3 l3]. injection H as _ _ <-.
    apply raised_syntax_refl.
Qed.

Lemma scan_token_raised l g t l' g' :
  scan_token l g = Ok (t, l', g') -> raised_syntax g g'.
Proof.
  unfold scan_token. intros H. step_in H l1 E1. step_in H e Ee. destruct e.
  - injection H as _ _ <-. apply raised_syntax_refl.
  - step_in H r Er. destruct r as [c l3].
    assert (Hspecial :
      (if Ascii.eqb c ":" then Ok (make_token l3 TOKEN_COLON, l3, g)
       else if Ascii.eqb c "=" then Ok (make_token l3 TOKEN_EQUAL, l3, g)
       else if Ascii.eqb c ";" then Ok (make_token l3 TOKEN_SEMICOLON, l3, g)
       else Ok (error_token l3 (unexpected_character c) g))
      = Ok (t, l', g') -> raised_syntax g g').
    { intros Hs.
      destruct (Ascii.eqb c ":");
        [|destruct (Ascii.eqb c "=");
          [|destruct (Ascii.eqb c ";")]];
        try (injection Hs as _ _ <-; apply raised_syntax_refl).
      apply Ok_inj in Hs. now apply error_token_raised in Hs. }
    destruct (char_classes c); try (apply Hspecial; exact H).
    + step_in H r Ei. destruct r as [t4 l4]. injection H as _ _ <-.
      apply raised_syntax_refl.
    + step_in H r En. destruct r as [t4 l4]. injection H as _ _ <-.
      apply raised_syntax_refl.
    + now apply string_raised in H.
Qed.

Lemma parser_advance_raised p g p' g' :
  Parse.advance p g = Ok (p', g') ->
  raised_syntax g g' /\ had_error p' = had_error p.
Proof.
  unfold Parse.advance. intros H. step_in H r Er.
  destruct r as [[t l] g1]. injection H as <- <-. simpl.
  split; [now apply scan_token_raised in Er|reflexivity].
Qed.

Lemma error_at_current_spec p message g p' g' :
  error_at_current p message g = (p', g') ->
  raised_syntax g g' /\ had_error p' = true /\ pending g' = true.
Proof.
  unfold error_at_current. intros [= <- <-]. simpl.
  split; [apply set_error_raised|]. split; [reflexivity|apply set_error_pends].
Qed.

Lemma consume_spec p type message g b p' g' :
  consume p type message g = Ok (b, p', g') ->
  raised_syntax g g' /\
  if b then had_error p' = had_error p
  else had_error p' = true /\ pending g' = true.
Proof.
  unfold consume. destruct (check p type).
  - intros H. step_in H r Er. destruct r as [p1 g1]. injection H as <- <- <-.
    now apply parser_advance_raised in Er.
  - destruct (error_at_current p message g) as [p1 g1] eqn:Ee.
    intros [= <- <- <-]. apply error_at_current_spec in Ee. tauto.
Qed.

Lemma match_first_spec types :
  forall p g r p' g',
    match_first types p g = Ok (r, p', g') ->
    raised_syntax g g' /\ had_error p' = had_error p.
Proof.
  induction types as [|ty types IH]; intros p g r p' g' H; simpl in H.
  - injection H as _ <- <-. split; [apply raised_syntax_refl|reflexivity].
  - unfold match_ in H. destruct (check p ty); simpl in H.
    + destruct (Parse.advance p g) as [[p1 g1]| |] eqn:Ea; simpl in H;
        try discriminate.
      injection H as _ <- <-. now apply parser_advance_raised in Ea.
    + now apply IH in H.
Qed.

Lemma parse_literal_spec p g r p' g' :
  parse_literal p g = Ok (r, p', g') ->
  raised_syntax g g' /\
  match r with
  | Some node => had_error p' = had_error p /\
                 exists line column v, node = NODE_LITERAL line column v
  | None => had_error p' = true /\ pending g' = true
  end.
Proof.
  unfold parse_literal, create_node_literal.
  destruct (tok_type (current p)); intros H;
    try (destruct (error_at_current p "Expected literal value." g)
           as [p1 g1] eqn:Ee;
         injection H as <- <- <-; apply error_at_current_spec in Ee; tauto);
    step_in H r0 Er; destruct r0 as [p1 g1]; injection H as <- <- <-;
    apply parser_advance_raised in Er; destruct Er as [Hr Hh];
    (split; [exact Hr|]); (split; [exact Hh|]); eauto.
Qed.

Lemma check_keyword_not_type_null l : check_keyword l <> TOKEN_TYPE_NULL.
Proof.
  unfold check_keyword, keywords. simpl.
  repeat match goal with
         | |- context [if ?b then _ else _] => destruct b; try discriminate
         end.
Qed.

Lemma number_type l t l' :
  number l = Ok (t, l') -> tok_type t = TOKEN_INT \/ tok_type t = TOKEN_FLOAT.
Proof.
  unfold number. intros H. step_in H l1 E1. step_in H c Ec.
  step_in H r Er. destruct r as [type l2].
  assert (Hty : type = TOKEN_INT \/ type = TOKEN_FLOAT).
  { destruct (Ascii.eqb c ".").
    - step_in Er n En. destruct (is_class CHAR_DIGIT n).
      + step_in Er r Ea. destruct r as [c' l3]. step_in Er l4 E4.
        injection Er as <- _. now right.
      + injection Er as <- _. now left.
    - injection Er as <- _. now left. }
  destruct Hty as [-> | ->]; injection H as <- _; simpl; auto.
Qed.

(** No token the lexer makes has type [TOKEN_TYPE_NULL]: the keyword
    table maps [null] to [TOKEN_NULL] and nothing to the type token. *)
Lemma scan_token_never_type_null l g t l' g' :
  scan_token l g = Ok (t, l', g') -> tok_type t <> TOKEN_TYPE_NULL.
Proof.
  unfold scan_token. intros H. step_in H l1 E1. step_in H e Ee. destruct e.
  - injection H as <- _ _. discriminate.
  - step_in H r Er. destruct r as [c l3].
    assert (Hspecial :
      (if Ascii.eqb c ":" then Ok (make_token l3 TOKEN_COLON, l3, g)
       else if Ascii.eqb c "=" then Ok (make_token l3 TOKEN_EQUAL, l3, g)
       else if Ascii.eqb c ";" then Ok (make_token l3 TOKEN_SEMICOLON, l3, g)
       else Ok (error_token l3 (unexpected_character c) g))
      = Ok (t, l', g') -> tok_type t <> TOKEN_TYPE_NULL).
    { intros Hs.
      destruct (Ascii.eqb c ":");
        [|destruct (Ascii.eqb c "=");
          [|destruct (Ascii.eqb c ";")]];
        injection Hs as <- _ _; discriminate. }
    destruct (char_classes c); try (apply Hspecial; exact H).
    + step_in H r Ei. destruct r as [t4 l4]. injection H as <- _ _.
      unfold identifier in Ei. step_in Ei l5 E5. injection Ei as <- _.
      simpl. apply check_keyword_not_type_null.
    + step_in H r En. destruct r as [t4 l4]. injection H as <- _ _.
      apply number_type in En. destruct En as [-> | ->]; discriminate.
    + apply string_spec in H.
      destruct H as (_ & _ & [(-> & _)|(-> & _)]); discriminate.
Qed.

Lemma parser_advance_never_type_null p g p' g' :
  Parse.advance p g = Ok (p', g') -> tok_type (current p') <> TOKEN_TYPE_NULL.
Proof.
  unfold Parse.advance. intros H. step_in H r Er.
  destruct r as [[t l] g1]. injection H as <- _. simpl.
  now apply scan_token_never_type_null in Er.
Qed.

Transparent type_tokens.

Lemma type_token_value_type t :
  In t type_tokens -> t <> TOKEN_TYPE_NULL ->
  token_to_value_type t <> VALUE_NULL.
Proof.
  simpl. intros [<-|[<-|[<-|[<-|[<-|[]]]]]] Hne; simpl; try discriminate.
  now elim Hne.
Qed.

Opaque type_tokens.

(** Everything [parse_variable_declaration] can answer: a well-shaped
    tree with the parser's error flag as it was, or no tree with the
    flag set and a diagnostic pending; the slot is as before or holds a
    Syntax diagnostic raised on the way. *)
Lemma parse_variable_declaration_spec p g r p' g' :
  parse_variable_declaration p g = Ok (r, p', g') ->
  raised_syntax g g' /\
  match r with
  | Some node => had_error p' = had_error p /\ well_shaped node
  | None => had_error p' = true /\ pending g' = true
  end.
Proof.
  unfold parse_variable_declaration, parse_expression. intros H.
  step_in H r1 E1. destruct r1 as [[b1 pa] ga].
  apply consume_spec in E1. destruct E1 as [R1 F1].
  destruct b1; simpl in H;
    [|injection H as <- <- <-; tauto].
  step_in H r2 E2. destruct r2 as [[b2 pb] gb].
  apply consume_spec in E2. destruct E2 as [R2 F2].
  pose proof (raised_syntax_trans _ _ _ R1 R2) as R12.
  destruct b2; simpl in H;
    [|injection H as <- <- <-; tauto].
  step_in H r3 E3. destruct r3 as [[b3 pc] gc].
  pose proof E3 as E3'. apply consume_spec in E3. destruct E3 as [R3 F3].
  pose proof (raised_syntax_trans _ _ _ R12 R3) as R13.
  destruct b3; simpl in H;
    [|injection H as <- <- <-; tauto].
  apply consume_true in E3'. destruct E3' as [_ A3].
  apply parser_advance_never_type_null in A3.
  step_in H r4 E4. destruct r4 as [[found pd] gd].
  pose proof E4 as E4'. apply match_first_spec in E4. destruct E4 as [R4 F4].
  pose proof (raised_syntax_trans _ _ _ R13 R4) as R14.
  destruct found as [ty|]; simpl in H.
  2:{ try unfold error_at_current in H. injection H as <- <- <-.
      split; [exact (raised_syntax_trans _ _ _ R14 (set_error_raised _ _ _ _ _ _ _))|].
      split; [reflexivity|apply set_error_pends]. }
  apply match_first_some in E4'. destruct E4' as (I4 & T4 & _).
  step_in H r5 E5. destruct r5 as [[b5 pe] ge].
  apply consume_spec in E5. destruct E5 as [R5 F5].
  pose proof (raised_syntax_trans _ _ _ R14 R5) as R15.
  destruct b5; simpl in H;
    [|injection H as <- <- <-; tauto].
  step_in H r6 E6. destruct r6 as [[init pf] gf].
  apply parse_literal_spec in E6. destruct E6 as [R6 F6].
  pose proof (raised_syntax_trans _ _ _ R15 R6) as R16.
  destruct init as [init|]; simpl in H;
    [|injection H as <- <- <-; tauto].
  destruct F6 as [F6 (ln & col & v & ->)].
  step_in H r7 E7. destruct r7 as [[b7 ph] gh].
  apply consume_spec in E7. destruct E7 as [R7 F7].
  pose proof (raised_syntax_trans _ _ _ R16 R7) as R17.
  destruct b7; simpl in H; injection H as <- <- <-;
    (split; [exact R17|]); [|tauto].
  split; [congruence|]. simpl.
  apply type_token_value_type; [exact I4|]. now rewrite <- T4.
Qed.

(** What [parse] answers and what it does to the slot. *)
Lemma parse_spec p g r p' g' :
  had_error p = false ->
  parse p g = Ok (r, p', g') ->
  raised_syntax g g' /\
  (had_error p' = true -> pending g' = true) /\
  match r with
  | Some node => well_shaped node
  | None => had_error p' = true
  end.
Proof.
  intros Hh H. unfold parse, parse_declaration in H.
  step_in H r1 E1. destruct r1 as [[node p1] g1].
  apply parse_variable_declaration_spec in E1. destruct E1 as [R1 F1].
  destruct (negb (check p1 TOKEN_EOF) && negb (had_error p1)) eqn:C.
  - unfold error_at_current in H. injection H as <- <- <-.
    split; [exact (raised_syntax_trans _ _ _ R1
                     (set_error_raised _ _ _ _ _ _ _))|].
    split; [intros _; apply set_error_pends|].
    destruct node; [tauto|]. destruct F1 as [F1 _].
    apply andb_prop in C. destruct C as [_ C]. rewrite F1 in C. discriminate.
  - injection H as <- <- <-. split; [exact R1|].
    destruct node as [node|].
    + destruct F1 as [F1 W]. split; [|exact W]. congruence.
    + destruct F1 as [F1 P1]. auto.
Qed.

(** X8. Whatever the tokens, [parse] started with its error flag unset
    answers in one of two ways: a tree, always one declaration of a
    non-null type with a literal initializer, or no tree with the error
    flag set. Whenever the flag is set a diagnostic is pending. The
    slot is left as it was found or, when nothing was pending, with a
    Syntax diagnostic: a diagnostic pending before parsing is never
    replaced. *)
Theorem parse_answers (p : Parser) (g : KasdState) (r : option AstNode)
    (p' : Parser) (g' : KasdState) :
  had_error p = false ->
  parse p g = Ok (r, p', g') ->
  raised_syntax g g' /\
  (pending g = true -> g' = g) /\
  (had_error p' = true -> pending g' = true) /\
  match r with
  | Some node => well_shaped node
  | None => had_error p' = true
  end.
Proof.
  intros Hh H.
  destruct (parse_spec _ _ _ _ _ Hh H) as (A & B & C).
  repeat split; try assumption.
  intros Hp. destruct A as [->|(A & _)]; [reflexivity|congruence].
Qed.

Lemma parse_answers_witness :
  well_shaped (NODE_VARIABLE_DECLARATION 1 5 "x" VALUE_INT
                 (NODE_LITERAL 1 14 (VInt 1))).
Proof.
  exact (proj2 (proj2 (proj2
    (parse_answers parser_at_let (init_kasd_state 1)
       (Some (NODE_VARIABLE_DECLARATION 1 5 "x" VALUE_INT
                (NODE_LITERAL 1 14 (VInt 1))))
       (Parse.set_had_error parser_at_second_semicolon)
       (expected_end_of_file 1 two_semicolons
          (current parser_at_second_semicolon))
       eq_refl eq_refl)))).
Defined.

(** ** What a run can end in (main.c) *)

(** X10. Every run of [run_source] that has a result ends in one of two
    ways. Either [interpret] was called, on a well-shaped tree, and the
    run returns [true] having printed nothing; or it was not, the run
    returns [false], a diagnostic is pending and is what was printed.
    A diagnostic pending at entry is left as it is; on an empty slot
    the only diagnostics a run raises are Syntax and Type ones; the log
    level is never touched. *)
Theorem run_source_outcomes (source : list ascii) (repl : bool)
    (g : KasdState) (r : RunResult) :
  run_source source repl g = Ok r ->
  (pending g = true -> run_state r = g) /\
  (pending g = false -> pending (run_state r) = true ->
   err_type (error (run_state r)) = ERROR_SYNTAX \/
   err_type (error (run_state r)) = ERROR_TYPE) /\
  log_level (run_state r) = log_level g /\
  match run_interpreted r with
  | Some result =>
      run_ok r = true /\ run_report r = ReportNothing /\
      exists node,
        run_ast r = Some node /\ well_shaped node /\
        result = interpret (init_interpreter repl) (Some node)
  | None =>
      run_ok r = false /\ pending (run_state r) = true /\
      run_report r = snd (print_error (run_state r))
  end.
Proof.
  unfold run_source. intros H. step_in H r0 Ei. destruct r0 as [p0 g0].
  pose proof (init_parser_spec _ _ _ _ Ei) as (Hh0 & _ & _).
  unfold init_parser in Ei. apply parser_advance_raised in Ei.
  destruct Ei as [R0 _].
  step_in H r1 Ep. destruct r1 as [[ast p1] g1].
  pose proof (parse_spec _ _ _ _ _ Hh0 Ep) as (R1 & Hflag & Hshape).
  pose proof (raised_syntax_trans _ _ _ R0 R1) as R01.
  assert (Hsyn : (pending g = true -> g1 = g) /\
                 (pending g = false -> pending g1 = true ->
                  err_type (error g1) = ERROR_SYNTAX) /\
                 log_level g1 = log_level g).
  { destruct R01 as [->|(A & B & C & D)].
    - split; [reflexivity|]. split; [congruence|reflexivity].
    - split; [congruence|]. split; [auto|exact D]. }
  destruct Hsyn as (S1 & S2 & S3).
  pose proof (print_error_keeps_slot g1) as Hk1.
  destruct (had_error p1 || is_null ast) eqn:Hbad; simpl in H.
  - destruct (print_error g1) as [g2 report] eqn:Hpr. simpl in Hk1. subst g2.
    injection H as <-. simpl.
    split; [exact S1|]. split; [auto|]. split; [exact S3|].
    split; [reflexivity|]. split; [|now rewrite Hpr].
    apply orb_prop in Hbad. destruct Hbad as [Hb|Hb]; [now apply Hflag|].
    destruct ast; [discriminate|]. now apply Hflag.
  - apply orb_false_elim in Hbad. destruct Hbad as [Hb1 Hb2].
    destruct ast as [node|]; [|discriminate].
    destruct node as [line column name var_type init|]; [|contradiction].
    destruct init as [|il ic iv]; [contradiction|].
    unfold analyze, analyze_node, analyze_variable_declaration in H.
    simpl in H.
    destruct (check_types_compatible var_type (value_type iv)); simpl in H.
    + injection H as <-. simpl.
      split; [exact S1|]. split; [auto|]. split; [exact S3|].
      split; [reflexivity|]. split; [reflexivity|].
      eexists. split; [reflexivity|]. split; [exact Hshape|reflexivity].
    + set (g2 := set_error ERROR_TYPE il ic
                   (type_mismatch (value_type iv) var_type) None 0 0 g1) in *.
      pose proof (print_error_keeps_slot g2) as Hk2.
      destruct (print_error g2) as [g3 report] eqn:Hpr. simpl in Hk2. subst g3.
      injection H as <-. simpl.
      assert (Hl2 : log_level g2 = log_level g1)
        by apply set_error_log_level.
      destruct (pending g1) eqn:P1.
      * assert (Hg2 : g2 = g1) by (now apply set_error_pending_noop).
        rewrite Hg2.
        split; [exact S1|]. split; [auto|]. split; [exact S3|].
        split; [reflexivity|]. split; [exact P1|].
        now rewrite <- Hg2, Hpr.
      * assert (Ht : err_type (error g2) = ERROR_TYPE)
          by (unfold g2; now rewrite set_error_records).
        split.
        { intros Hp. specialize (S1 Hp). subst g1. congruence. }
        split; [auto|]. split; [congruence|].
        split; [reflexivity|]. split; [apply set_error_pends|now rewrite Hpr].
Qed.

Lemma run_source_outcomes_witness :
  exists node,
    Some decl_x_int_42 = Some node /\ well_shaped node /\
    (VInt 42, mkInterpreter [("x", VInt 42)] false false, @nil EchoLine)
    = interpret (init_interpreter false) (Some node).
Proof.
  exact (proj2 (proj2 (proj2 (proj2 (proj2
    (run_source_outcomes (text "let x: int = 42;") false (init_kasd_state 1)
       (mkRun true (Some decl_x_int_42) ReportNothing
          (Some (VInt 42, mkInterpreter [("x", VInt 42)] false false, []))
          (init_kasd_state 1))
       eq_refl)))))).
Defined.

(** ** What token a text gives (lexer.c) *)

Lemma class_digit c : is_class CHAR_DIGIT c = isdigit c.
Proof. destruct c as [[] [] [] [] [] [] [] []]; reflexivity. Qed.

Lemma class_alpha c : is_class CHAR_ALPHA c = word_start c.
Proof. destruct c as [[] [] [] [] [] [] [] []]; reflexivity. Qed.

Lemma char_classes_digit c : isdigit c = true -> char_classes c = CHAR_DIGIT.
Proof.
  destruct c as [[] [] [] [] [] [] [] []]; vm_compute; congruence.
Qed.

Lemma char_classes_word c :
  word_start c = true -> char_classes c = CHAR_ALPHA.
Proof.
  destruct c as [[] [] [] [] [] [] [] []]; vm_compute; congruence.
Qed.

Lemma skipn_cons_inv {A : Type} (d : A) (s : list A) :
  forall n c r,
    skipn n s = c :: r ->
    (n < List.length s)%nat /\ nth n s d = c /\ skipn (S n) s = r.
Proof.
  induction s as [|x s IH]; intros n c r H.
  - destruct n; discriminate.
  - destruct n as [|n].
    + injection H as <- <-. simpl. repeat split. lia.
    + simpl in H. apply IH in H. destruct H as (A1 & A2 & A3).
      simpl. repeat split; try assumption. lia.
Qed.

Lemma moved_0 l : moved l 0 = l.
Proof.
  destruct l. unfold moved. simpl. f_equal; lia.
Qed.

Lemma moved_moved l n m : moved (moved l n) m = moved l (n + m).
Proof.
  unfold moved. simpl. f_equal; lia.
Qed.

Lemma rest_of_moved l n : rest_of (moved l n) = skipn n (rest_of l).
Proof.
  unfold rest_of, moved. simpl. rewrite skipn_skipn. f_equal. lia.
Qed.

Lemma in_bounds_rest l c r : rest_of l = c :: r -> in_bounds l.
Proof.
  unfold rest_of, in_bounds. intros H.
  apply (skipn_cons_inv NUL) in H. lia.
Qed.

(** One byte in front of the lexer: [peek] sees it and [advance] takes
    it. *)
Lemma rest_cons l c r :
  rest_of l = c :: r ->
  peek l = Ok c /\ Lex.advance l = Ok (c, moved l 1) /\
  rest_of (moved l 1) = r /\ in_bounds (moved l 1).
Proof.
  intros H. pose proof H as H'. unfold rest_of in H'.
  apply (skipn_cons_inv NUL) in H'. destruct H' as (Hlt & Hnth & Hr).
  assert (Hp : peek l = Ok c).
  { unfold peek, read. apply Nat.ltb_lt in Hlt. now rewrite Hlt, Hnth. }
  split; [exact Hp|]. split.
  - unfold Lex.advance. unfold peek in Hp. rewrite Hp. simpl.
    unfold moved. repeat f_equal; lia.
  - split.
    + rewrite rest_of_moved, H. reflexivity.
    + unfold in_bounds, moved. simpl. lia.
Qed.

Lemma rest_nil_peek l :
  in_bounds l -> rest_of l = [] -> peek l = Ok NUL.
Proof.
  unfold in_bounds, rest_of, peek, read. intros Hb Hr.
  apply (f_equal (@List.length ascii)) in Hr.
  rewrite length_skipn in Hr. simpl in Hr.
  destruct (Nat.ltb_spec (lex_current l) (List.length (lex_source l)));
    [lia|].
  replace (lex_current l) with (List.length (lex_source l)) by lia.
  now rewrite Nat.eqb_refl.
Qed.

(** Nothing, or a byte that [f] refuses, in front of the lexer. *)
Lemma rest_stops (f : ascii -> bool) l :
  in_bounds l -> f NUL = false -> starts_with f (rest_of l) = false ->
  exists c, peek l = Ok c /\ f c = false.
Proof.
  intros Hb Hn Hs. destruct (rest_of l) as [|c r] eqn:Hr.
  - exists NUL. split; [|exact Hn]. unfold rest_of in Hr.
    unfold peek, read. unfold in_bounds in Hb.
    destruct (Nat.ltb_spec (lex_current l) (List.length (lex_source l)))
      as [Hlt|Hge].
    + apply (f_equal (@List.length ascii)) in Hr.
      rewrite length_skipn in Hr. simpl in Hr. lia.
    + replace (lex_current l) with (List.length (lex_source l)) by lia.
      now rewrite Nat.eqb_refl.
  - exists c. apply rest_cons in Hr. simpl in Hs. tauto.
Qed.

Lemma fuel_moved l fuel :
  (List.length (lex_source l) - lex_current l < S fuel)%nat ->
  (lex_current l < List.length (lex_source l))%nat ->
  (List.length (lex_source (moved l 1)) - lex_current (moved l 1) < fuel)%nat.
Proof. unfold moved. simpl. lia. Qed.

Lemma digits_loop_run ds :
  forall l rest fuel,
    in_bounds l ->
    rest_of l = (ds ++ rest)%list ->
    forallb isdigit ds = true ->
    starts_with isdigit rest = false ->
    (List.length (lex_source l) - lex_current l < fuel)%nat ->
    digits_loop fuel l = Ok (moved l (List.length ds)).
Proof.
  induction ds as [|d ds IH]; intros l rest fuel Hb Hr Hd Hs Hf;
    (destruct fuel as [|fuel]; [lia|]); simpl.
  - simpl in Hr. rewrite <- Hr in Hs.
    destruct (rest_stops isdigit l Hb eq_refl Hs) as (c & -> & Hc).
    simpl. rewrite class_digit, Hc. now rewrite moved_0.
  - simpl in Hr, Hd. apply andb_prop in Hd. destruct Hd as [Hd Hds].
    pose proof (rest_cons l d _ Hr) as (Hp & Ha & Hr1 & Hb1).
    pose proof (skipn_cons_inv NUL _ _ _ _ Hr) as (Hlt & _).
    rewrite Hp. simpl. rewrite class_digit, Hd, Ha. simpl.
    rewrite (IH (moved l 1) rest fuel Hb1 Hr1 Hds Hs).
    + now rewrite moved_moved.
    + now apply (fuel_moved l).
Qed.

Lemma identifier_loop_run w :
  forall l rest fuel,
    in_bounds l ->
    rest_of l = (w ++ rest)%list ->
    forallb word_char w = true ->
    starts_with word_char rest = false ->
    (List.length (lex_source l) - lex_current l < fuel)%nat ->
    identifier_loop fuel l = Ok (moved l (List.length w)).
Proof.
  induction w as [|d w IH]; intros l rest fuel Hb Hr Hd Hs Hf;
    (destruct fuel as [|fuel]; [lia|]); simpl.
  - simpl in Hr. rewrite <- Hr in Hs.
    destruct (rest_stops word_char l Hb eq_refl Hs) as (c & -> & Hc).
    simpl. rewrite class_alpha, class_digit. unfold word_char in Hc.
    rewrite Hc. now rewrite moved_0.
  - simpl in Hr, Hd. apply andb_prop in Hd. destruct Hd as [Hd Hds].
    pose proof (rest_cons l d _ Hr) as (Hp & Ha & Hr1 & Hb1).
    pose proof (skipn_cons_inv NUL _ _ _ _ Hr) as (Hlt & _).
    rewrite Hp. simpl. rewrite class_alpha, class_digit.
    unfold word_char in Hd. rewrite Hd, Ha. simpl.
    rewrite (IH (moved l 1) rest fuel Hb1 Hr1 Hds Hs).
    + now rewrite moved_moved.
    + now apply (fuel_moved l).
Qed.

Lemma rest_of_mark_start l : rest_of (mark_start l) = rest_of l.
Proof. reflexivity. Qed.

(** [skip_whitespace] and the end-of-input test in front of a byte that
    starts a token. *)
Lemma scan_token_enters l g c r :
  rest_of l = c :: r -> blank c = false -> c <> NUL ->
  scan_token l g
  = match char_classes c with
    | CHAR_ALPHA =>
        '(t, l4) <- identifier (moved (mark_start l) 1) ;; Ok (t, l4, g)
    | CHAR_DIGIT =>
        '(t, l4) <- number (moved (mark_start l) 1) ;; Ok (t, l4, g)
    | CHAR_QUOTE => string_ (moved (mark_start l) 1) g
    | _ =>
        let l3 := moved (mark_start l) 1 in
        if Ascii.eqb c ":" then Ok (make_token l3 TOKEN_COLON, l3, g)
        else if Ascii.eqb c "=" then Ok (make_token l3 TOKEN_EQUAL, l3, g)
        else if Ascii.eqb c ";" then Ok (make_token l3 TOKEN_SEMICOLON, l3, g)
        else Ok (error_token l3 (unexpected_character c) g)
    end.
Proof.
  intros Hr Hb Hn.
  pose proof (rest_cons l c r Hr) as (Hp & _).
  pose proof (rest_cons (mark_start l) c r Hr) as (Hp0 & Ha0 & _).
  unfold scan_token, skip_whitespace. rewrite fuel_of_eq.
  cbn [skip_whitespace_loop]. rewrite Hp. cbn [bind].
  unfold blank in Hb.
  assert (Hskip : match char_classes c with
                  | CHAR_WHITESPACE =>
                      '(_, l1) <- Lex.advance l ;;
                      skip_whitespace_loop
                        (List.length (lex_source l) - lex_current l) l1
                  | CHAR_NEWLINE =>
                      '(_, l1) <- Lex.advance (new_line l) ;;
                      skip_whitespace_loop
                        (List.length (lex_source l) - lex_current l) l1
                  | _ => Ok l
                  end = Ok l)
    by (destruct (char_classes c); try reflexivity; discriminate).
  rewrite Hskip. cbn [bind]. unfold Lex.is_at_end. rewrite Hp0. cbn [bind].
  destruct (Ascii.eqb_spec c NUL) as [->|_]; [now elim Hn|].
  rewrite Ha0. cbn [bind]. reflexivity.
Qed.

Lemma word_start_not_blank c :
  word_start c = true -> blank c = false /\ c <> NUL.
Proof.
  intros H. split.
  - unfold blank. now rewrite (char_classes_word c H).
  - intros ->. discriminate.
Qed.

Lemma isdigit_not_blank c : isdigit c = true -> blank c = false /\ c <> NUL.
Proof.
  intros H. split.
  - unfold blank. now rewrite (char_classes_digit c H).
  - intros ->. discriminate.
Qed.

Lemma lexeme_moved l n :
  lexeme (moved (mark_start l) n) = firstn n (rest_of l).
Proof.
  unfold lexeme, moved, mark_start, rest_of. simpl.
  f_equal. lia.
Qed.

Lemma firstn_app_length {A : Type} (a b : list A) :
  firstn (List.length a) (a ++ b) = a.
Proof.
  rewrite firstn_app, Nat.sub_diag, firstn_all. simpl. apply app_nil_r.
Qed.

Lemma make_token_moved l n type :
  make_token (moved (mark_start l) n) type
  = mkToken type (InSource (lex_current l)) (Z.of_nat n) (lex_line l)
      (lex_column l) NoValue.
Proof.
  unfold make_token, moved, mark_start, ptr_diff. simpl.
  f_equal; lia.
Qed.

(** A word in front of the lexer, a letter or underscore followed
    by letters, underscores and digits up to a byte that is none of
    them, becomes one token that covers the whole word, placed at the
    line and column where the lexer stood; its type is the one the
    keyword table gives the word, [TOKEN_IDENTIFIER] when the table does
    not hold it. *)
Lemma scan_token_word_here (l : Lexer) (g : KasdState) (c : ascii)
    (w rest : list ascii) :
  rest_of l = (c :: w ++ rest)%list ->
  word_start c = true ->
  forallb word_char w = true ->
  starts_with word_char rest = false ->
  scan_token l g
  = Ok (mkToken (check_keyword_from keywords (c :: w))
          (InSource (lex_current l)) (Z.of_nat (S (List.length w)))
          (lex_line l) (lex_column l) NoValue,
        moved (mark_start l) (S (List.length w)), g).
Proof.
  intros Hr Hc Hw Hs.
  destruct (word_start_not_blank c Hc) as [Hb Hn].
  rewrite (scan_token_enters l g c _ Hr Hb Hn), (char_classes_word c Hc).
  pose proof (rest_cons (mark_start l) c _ Hr) as (_ & _ & Hr1 & Hb1).
  unfold identifier.
  rewrite (identifier_loop_run w _ rest _ Hb1 Hr1 Hw Hs (fuel_enough _)).
  cbn [bind]. rewrite moved_moved. cbn [Nat.add].
  rewrite make_token_moved. unfold check_keyword.
  rewrite lexeme_moved, Hr.
  change (c :: w ++ rest)%list with ((c :: w) ++ rest)%list.
  change (S (List.length w)) with (List.length (c :: w)) at 1.
  now rewrite firstn_app_length.
Qed.

Lemma read_digits_run ds :
  forall rest acc count,
    forallb isdigit ds = true ->
    starts_with isdigit rest = false ->
    read_digits (ds ++ rest) acc count
    = (fold_left (fun a c => a * 10 + digit_value c) ds acc,
       count + Z.of_nat (List.length ds), rest).
Proof.
  induction ds as [|d ds IH]; intros rest acc count Hd Hs; simpl.
  - rewrite Z.add_0_r. destruct rest as [|c r]; [reflexivity|].
    simpl in Hs. simpl. now rewrite Hs.
  - simpl in Hd. apply andb_prop in Hd. destruct Hd as [Hd Hds].
    rewrite Hd, (IH rest _ _ Hds Hs). rewrite Zpos_P_of_succ_nat.
    f_equal. f_equal. lia.
Qed.

Lemma peek_next_rest l c r :
  rest_of l = c :: r -> c <> NUL -> peek_next l = Ok (hd NUL r).
Proof.
  intros Hr Hn. pose proof (rest_cons l c r Hr) as (Hp & _).
  unfold rest_of in Hr. apply (skipn_cons_inv NUL) in Hr.
  destruct Hr as (Hlt & _ & Hr1).
  unfold peek_next, Lex.is_at_end. rewrite Hp. cbn [bind].
  destruct (Ascii.eqb_spec c NUL) as [->|_]; [now elim Hn|].
  unfold read. rewrite <- Hr1.
  destruct (Nat.ltb_spec (S (lex_current l)) (List.length (lex_source l)))
    as [Hlt'|Hge'].
  - now rewrite (skipn_cons_nth NUL _ _ Hlt').
  - assert (Heq : S (lex_current l) = List.length (lex_source l)) by lia.
    rewrite Heq, Nat.eqb_refl, skipn_all. reflexivity.
Qed.

(** A run of digits in front of the lexer, up to a byte that is
    neither a digit nor a dot with a digit after it, becomes one
    [TOKEN_INT] token that covers the run, placed where the lexer stood;
    its payload is the number the digits write, or [LLONG_MAX] when that
    number is larger. No diagnostic is raised in either case. *)
Lemma scan_token_int_here (l : Lexer) (g : KasdState) (d : ascii)
    (ds rest : list ascii) :
  rest_of l = (d :: ds ++ rest)%list ->
  forallb isdigit (d :: ds) = true ->
  starts_with isdigit rest = false ->
  starts_fraction rest = false ->
  scan_token l g
  = Ok (mkToken TOKEN_INT (InSource (lex_current l))
          (Z.of_nat (S (List.length ds))) (lex_line l) (lex_column l)
          (TokInt (Z.min (digits_value (d :: ds)) LLONG_MAX)),
        moved (mark_start l) (S (List.length ds)), g).
Proof.
  intros Hr Hd Hs Hf. pose proof Hd as Hd'. simpl in Hd'.
  apply andb_prop in Hd'. destruct Hd' as [Hd0 Hds].
  destruct (isdigit_not_blank d Hd0) as [Hb Hn].
  rewrite (scan_token_enters l g d _ Hr Hb Hn), (char_classes_digit d Hd0).
  pose proof (rest_cons (mark_start l) d _ Hr) as (_ & _ & Hr1 & Hb1).
  unfold number.
  rewrite (digits_loop_run ds _ rest _ Hb1 Hr1 Hds Hs (fuel_enough _)).
  cbn [bind]. rewrite moved_moved. cbn [Nat.add].
  set (l1 := moved (mark_start l) (S (List.length ds))).
  assert (Hrest : rest_of l1 = rest).
  { unfold l1. rewrite rest_of_moved, rest_of_mark_start, Hr.
    change (d :: ds ++ rest)%list with ((d :: ds) ++ rest)%list.
    change (S (List.length ds)) with (List.length (d :: ds)).
    rewrite skipn_app, Nat.sub_diag, skipn_all. reflexivity. }
  assert (Hb2 : in_bounds l1).
  { unfold l1, in_bounds, moved. simpl. unfold rest_of in Hr.
    apply (f_equal (@List.length ascii)) in Hr.
    rewrite length_skipn in Hr. simpl in Hr. rewrite length_app in Hr. lia. }
  assert (Htype :
    exists c0,
      peek l1 = Ok c0 /\
      (if Ascii.eqb c0 "."
       then n <- peek_next l1 ;;
            if is_class CHAR_DIGIT n
            then '(_, l') <- Lex.advance l1 ;;
                 l'' <- digits_loop (fuel_of l') l' ;; Ok (TOKEN_FLOAT, l'')
            else Ok (TOKEN_INT, l1)
       else Ok (TOKEN_INT, l1)) = Ok (TOKEN_INT, l1)).
  { destruct rest as [|c r].
    - exists NUL. split; [exact (rest_nil_peek l1 Hb2 Hrest)|reflexivity].
    - pose proof (rest_cons l1 c r Hrest) as (Hp & _).
      exists c. split; [exact Hp|].
      destruct (Ascii.eqb_spec c ".") as [->|Hdot]; [|reflexivity].
      rewrite (peek_next_rest l1 _ r Hrest) by discriminate.
      cbn [bind]. rewrite class_digit.
      destruct r as [|d2 r2]; [reflexivity|].
      simpl in Hf. simpl. now rewrite Hf. }
  destruct Htype as (c0 & Hp0 & Hif).
  rewrite Hp0. cbn [bind]. rewrite Hif. cbn [bind]. f_equal. f_equal. f_equal.
  unfold l1. rewrite make_token_moved. unfold with_value. simpl.
  f_equal. f_equal.
  change (skipn (lex_current l) (lex_source l)) with (rest_of l).
  rewrite Hr. unfold strtoll.
  change (d :: ds ++ rest)%list with ((d :: ds) ++ rest)%list.
  rewrite (read_digits_run (d :: ds) rest 0 0 Hd Hs). reflexivity.
Qed.

Lemma rest_after l n c a b :
  rest_of l = ((c :: a) ++ b)%list -> n = S (List.length a) ->
  rest_of (moved (mark_start l) n) = b /\ in_bounds (moved (mark_start l) n).
Proof.
  intros Hr ->. split.
  - rewrite rest_of_moved, rest_of_mark_start, Hr.
    change (S (List.length a)) with (List.length (c :: a)).
    now rewrite skipn_app, Nat.sub_diag, skipn_all.
  - unfold in_bounds, moved, mark_start. simpl. unfold rest_of in Hr.
    apply (f_equal (@List.length ascii)) in Hr.
    rewrite length_skipn, length_app in Hr. simpl in Hr. lia.
Qed.

Lemma read_decimal_plain (ds ds2 rest : list ascii) :
  forallb isdigit ds = true ->
  forallb isdigit ds2 = true ->
  starts_with isdigit rest = false ->
  starts_with exponent_mark rest = false ->
  read_decimal (ds ++ "."%char :: ds2 ++ rest)
  = mkDecimal (digits_value (ds ++ ds2)) (- Z.of_nat (List.length ds2)).
Proof.
  intros Hd Hd2 Hs He. unfold read_decimal.
  rewrite (read_digits_run ds ("."%char :: ds2 ++ rest) 0 0 Hd eq_refl).
  rewrite (read_digits_run ds2 rest _ 0 Hd2 Hs).
  unfold digits_value. rewrite fold_left_app.
  destruct rest as [|x r]; [reflexivity|].
  simpl in He. unfold exponent_mark in He. now rewrite He.
Qed.

Lemma strtod_decimal (ds ds2 rest : list ascii) :
  forallb isdigit ds = true ->
  forallb isdigit ds2 = true ->
  starts_with isdigit rest = false ->
  starts_with exponent_mark rest = false ->
  strtod (ds ++ "."%char :: ds2 ++ rest)
  = nearest_double
      (mkDecimal (digits_value (ds ++ ds2)) (- Z.of_nat (List.length ds2))).
Proof.
  intros Hd Hd2 Hs He. unfold strtod.
  now rewrite (read_decimal_plain ds ds2 rest Hd Hd2 Hs He).
Qed.

(** [strtod] rounds: 9007199254740993 is 2^53 + 1, half way between
    two doubles, and is read as 2^53, the one with the even mantissa;
    0.1 is read as the double next to it; what is too large is read as
    infinity; and an exponent behind the digits is taken. *)
Lemma strtod_rounds :
  strtod (text "9007199254740993.0;")
  = SpecFloat.S754_finite false 4503599627370496 1 /\
  strtod (text "0.1;")
  = SpecFloat.S754_finite false 7205759403792794 (-56) /\
  strtod (text "1.0e400;") = SpecFloat.S754_infinity false /\
  strtod (text "3.25e2;") = strtod (text "325.0;").
Proof. repeat split; vm_compute; reflexivity. Qed.

(** Digits, a dot and more digits in front of the lexer, up to a
    byte that is not a digit, become one [TOKEN_FLOAT] token that covers
    them all, placed where the lexer stood; the payload is what [strtod]
    reads from the token's first byte on, in the text that goes on past
    the token. *)
Lemma scan_token_float_here (l : Lexer) (g : KasdState) (d d2 : ascii)
    (ds ds2 rest : list ascii) :
  rest_of l = (d :: ds ++ "."%char :: d2 :: ds2 ++ rest)%list ->
  forallb isdigit (d :: ds) = true ->
  forallb isdigit (d2 :: ds2) = true ->
  starts_with isdigit rest = false ->
  scan_token l g
  = Ok (mkToken TOKEN_FLOAT (InSource (lex_current l))
          (Z.of_nat (S (List.length ds) + 1 + S (List.length ds2)))
          (lex_line l) (lex_column l)
          (TokFloat (strtod (d :: ds ++ "."%char :: d2 :: ds2 ++ rest))),
        moved (mark_start l) (S (List.length ds) + 1 + S (List.length ds2)),
        g).
Proof.
  intros Hr Hd Hd2 Hs. pose proof Hd as Hd'. simpl in Hd'.
  apply andb_prop in Hd'. destruct Hd' as [Hd0 Hds].
  pose proof Hd2 as Hd2'. simpl in Hd2'.
  apply andb_prop in Hd2'. destruct Hd2' as [Hd20 Hds2].
  destruct (isdigit_not_blank d Hd0) as [Hb Hn].
  rewrite (scan_token_enters l g d _ Hr Hb Hn), (char_classes_digit d Hd0).
  pose proof (rest_cons (mark_start l) d _ Hr) as (_ & _ & Hr1 & Hb1).
  unfold number.
  rewrite (digits_loop_run ds _ ("."%char :: d2 :: ds2 ++ rest) _ Hb1 Hr1 Hds
             eq_refl (fuel_enough _)).
  cbn [bind]. rewrite moved_moved. cbn [Nat.add].
  set (l1 := moved (mark_start l) (S (List.length ds))).
  destruct (rest_after l (S (List.length ds)) d ds
              ("."%char :: d2 :: ds2 ++ rest) Hr eq_refl) as [Hrest1 Hbl1].
  fold l1 in Hrest1, Hbl1.
  pose proof (rest_cons l1 _ _ Hrest1) as (Hp1 & Ha1 & Hr2 & Hb2).
  rewrite Hp1. cbn [bind]. change (Ascii.eqb "." ".") with true. cbv iota.
  rewrite (peek_next_rest l1 _ _ Hrest1) by discriminate.
  cbn [bind hd]. rewrite class_digit, Hd20, Ha1. cbn [bind].
  rewrite (digits_loop_run (d2 :: ds2) _ rest _ Hb2 Hr2 Hd2 Hs (fuel_enough _)).
  cbn [bind]. unfold l1. rewrite !moved_moved.
  change (List.length (d2 :: ds2)) with (S (List.length ds2)).
  rewrite make_token_moved. unfold with_value.
  cbn [tok_type tok_start tok_length tok_line tok_column].
  replace (S (List.length ds) + (1 + S (List.length ds2)))%nat
    with (S (List.length ds) + 1 + S (List.length ds2))%nat by lia.
  assert (Htext :
    skipn (lex_start (moved (mark_start l)
                        (S (List.length ds) + 1 + S (List.length ds2))))
      (lex_source (moved (mark_start l)
                     (S (List.length ds) + 1 + S (List.length ds2))))
    = rest_of l) by reflexivity.
  rewrite Htext, Hr. reflexivity.
Qed.

Lemma over_fields cs :
  forall l,
    lex_source (over l cs) = lex_source l /\
    lex_current (over l cs) = (lex_current l + List.length cs)%nat /\
    lex_start (over l cs) = lex_start l /\
    lex_had_error (over l cs) = lex_had_error l /\
    lex_line (over l cs)
    = lex_line l + Z.of_nat (List.length (filter is_newline cs)).
Proof.
  induction cs as [|c cs IH]; intros l.
  - simpl. repeat split; lia.
  - unfold over. simpl. fold (over (step_over l c) cs).
    destruct (IH (step_over l c)) as (A & B & C & D & E).
    rewrite A, B, C, D, E. unfold step_over.
    destruct (is_newline c); simpl; repeat split; lia.
Qed.

Lemma rest_of_over l cs :
  rest_of (over l cs) = skipn (List.length cs) (rest_of l).
Proof.
  destruct (over_fields cs l) as (Fs & Fc & _).
  unfold rest_of. rewrite Fs, Fc, skipn_skipn. f_equal. lia.
Qed.

Lemma rest_of_step_over l c r :
  rest_of l = c :: r ->
  rest_of (step_over l c) = r /\ in_bounds (step_over l c) /\
  Lex.advance (if is_newline c then new_line l else l)
  = Ok (c, step_over l c).
Proof.
  intros Hr. unfold step_over.
  assert (Hr' : rest_of (if is_newline c then new_line l else l) = c :: r)
    by (now destruct (is_newline c)).
  pose proof (rest_cons _ c r Hr') as (_ & Ha & Hr1 & Hb1). auto.
Qed.

(** [skip_whitespace] over blanks that end at a byte which is not
    one. *)
Lemma skip_whitespace_run ws :
  forall l rest,
    in_bounds l ->
    rest_of l = (ws ++ rest)%list ->
    forallb blank ws = true ->
    starts_with blank rest = false ->
    skip_whitespace l = Ok (over l ws).
Proof.
  unfold skip_whitespace. intros l rest Hb Hr Hw Hs.
  generalize (fuel_enough l). generalize (fuel_of l) as fuel.
  revert l Hb Hr.
  induction ws as [|c ws IH]; intros l Hb Hr fuel Hf;
    (destruct fuel as [|fuel]; [lia|]); cbn [skip_whitespace_loop].
  - simpl in Hr. rewrite <- Hr in Hs.
    destruct (rest_stops blank l Hb eq_refl Hs) as (c & -> & Hc).
    cbn [bind]. unfold blank in Hc.
    destruct (char_classes c); try discriminate; reflexivity.
  - simpl in Hr, Hw. apply andb_prop in Hw. destruct Hw as [Hc Hws].
    pose proof (rest_cons l c _ Hr) as (Hp & _).
    pose proof (skipn_cons_inv NUL _ _ _ _ Hr) as (Hlt & _).
    pose proof (rest_of_step_over l c _ Hr) as (Hr1 & Hb1 & Ha).
    rewrite Hp. cbn [bind]. unfold blank in Hc.
    assert (Hfuel : (List.length (lex_source (step_over l c))
                     - lex_current (step_over l c) < fuel)%nat).
    { unfold step_over. destruct (is_newline c); simpl; lia. }
    destruct (char_classes c) eqn:K; try discriminate.
    + rewrite (char_classes_whitespace c K) in Ha. rewrite Ha. cbn [bind].
      unfold over. simpl. fold (over (step_over l c) ws).
      now apply IH.
    + rewrite (char_classes_newline c K) in Ha. rewrite Ha. cbn [bind].
      unfold over. simpl. fold (over (step_over l c) ws).
      now apply IH.
Qed.

Lemma string_loop_run body :
  forall l rest fuel,
    in_bounds l ->
    rest_of l = (body ++ QUOTE :: rest)%list ->
    forallb string_byte body = true ->
    (List.length (lex_source l) - lex_current l < fuel)%nat ->
    string_loop fuel l = Ok (over l body).
Proof.
  induction body as [|c body IH]; intros l rest fuel Hb Hr Hw Hf;
    (destruct fuel as [|fuel]; [lia|]); cbn [string_loop].
  - simpl in Hr. pose proof (rest_cons l _ _ Hr) as (Hp & _).
    unfold Lex.is_at_end. rewrite Hp. reflexivity.
  - simpl in Hr, Hw. apply andb_prop in Hw. destruct Hw as [Hc Hws].
    pose proof (rest_cons l c _ Hr) as (Hp & _).
    pose proof (skipn_cons_inv NUL _ _ _ _ Hr) as (Hlt & _).
    pose proof (rest_of_step_over l c _ Hr) as (Hr1 & Hb1 & Ha).
    unfold Lex.is_at_end. rewrite Hp. cbn [bind].
    unfold string_byte in Hc. rewrite Hc. cbn [bind].
    unfold is_newline in Ha. rewrite Ha. cbn [bind].
    unfold over. simpl. fold (over (step_over l c) body).
    apply (IH _ rest); try assumption.
    unfold step_over. destruct (is_newline c); simpl; lia.
Qed.

(** A string literal in front of the lexer, an opening quote, one
    byte, a body free of quotes and a closing quote, becomes one
    [TOKEN_STRING] token and the lexer ends after the closing quote.
    The byte that follows the opening quote is stepped over by
    [string] before the content starts: the payload is the body after
    that byte, and the lexeme runs from the opening quote to the last
    byte of the body. The token carries the line the lexer has reached
    at its end, one more for each newline of the body. No diagnostic is
    raised. *)
Lemma scan_token_string_here (l : Lexer) (g : KasdState) (c : ascii)
    (body rest : list ascii) :
  rest_of l = (QUOTE :: c :: body ++ QUOTE :: rest)%list ->
  forallb string_byte body = true ->
  let l2 := over (moved (mark_start l) 2) body in
  scan_token l g
  = Ok (mkToken TOKEN_STRING (InSource (lex_current l))
          (Z.of_nat (2 + List.length body))
          (lex_line l + Z.of_nat (List.length (filter is_newline body)))
          (lex_column l2 - Z.of_nat (2 + List.length body))
          (TokString (string_of_list_ascii body)),
        moved l2 1, g) /\
  lex_current (moved l2 1) = (lex_current l + 3 + List.length body)%nat.
Proof.
  intros Hr Hbody l2.
  assert (Hq : blank QUOTE = false /\ QUOTE <> NUL)
    by (split; [reflexivity|discriminate]).
  destruct Hq as [Hqb Hqn].
  rewrite (scan_token_enters l g QUOTE _ Hr Hqb Hqn).
  change (char_classes QUOTE) with CHAR_QUOTE. cbv iota.
  pose proof (rest_cons (mark_start l) QUOTE _ Hr) as (_ & _ & Hr1 & Hb1).
  pose proof (rest_cons _ c _ Hr1) as (_ & Ha1 & Hr2 & Hb2).
  rewrite moved_moved in Ha1, Hr2, Hb2. cbn [Nat.add] in Ha1, Hr2, Hb2.
  unfold string_. rewrite Ha1. cbn [bind].
  rewrite (string_loop_run body _ rest _ Hb2 Hr2 Hbody (fuel_enough _)).
  cbn [bind]. fold l2.
  destruct (over_fields body (moved (mark_start l) 2))
    as (Fs & Fc & Ft & Fe & Fl). fold l2 in Fs, Fc, Ft, Fe, Fl.
  assert (Hrest2 : rest_of l2 = QUOTE :: rest).
  { unfold l2. rewrite rest_of_over, Hr2, skipn_app, Nat.sub_diag, skipn_all.
    reflexivity. }
  pose proof (rest_cons l2 _ _ Hrest2) as (Hp2 & Ha2 & _).
  unfold Lex.is_at_end. rewrite Hp2. cbn [bind].
  change (Ascii.eqb QUOTE NUL) with false. cbv iota.
  rewrite Ha2. cbn [bind]. split.
  - f_equal. f_equal. f_equal.
    unfold make_token, with_value, ptr_diff.
    cbn [tok_type tok_start tok_length tok_line tok_column].
    rewrite Fc, Ft, Fl, Fs.
    cbn [moved mark_start lex_current lex_start lex_line lex_source].
    f_equal; try lia.
    f_equal. f_equal.
    replace (Z.to_nat (Z.of_nat (lex_current l + 2 + List.length body)
                       - Z.of_nat (lex_current l + 2)))
      with (List.length body) by lia.
    unfold rest_of in Hr2.
    cbn [moved mark_start lex_current lex_source] in Hr2.
    rewrite Hr2. apply firstn_app_length.
  - unfold moved at 1. cbn [lex_current]. rewrite Fc.
    cbn [moved mark_start lex_current]. lia.
Qed.

(** A byte in front of the lexer that is no blank, letter,
    underscore, digit, double quote or NUL: a colon, an equal sign or a
    semicolon becomes the one-byte token of its kind, placed where the
    lexer stood; any other byte is taken and reported, on an empty slot,
    as the Syntax diagnostic "Unexpected character: 'c'" with a one-byte
    span at the byte and the column just after it, the lexer's error
    flag set and a token of type EOF handed back. *)
Lemma scan_token_special_here (l : Lexer) (g : KasdState) (c : ascii)
    (r : list ascii) :
  rest_of l = c :: r ->
  char_classes c = CHAR_SPECIAL ->
  let l3 := moved (mark_start l) 1 in
  let token type :=
    mkToken type (InSource (lex_current l)) 1 (lex_line l) (lex_column l)
      NoValue in
  (c = ":"%char -> scan_token l g = Ok (token TOKEN_COLON, l3, g)) /\
  (c = "="%char -> scan_token l g = Ok (token TOKEN_EQUAL, l3, g)) /\
  (c = ";"%char -> scan_token l g = Ok (token TOKEN_SEMICOLON, l3, g)) /\
  (c <> ":"%char -> c <> "="%char -> c <> ";"%char -> pending g = false ->
   scan_token l g
   = Ok (mkToken TOKEN_EOF (InMessage (unexpected_character c)) 25
           (lex_line l) (lex_column l + 1) NoValue,
         Lex.set_had_error l3,
         mkState (log_level g)
           (mkError ERROR_SYNTAX (lex_line l) (lex_column l + 1)
              (Some (unexpected_character c)) (Some (strdup (lex_source l)))
              (Z.of_nat (lex_current l)) 1 true))).
Proof.
  intros Hr K l3 token.
  assert (Hb : blank c = false) by (unfold blank; now rewrite K).
  assert (Hn : c <> NUL) by (intros ->; discriminate).
  pose proof (scan_token_enters l g c r Hr Hb Hn) as Hscan.
  rewrite K in Hscan. cbv zeta in Hscan. fold l3 in Hscan.
  assert (Hm : forall type, make_token l3 type = token type)
    by (intros; apply make_token_moved).
  repeat split.
  - intros ->. rewrite Hscan. simpl. now rewrite Hm.
  - intros ->. rewrite Hscan. simpl. now rewrite Hm.
  - intros ->. rewrite Hscan. simpl. now rewrite Hm.
  - intros H1 H2 H3 Hp. rewrite Hscan.
    destruct (Ascii.eqb_spec c ":"); [contradiction|].
    destruct (Ascii.eqb_spec c "="); [contradiction|].
    destruct (Ascii.eqb_spec c ";"); [contradiction|].
    unfold error_token, set_error. unfold pending in Hp. rewrite Hp.
    unfold l3, ptr_diff. simpl. repeat f_equal; lia.
Qed.


(** ** Tokens behind blanks *)

Lemma in_bounds_over l ws rest :
  in_bounds l -> rest_of l = (ws ++ rest)%list -> in_bounds (over l ws).
Proof.
  unfold in_bounds, rest_of. intros Hb Hr.
  destruct (over_fields ws l) as (Fs & Fc & _). rewrite Fs, Fc.
  apply (f_equal (@List.length ascii)) in Hr.
  rewrite length_skipn, length_app in Hr. lia.
Qed.

(** [scan_token] does not see the blanks in front of it: it answers as
    it does from the lexer that has stepped over them. *)
Lemma scan_after_blanks l g ws rest :
  in_bounds l ->
  rest_of l = (ws ++ rest)%list ->
  forallb blank ws = true ->
  starts_with blank rest = false ->
  scan_token l g = scan_token (over l ws) g /\
  rest_of (over l ws) = rest /\
  in_bounds (over l ws).
Proof.
  intros Hb Hr Hw Hs.
  pose proof (in_bounds_over l ws rest Hb Hr) as Hb1.
  assert (Hr1 : rest_of (over l ws) = rest).
  { rewrite rest_of_over, Hr, skipn_app, Nat.sub_diag, skipn_all.
    reflexivity. }
  repeat split; trivial.
  unfold scan_token.
  rewrite (skip_whitespace_run ws l rest Hb Hr Hw Hs).
  now rewrite (skip_whitespace_run [] (over l ws) rest Hb1 Hr1 eq_refl Hs).
Qed.

Lemma in_bounds_front l ws c r :
  rest_of l = (ws ++ c :: r)%list -> in_bounds l.
Proof.
  destruct ws as [|b ws]; simpl; intros Hr; exact (in_bounds_rest l _ _ Hr).
Qed.

(** X11. A word behind any run of blanks, a letter or underscore
    followed by letters, underscores and digits up to a byte that is
    none of them, becomes one token that covers the whole word and
    starts at its first byte, on the line reached by counting the
    newlines of the blanks; its type is the one the keyword table gives
    the word, [TOKEN_IDENTIFIER] when the table does not hold it. The
    lexer ends right after the word and no diagnostic is raised. *)
Theorem scan_token_word (l : Lexer) (g : KasdState) (c : ascii)
    (ws w rest : list ascii) :
  rest_of l = (ws ++ c :: w ++ rest)%list ->
  forallb blank ws = true ->
  word_start c = true ->
  forallb word_char w = true ->
  starts_with word_char rest = false ->
  scan_token l g
  = Ok (mkToken (check_keyword_from keywords (c :: w))
          (InSource (lex_current l + List.length ws))
          (Z.of_nat (S (List.length w)))
          (lex_line l + Z.of_nat (List.length (filter is_newline ws)))
          (lex_column (over l ws)) NoValue,
        moved (mark_start (over l ws)) (S (List.length w)), g).
Proof.
  intros Hr Hw Hc Hcs Hs.
  destruct (word_start_not_blank c Hc) as [Hb _].
  destruct (scan_after_blanks l g ws _ (in_bounds_front _ _ _ _ Hr) Hr Hw Hb)
    as (-> & Hr1 & _).
  rewrite (scan_token_word_here _ g c w rest Hr1 Hc Hcs Hs).
  destruct (over_fields ws l) as (_ & -> & _ & _ & ->). reflexivity.
Qed.

Lemma scan_token_word_witness :
  scan_token (init_lexer (text "  let_me = 1")) (init_kasd_state 1)
  = Ok (mkToken TOKEN_IDENTIFIER (InSource 2) 6 1 3 NoValue,
        mkLexer (text "  let_me = 1") 8 2 1 9 false, (init_kasd_state 1)).
Proof.
  exact (scan_token_word (init_lexer (text "  let_me = 1")) (init_kasd_state 1)
           "l"%char (text "  ") (text "et_me") (text " = 1")
           eq_refl eq_refl eq_refl eq_refl eq_refl).
Defined.

(** X12. A run of digits behind any run of blanks, up to a byte that
    is neither a digit nor a dot with a digit after it, becomes one
    [TOKEN_INT] token that covers the run and starts at its first digit;
    its payload is the number the digits write, or [LLONG_MAX] when that
    number is larger. No diagnostic is raised in either case. *)
Theorem scan_token_int (l : Lexer) (g : KasdState) (d : ascii)
    (ws ds rest : list ascii) :
  rest_of l = (ws ++ d :: ds ++ rest)%list ->
  forallb blank ws = true ->
  forallb isdigit (d :: ds) = true ->
  starts_with isdigit rest = false ->
  starts_fraction rest = false ->
  scan_token l g
  = Ok (mkToken TOKEN_INT (InSource (lex_current l + List.length ws))
          (Z.of_nat (S (List.length ds)))
          (lex_line l + Z.of_nat (List.length (filter is_newline ws)))
          (lex_column (over l ws))
          (TokInt (Z.min (digits_value (d :: ds)) LLONG_MAX)),
        moved (mark_start (over l ws)) (S (List.length ds)), g).
Proof.
  intros Hr Hw Hd Hs Hf.
  assert (Hb : blank d = false).
  { simpl in Hd. apply andb_prop in Hd. now apply isdigit_not_blank. }
  destruct (scan_after_blanks l g ws _ (in_bounds_front _ _ _ _ Hr) Hr Hw Hb)
    as (-> & Hr1 & _).
  rewrite (scan_token_int_here _ g d ds rest Hr1 Hd Hs Hf).
  destruct (over_fields ws l) as (_ & -> & _ & _ & ->). reflexivity.
Qed.

Lemma scan_token_int_witness :
  scan_token (init_lexer (text " 99999999999999999999;")) (init_kasd_state 1)
  = Ok (mkToken TOKEN_INT (InSource 1) 20 1 2 (TokInt LLONG_MAX),
        mkLexer (text " 99999999999999999999;") 21 1 1 22 false,
        init_kasd_state 1).
Proof.
  exact (scan_token_int (init_lexer (text " 99999999999999999999;"))
           (init_kasd_state 1) "9"%char (text " ")
           (text "9999999999999999999") (text ";")
           eq_refl eq_refl eq_refl eq_refl eq_refl).
Defined.

(** X13. Digits, a dot and more digits behind any run of blanks, up
    to a byte that is not a digit, become one [TOKEN_FLOAT] token that
    covers them all and starts at the first digit, whatever follows;
    no diagnostic is raised. Its payload is the double [strtod] reads
    from the first digit on in the text, which goes on past the token:
    an exponent that follows the digits is no part of the token and yet
    scales the payload. When the byte that follows is not an exponent
    letter, the payload is the double nearest to the decimal the digits
    write, all of them, scaled by the number of digits after the dot. *)
Theorem scan_token_float (l : Lexer) (g : KasdState) (d d2 : ascii)
    (ws ds ds2 rest : list ascii) :
  rest_of l = (ws ++ d :: ds ++ "."%char :: d2 :: ds2 ++ rest)%list ->
  forallb blank ws = true ->
  forallb isdigit (d :: ds) = true ->
  forallb isdigit (d2 :: ds2) = true ->
  starts_with isdigit rest = false ->
  scan_token l g
  = Ok (mkToken TOKEN_FLOAT (InSource (lex_current l + List.length ws))
          (Z.of_nat (S (List.length ds) + 1 + S (List.length ds2)))
          (lex_line l + Z.of_nat (List.length (filter is_newline ws)))
          (lex_column (over l ws))
          (TokFloat (strtod (d :: ds ++ "."%char :: d2 :: ds2 ++ rest))),
        moved (mark_start (over l ws))
          (S (List.length ds) + 1 + S (List.length ds2)),
        g) /\
  (starts_with exponent_mark rest = false ->
   strtod (d :: ds ++ "."%char :: d2 :: ds2 ++ rest)
   = nearest_double
       (mkDecimal (digits_value ((d :: ds) ++ d2 :: ds2))
          (- Z.of_nat (S (List.length ds2))))).
Proof.
  intros Hr Hw Hd Hd2 Hs. split.
  - assert (Hb : blank d = false).
    { simpl in Hd. apply andb_prop in Hd. now apply isdigit_not_blank. }
    destruct (scan_after_blanks l g ws _ (in_bounds_front _ _ _ _ Hr) Hr Hw Hb)
      as (-> & Hr1 & _).
    rewrite (scan_token_float_here _ g d d2 ds ds2 rest Hr1 Hd Hd2 Hs).
    destruct (over_fields ws l) as (_ & -> & _ & _ & ->). reflexivity.
  - intros He.
    exact (strtod_decimal (d :: ds) (d2 :: ds2) rest Hd Hd2 Hs He).
Qed.

Lemma scan_token_float_witness :
  scan_token (mkLexer (text "= 3.25e2;") 1 0 1 2 false) (init_kasd_state 1)
  = Ok (mkToken TOKEN_FLOAT (InSource 2) 4 1 3
          (TokFloat (SpecFloat.S754_finite false 5717460464435200 (-44))),
        mkLexer (text "= 3.25e2;") 6 2 1 7 false, init_kasd_state 1) /\
  scan_token (mkLexer (text "= 3.25;") 1 0 1 2 false) (init_kasd_state 1)
  = Ok (mkToken TOKEN_FLOAT (InSource 2) 4 1 3
          (TokFloat (SpecFloat.S754_finite false 7318349394477056 (-51))),
        mkLexer (text "= 3.25;") 6 2 1 7 false, init_kasd_state 1) /\
  strtod (text "3.25;") = nearest_double (mkDecimal 325 (-2)).
Proof.
  split; [|split].
  - exact (proj1 (scan_token_float
             (mkLexer (text "= 3.25e2;") 1 0 1 2 false)
             (init_kasd_state 1) "3"%char "2"%char (text " ") [] (text "5")
             (text "e2;") eq_refl eq_refl eq_refl eq_refl eq_refl)).
  - exact (proj1 (scan_token_float (mkLexer (text "= 3.25;") 1 0 1 2 false)
             (init_kasd_state 1) "3"%char "2"%char (text " ") [] (text "5")
             (text ";") eq_refl eq_refl eq_refl eq_refl eq_refl)).
  - exact (proj2 (scan_token_float
             (mkLexer (text "= 3.25;") 1 0 1 2 false)
             (init_kasd_state 1) "3"%char "2"%char (text " ") [] (text "5")
             (text ";") eq_refl eq_refl eq_refl eq_refl eq_refl) eq_refl).
Defined.

(** X14. A double quote behind any run of blanks, then one byte, then
    a body without double quote or NUL, then a double quote, becomes one
    [TOKEN_STRING] token and the lexer ends after the closing quote.
    The byte that follows the opening quote is stepped over by [string]
    before the content starts: the payload is the body after that byte,
    and the lexeme runs from the opening quote to the last byte of the
    body. The token carries the line the lexer has reached at its end,
    one more for each newline of the blanks and of the body. No
    diagnostic is raised. *)
Theorem scan_token_string (l : Lexer) (g : KasdState) (c : ascii)
    (ws body rest : list ascii) :
  rest_of l = (ws ++ QUOTE :: c :: body ++ QUOTE :: rest)%list ->
  forallb blank ws = true ->
  forallb string_byte body = true ->
  let l2 := over (moved (mark_start (over l ws)) 2) body in
  scan_token l g
  = Ok (mkToken TOKEN_STRING (InSource (lex_current l + List.length ws))
          (Z.of_nat (2 + List.length body))
          (lex_line l
           + Z.of_nat (List.length (filter is_newline (ws ++ body))))
          (lex_column l2 - Z.of_nat (2 + List.length body))
          (TokString (string_of_list_ascii body)),
        moved l2 1, g) /\
  lex_current (moved l2 1)
  = (lex_current l + List.length ws + 3 + List.length body)%nat.
Proof.
  intros Hr Hw Hbody l2.
  destruct (scan_after_blanks l g ws _ (in_bounds_front _ _ _ _ Hr) Hr Hw
              eq_refl) as (-> & Hr1 & _).
  destruct (scan_token_string_here _ g c body rest Hr1 Hbody) as [Hscan Hcur].
  fold l2 in Hscan, Hcur. rewrite Hscan, Hcur.
  destruct (over_fields ws l) as (_ & -> & _ & _ & ->).
  rewrite filter_app, length_app.
  rewrite (Nat2Z.inj_add (List.length (filter is_newline ws))), Z.add_assoc.
  split; reflexivity.
Qed.

Lemma scan_token_string_witness :
  scan_token (init_lexer (text "  " ++ QUOTE :: text "abc" ++ [QUOTE]))
    (init_kasd_state 1)
  = Ok (mkToken TOKEN_STRING (InSource 2) 4 1 3 (TokString "bc"),
        mkLexer (text "  " ++ QUOTE :: text "abc" ++ [QUOTE]) 7 2 1 8 false,
        init_kasd_state 1).
Proof.
  exact (proj1 (scan_token_string
                  (init_lexer (text "  " ++ QUOTE :: text "abc" ++ [QUOTE]))
                  (init_kasd_state 1) "a"%char (text "  ") (text "bc") []
                  eq_refl eq_refl eq_refl)).
Defined.

(** X15. A byte behind any run of blanks that is no blank, letter,
    underscore, digit, double quote or NUL: a colon, an equal sign or a
    semicolon becomes the one-byte token of its kind, placed at the
    byte; any other byte is taken and reported, on an empty slot, as the
    Syntax diagnostic "Unexpected character: 'c'" with a one-byte span
    at the byte and the column just after it, the lexer's error flag set
    and a token of type EOF handed back. *)
Theorem scan_token_special (l : Lexer) (g : KasdState) (c : ascii)
    (ws r : list ascii) :
  rest_of l = (ws ++ c :: r)%list ->
  forallb blank ws = true ->
  char_classes c = CHAR_SPECIAL ->
  let l1 := over l ws in
  let l3 := moved (mark_start l1) 1 in
  let token type :=
    mkToken type (InSource (lex_current l1)) 1 (lex_line l1) (lex_column l1)
      NoValue in
  lex_current l1 = (lex_current l + List.length ws)%nat /\
  lex_line l1 = lex_line l + Z.of_nat (List.length (filter is_newline ws)) /\
  (c = ":"%char -> scan_token l g = Ok (token TOKEN_COLON, l3, g)) /\
  (c = "="%char -> scan_token l g = Ok (token TOKEN_EQUAL, l3, g)) /\
  (c = ";"%char -> scan_token l g = Ok (token TOKEN_SEMICOLON, l3, g)) /\
  (c <> ":"%char -> c <> "="%char -> c <> ";"%char -> pending g = false ->
   scan_token l g
   = Ok (mkToken TOKEN_EOF (InMessage (unexpected_character c)) 25
           (lex_line l1) (lex_column l1 + 1) NoValue,
         Lex.set_had_error l3,
         mkState (log_level g)
           (mkError ERROR_SYNTAX (lex_line l1) (lex_column l1 + 1)
              (Some (unexpected_character c)) (Some (strdup (lex_source l)))
              (Z.of_nat (lex_current l1)) 1 true))).
Proof.
  intros Hr Hw K l1 l3 token.
  assert (Hb : blank c = false) by (unfold blank; now rewrite K).
  destruct (scan_after_blanks l g ws _ (in_bounds_front _ _ _ _ Hr) Hr Hw Hb)
    as (-> & Hr1 & _). fold l1 in Hr1 |- *.
  destruct (over_fields ws l) as (Fs & Fc & _ & _ & Fl).
  fold l1 in Fs, Fc, Fl. rewrite <- Fs.
  split; [exact Fc|]. split; [exact Fl|].
  exact (scan_token_special_here l1 g c r Hr1 K).
Qed.

Lemma scan_token_special_witness :
  scan_token (init_lexer (text " @")) (init_kasd_state 1)
  = Ok (mkToken TOKEN_EOF (InMessage "Unexpected character: '@'") 25 1 3
          NoValue,
        mkLexer (text " @") 2 1 1 3 true,
        mkState 1
          (mkError ERROR_SYNTAX 1 3 (Some "Unexpected character: '@'"%string)
             (Some (text " @")) 1 1 true)).
Proof.
  refine (proj2 (proj2 (proj2 (proj2 (proj2
            (scan_token_special (init_lexer (text " @")) (init_kasd_state 1)
               "@"%char (text " ") [] eq_refl eq_refl eq_refl)))))
            _ _ _ eq_refl); discriminate.
Defined.

(** ** Declarations that are accepted *)

Lemma place_app from a b : place from (a ++ b) = place (place from a) b.
Proof. unfold place. apply fold_left_app. Qed.

Lemma position_over cs :
  forall l, position (over l cs) = place (position l) cs.
Proof.
  induction cs as [|c cs IH]; intros l; [reflexivity|].
  unfold over. simpl. fold (over (step_over l c) cs). rewrite IH.
  unfold place. simpl. f_equal.
  unfold step_over, position. destruct (is_newline c); reflexivity.
Qed.

Lemma place_plain cs :
  forall from,
    forallb (fun c => negb (is_newline c)) cs = true ->
    place from cs = (fst from, snd from + Z.of_nat (List.length cs)).
Proof.
  induction cs as [|c cs IH]; intros [line column] H.
  - simpl. f_equal. lia.
  - simpl in H. apply andb_prop in H. destruct H as [Hc Hcs].
    apply negb_true_iff in Hc. unfold place. simpl. rewrite Hc.
    fold (place (line, column + 1) cs). rewrite (IH _ Hcs). simpl.
    f_equal. lia.
Qed.

Lemma blank_is_no_token_byte c :
  blank c = true ->
  word_char c = false /\ isdigit c = false /\ exponent_mark c = false /\
  Ascii.eqb c "." = false.
Proof.
  destruct c as [[] [] [] [] [] [] [] []]; vm_compute; intuition congruence.
Qed.

Lemma word_char_plain c : word_char c = true -> is_newline c = false.
Proof.
  destruct c as [[] [] [] [] [] [] [] []]; vm_compute; congruence.
Qed.

Lemma word_chars_plain w :
  forallb word_char w = true ->
  forallb (fun c => negb (is_newline c)) w = true.
Proof.
  induction w as [|c w IH]; simpl; [reflexivity|].
  intros H. apply andb_prop in H. destruct H as [Hc Hw].
  now rewrite (word_char_plain c Hc), (IH Hw).
Qed.

Lemma digits_are_word_chars ds :
  forallb isdigit ds = true -> forallb word_char ds = true.
Proof.
  induction ds as [|d ds IH]; simpl; [reflexivity|].
  intros H. apply andb_prop in H. destruct H as [Hd Hds].
  unfold word_char at 1. now rewrite Hd, orb_true_r, (IH Hds).
Qed.

(** A token that covers the bytes [txt] in front of the lexer and holds
    no newline: where the lexer ends and what the token says. *)
Lemma token_over_text l txt rest type value :
  in_bounds l ->
  rest_of l = (txt ++ rest)%list ->
  forallb (fun c => negb (is_newline c)) txt = true ->
  let t := mkToken type (InSource (lex_current l))
             (Z.of_nat (List.length txt)) (lex_line l) (lex_column l) value in
  let l' := moved (mark_start l) (List.length txt) in
  rest_of l' = rest /\ in_bounds l' /\ lex_source l' = lex_source l /\
  position l' = place (position l) txt /\
  token_text (lex_source l) t = string_of_list_ascii txt.
Proof.
  intros Hb Hr Hp t l'. repeat split.
  - unfold l'. rewrite rest_of_moved, rest_of_mark_start, Hr.
    rewrite skipn_app, Nat.sub_diag, skipn_all. reflexivity.
  - unfold in_bounds, rest_of in *. unfold l'. simpl.
    apply (f_equal (@List.length ascii)) in Hr.
    rewrite length_skipn, length_app in Hr. lia.
  - rewrite (place_plain txt _ Hp). reflexivity.
  - unfold token_text, t. cbn [tok_start tok_length].
    rewrite Nat2Z.id. unfold rest_of in Hr. rewrite Hr.
    now rewrite firstn_app_length.
Qed.

(** What [scan_token] answers in front of blanks and the text of one
    token. *)
Lemma scan_spelled l g ws txt rest type value :
  spells rest txt type value ->
  in_bounds l ->
  rest_of l = (ws ++ txt ++ rest)%list ->
  forallb blank ws = true ->
  exists t l',
    scan_token l g = Ok (t, l', g) /\
    tok_type t = type /\ tok_value t = value /\
    rest_of l' = rest /\ in_bounds l' /\ lex_source l' = lex_source l /\
    (type <> TOKEN_STRING ->
     (tok_line t, tok_column t) = place (position l) ws /\
     position l' = place (position l) (ws ++ txt) /\
     token_text (lex_source l) t = string_of_list_ascii txt /\
     tok_start t = InSource (lex_current l + List.length ws) /\
     tok_length t = Z.of_nat (List.length txt)).
Proof.
  intros Hs Hb Hr Hw.
  assert (Hsrc : lex_source (over l ws) = lex_source l)
    by apply (over_fields ws l).
  pose proof (position_over ws l) as Hpos.
  assert (Hplain :
    forall l1 t l' n,
      l1 = over l ws -> n = List.length txt ->
      in_bounds l1 -> rest_of l1 = (txt ++ rest)%list ->
      forallb (fun c => negb (is_newline c)) txt = true ->
      scan_token l1 g = Ok (t, l', g) ->
      t = mkToken type (InSource (lex_current l1)) (Z.of_nat n)
            (lex_line l1) (lex_column l1) value ->
      l' = moved (mark_start l1) n ->
      scan_token l1 g = Ok (t, l', g) /\
      tok_type t = type /\ tok_value t = value /\
      rest_of l' = rest /\ in_bounds l' /\ lex_source l' = lex_source l /\
      (type <> TOKEN_STRING ->
       (tok_line t, tok_column t) = place (position l) ws /\
       position l' = place (position l) (ws ++ txt) /\
       token_text (lex_source l) t = string_of_list_ascii txt /\
       tok_start t = InSource (lex_current l + List.length ws) /\
       tok_length t = Z.of_nat (List.length txt))).
  { intros l1 t l' n -> -> Hb1 Hr1 Hp Hscan -> ->.
    destruct (token_over_text _ txt rest type value Hb1 Hr1 Hp)
      as (A & B & C & D & E).
    rewrite Hsrc in C, E. rewrite Hpos in D.
    repeat split; trivial.
    - now rewrite place_app.
    - cbn [tok_start]. f_equal. apply (over_fields ws l). }
  inversion Hs as [c w Hc Hcw Hrest|d ds Hd Hrest Hfrac
                  |d ds d2 ds2 Hd Hd2 Hrest Hexp|c body Hbody| | | |Hnil];
    subst.
  - destruct (word_start_not_blank c Hc) as [Hbl _].
    destruct (scan_after_blanks l g ws _ Hb Hr Hw Hbl) as (-> & Hr1 & Hb1).
    pose proof (scan_token_word_here _ g c w rest Hr1 Hc Hcw Hrest) as Hscan.
    eexists. eexists.
    apply (Hplain (over l ws) _ _ (S (List.length w)) eq_refl eq_refl Hb1 Hr1);
      [|exact Hscan|reflexivity|reflexivity].
    apply word_chars_plain. simpl. unfold word_char at 1.
    now rewrite Hc, Hcw.
  - assert (Hbl : blank d = false).
    { simpl in Hd. apply andb_prop in Hd. now apply isdigit_not_blank. }
    destruct (scan_after_blanks l g ws _ Hb Hr Hw Hbl) as (-> & Hr1 & Hb1).
    pose proof (scan_token_int_here _ g d ds rest Hr1 Hd Hrest Hfrac)
      as Hscan.
    eexists. eexists.
    apply (Hplain (over l ws) _ _ (S (List.length ds)) eq_refl eq_refl Hb1
             Hr1); [|exact Hscan|reflexivity|reflexivity].
    now apply word_chars_plain, digits_are_word_chars.
  - assert (Hbl : blank d = false).
    { simpl in Hd. apply andb_prop in Hd. now apply isdigit_not_blank. }
    destruct (scan_after_blanks l g ws _ Hb Hr Hw Hbl) as (-> & Hr1 & Hb1).
    assert (Hr2 : rest_of (over l ws)
                  = (d :: ds ++ "."%char :: d2 :: ds2 ++ rest)%list).
    { rewrite Hr1. simpl. rewrite <- app_assoc. reflexivity. }
    pose proof (scan_token_float_here _ g d d2 ds ds2 rest Hr2 Hd Hd2 Hrest)
      as Hscan.
    change (d :: ds ++ "."%char :: d2 :: ds2 ++ rest)%list
      with ((d :: ds) ++ "."%char :: (d2 :: ds2) ++ rest)%list in Hscan.
    rewrite (strtod_decimal (d :: ds) (d2 :: ds2) rest Hd Hd2 Hrest Hexp)
      in Hscan.
    eexists. eexists.
    apply (Hplain (over l ws) _ _
             (S (List.length ds) + 1 + S (List.length ds2))%nat eq_refl);
      [|exact Hb1|exact Hr1| |exact Hscan|reflexivity|reflexivity].
    + simpl. rewrite length_app. simpl. lia.
    + change (d :: ds ++ "."%char :: d2 :: ds2)%list
        with ((d :: ds) ++ "."%char :: d2 :: ds2)%list.
      rewrite forallb_app.
      rewrite (word_chars_plain _ (digits_are_word_chars _ Hd)).
      change ("."%char :: d2 :: ds2)%list
        with (["."%char] ++ d2 :: ds2)%list.
      rewrite forallb_app.
      now rewrite (word_chars_plain _ (digits_are_word_chars _ Hd2)).
  - destruct (scan_after_blanks l g ws _ Hb Hr Hw eq_refl)
      as (-> & Hr1 & Hb1).
    assert (Hr2 : rest_of (over l ws)
                  = (QUOTE :: c :: body ++ QUOTE :: rest)%list).
    { rewrite Hr1. simpl. rewrite <- app_assoc. reflexivity. }
    destruct (scan_token_string_here _ g c body rest Hr2 Hbody)
      as [Hscan Hcur].
    eexists. eexists. split; [exact Hscan|].
    set (l2 := over (moved (mark_start (over l ws)) 2) body) in *.
    destruct (over_fields body (moved (mark_start (over l ws)) 2))
      as (Fs & Fc & _). fold l2 in Fs, Fc.
    repeat split; try reflexivity; try (intros; congruence).
    + rewrite rest_of_moved. unfold l2.
      rewrite rest_of_over, rest_of_moved, rest_of_mark_start, Hr2.
      simpl. rewrite skipn_app, Nat.sub_diag, skipn_all. reflexivity.
    + unfold in_bounds. rewrite Hcur.
      unfold in_bounds, rest_of in Hb1, Hr2.
      change (lex_source (moved l2 1)) with (lex_source l2). rewrite Fs.
      cbn [moved mark_start lex_source].
      apply (f_equal (@List.length ascii)) in Hr2.
      rewrite length_skipn in Hr2. simpl in Hr2.
      rewrite length_app in Hr2. simpl in Hr2. lia.
    + change (lex_source (moved l2 1)) with (lex_source l2). rewrite Fs.
      exact Hsrc.
  - destruct (scan_after_blanks l g ws _ Hb Hr Hw eq_refl)
      as (-> & Hr1 & Hb1).
    destruct (scan_token_special_here _ g ":"%char rest Hr1 eq_refl)
      as (Hscan & _).
    eexists. eexists.
    apply (Hplain (over l ws) _ _ 1%nat eq_refl eq_refl Hb1 Hr1 eq_refl);
      [exact (Hscan eq_refl)|reflexivity|reflexivity].
  - destruct (scan_after_blanks l g ws _ Hb Hr Hw eq_refl)
      as (-> & Hr1 & Hb1).
    destruct (scan_token_special_here _ g "="%char rest Hr1 eq_refl)
      as (_ & Hscan & _).
    eexists. eexists.
    apply (Hplain (over l ws) _ _ 1%nat eq_refl eq_refl Hb1 Hr1 eq_refl);
      [exact (Hscan eq_refl)|reflexivity|reflexivity].
  - destruct (scan_after_blanks l g ws _ Hb Hr Hw eq_refl)
      as (-> & Hr1 & Hb1).
    destruct (scan_token_special_here _ g ";"%char rest Hr1 eq_refl)
      as (_ & _ & Hscan & _).
    eexists. eexists.
    apply (Hplain (over l ws) _ _ 1%nat eq_refl eq_refl Hb1 Hr1 eq_refl);
      [exact (Hscan eq_refl)|reflexivity|reflexivity].
  - destruct (scan_after_blanks l g ws _ Hb Hr Hw eq_refl)
      as (-> & Hr1 & Hb1).
    assert (He : Lex.is_at_end (over l ws) = Ok true).
    { unfold Lex.is_at_end. now rewrite (rest_nil_peek _ Hb1 Hr1). }
    pose proof (scan_token_at_end _ g He) as Hscan.
    rewrite <- (moved_0 (mark_start (over l ws))) in Hscan.
    rewrite make_token_moved in Hscan.
    eexists. eexists.
    apply (Hplain (over l ws) _ _ 0%nat eq_refl eq_refl Hb1 Hr1 eq_refl);
      [exact Hscan|reflexivity|reflexivity].
Qed.

(** Where the token of a text starts and how long it is. *)
Lemma scan_spelled_span l g ws txt rest type value t l' g' :
  spells rest txt type value ->
  in_bounds l ->
  rest_of l = (ws ++ txt ++ rest)%list ->
  forallb blank ws = true ->
  scan_token l g = Ok (t, l', g') ->
  tok_start t = InSource (lex_current l + List.length ws) /\
  tok_length t = token_span type txt.
Proof.
  intros Hs Hb Hr Hw Hscan.
  destruct (TokenType_eqb type TOKEN_STRING) eqn:E.
  - apply TokenType_eqb_eq in E. subst type.
    inversion Hs as [c w Hc Hcw Hrest E1| | |c body Hbody| | | |]; subst.
    + now elim (check_keyword_from_not_string (c :: w)).
    + destruct (scan_after_blanks l g ws _ Hb Hr Hw eq_refl)
        as (Hsc & Hr1 & _).
      assert (Hr2 : rest_of (over l ws)
                    = (QUOTE :: c :: body ++ QUOTE :: rest)%list).
      { rewrite Hr1. simpl. rewrite <- app_assoc. reflexivity. }
      destruct (scan_token_string_here _ g c body rest Hr2 Hbody)
        as [Hstr _].
      rewrite Hsc, Hstr in Hscan. injection Hscan as <- _ _.
      cbn [tok_start tok_length token_span].
      destruct (over_fields ws l) as (_ & -> & _).
      split; [reflexivity|]. cbn [List.length]. rewrite length_app.
      cbn [List.length]. lia.
  - assert (Hn : type <> TOKEN_STRING).
    { intros ->. discriminate E. }
    destruct (scan_spelled l g ws txt rest type value Hs Hb Hr Hw)
      as (t0 & l0 & Hscan0 & _ & _ & _ & _ & _ & P).
    rewrite Hscan0 in Hscan. injection Hscan as <- _ _.
    destruct (P Hn) as (_ & _ & _ & -> & ->).
    split; [reflexivity|]. unfold token_span.
    destruct type; try reflexivity. now elim Hn.
Qed.

(** The parser's [advance] over blanks and the text of one token. *)
Lemma advance_spelled p g ws txt rest type value :
  spells rest txt type value ->
  in_bounds (lexer p) ->
  rest_of (lexer p) = (ws ++ txt ++ rest)%list ->
  forallb blank ws = true ->
  exists t l',
    Parse.advance p g
    = Ok (mkParser l' t (current p) (had_error p) (panic_mode p), g) /\
    tok_type t = type /\ tok_value t = value /\
    rest_of l' = rest /\ in_bounds l' /\
    lex_source l' = lex_source (lexer p) /\
    (type <> TOKEN_STRING ->
     (tok_line t, tok_column t) = place (position (lexer p)) ws /\
     position l' = place (position (lexer p)) (ws ++ txt) /\
     token_text (lex_source (lexer p)) t = string_of_list_ascii txt /\
     tok_start t = InSource (lex_current (lexer p) + List.length ws) /\
     tok_length t = Z.of_nat (List.length txt)).
Proof.
  intros Hs Hb Hr Hw.
  destruct (scan_spelled (lexer p) g ws txt rest type value Hs Hb Hr Hw)
    as (t & l' & Hscan & Hrest).
  exists t, l'. split; [|exact Hrest].
  unfold Parse.advance. now rewrite Hscan.
Qed.

Lemma advance_spelled_span p g ws txt rest type value p' g' :
  spells rest txt type value ->
  in_bounds (lexer p) ->
  rest_of (lexer p) = (ws ++ txt ++ rest)%list ->
  forallb blank ws = true ->
  Parse.advance p g = Ok (p', g') ->
  tok_start (current p')
  = InSource (lex_current (lexer p) + List.length ws) /\
  tok_length (current p') = token_span type txt.
Proof.
  intros Hs Hb Hr Hw Ha. unfold Parse.advance in Ha.
  destruct (scan_token (lexer p) g) as [[[t l1] g1]| |] eqn:Hscan;
    [|discriminate..].
  cbn [bind] in Ha. injection Ha as <- _. cbn [current].
  exact (scan_spelled_span _ g ws txt rest type value t l1 g1 Hs Hb Hr Hw
           Hscan).
Qed.

(** Blanks and then a byte that [f] refuses: [f] refuses the first byte
    of the whole. *)
Lemma gap_then (f : ascii -> bool) ws c r :
  (forall x, blank x = true -> f x = false) ->
  forallb blank ws = true -> f c = false ->
  starts_with f (ws ++ c :: r) = false.
Proof.
  intros Hf Hw Hc. destruct ws as [|b ws]; [exact Hc|].
  simpl in Hw |- *. apply andb_prop in Hw. now apply Hf.
Qed.

Lemma gap_then_no_fraction ws c r :
  forallb blank ws = true -> Ascii.eqb c "." = false ->
  starts_fraction (ws ++ c :: r) = false.
Proof.
  intros Hw Hc. destruct ws as [|b ws]; simpl.
  - destruct r; [reflexivity|]. now rewrite Hc.
  - simpl in Hw. apply andb_prop in Hw. destruct Hw as [Hb _].
    destruct (blank_is_no_token_byte b Hb) as (_ & _ & _ & ->).
    now destruct (ws ++ c :: r)%list.
Qed.

(** The type names are keywords, and [type_map] sends the token of each
    to its type. *)
Lemma type_word_spelled ty T rest :
  In (ty, T) type_words ->
  starts_with word_char rest = false ->
  exists type,
    spells rest ty type NoValue /\ token_to_value_type type = T /\
    type <> TOKEN_STRING /\
    forall p g p' g',
      tok_type (current p) = type ->
      Parse.advance p g = Ok (p', g') ->
      match_first type_tokens p g = Ok (Some type, p', g').
Proof.
  intros Hin Hrest.
  assert (Hm : forall type,
    In type [TOKEN_TYPE_INT; TOKEN_TYPE_FLOAT; TOKEN_TYPE_BOOL;
             TOKEN_TYPE_STRING] ->
    forall p g p' g',
      tok_type (current p) = type ->
      Parse.advance p g = Ok (p', g') ->
      match_first type_tokens p g = Ok (Some type, p', g')).
  { intros type Ht p g p' g' Hc Ha.
    with_strategy transparent [type_tokens]
      (unfold type_tokens, match_first, match_, check).
    rewrite Hc.
    simpl in Ht.
    destruct Ht as [<-|[<-|[<-|[<-|[]]]]];
      repeat (simpl; rewrite ?Hc, ?Ha); reflexivity. }
  simpl in Hin.
  destruct Hin as [H|[H|[H|[H|[]]]]]; injection H as <- <-.
  - exists TOKEN_TYPE_INT. repeat split; try discriminate.
    + exact (spells_word rest "i"%char (text "nt") eq_refl eq_refl Hrest).
    + apply Hm. simpl. tauto.
  - exists TOKEN_TYPE_FLOAT. repeat split; try discriminate.
    + exact (spells_word rest "f"%char (text "loat") eq_refl eq_refl Hrest).
    + apply Hm. simpl. tauto.
  - exists TOKEN_TYPE_BOOL. repeat split; try discriminate.
    + exact (spells_word rest "b"%char (text "ool") eq_refl eq_refl Hrest).
    + apply Hm. simpl. tauto.
  - exists TOKEN_TYPE_STRING. repeat split; try discriminate.
    + exact (spells_word rest "s"%char (text "tring") eq_refl eq_refl Hrest).
    + apply Hm. simpl. tauto.
Qed.

(** Each literal text is one token, of which [parse_literal] makes the
    literal's value. *)
Lemma literal_spelled lit v ws c r :
  literal_text lit v ->
  forallb blank ws = true ->
  c = ";"%char ->
  exists type value,
    spells (ws ++ c :: r) lit type value /\
    (type = TOKEN_STRING -> value_type v = VALUE_STRING) /\
    forall p g,
      tok_type (current p) = type -> tok_value (current p) = value ->
      parse_literal p g
      = ('(p1, g1) <- Parse.advance p g ;;
         Ok (Some (NODE_LITERAL (tok_line (current p))
                     (tok_column (current p)) v), p1, g1)).
Proof.
  intros Hl Hw ->.
  assert (Hword : starts_with word_char (ws ++ ";"%char :: r) = false).
  { apply gap_then; trivial. intros x Hx.
    now destruct (blank_is_no_token_byte x Hx) as (-> & _). }
  assert (Hdigit : starts_with isdigit (ws ++ ";"%char :: r) = false).
  { apply gap_then; trivial. intros x Hx.
    now destruct (blank_is_no_token_byte x Hx) as (_ & -> & _). }
  assert (Hexp : starts_with exponent_mark (ws ++ ";"%char :: r) = false).
  { apply gap_then; trivial. intros x Hx.
    now destruct (blank_is_no_token_byte x Hx) as (_ & _ & -> & _). }
  assert (Hfrac : starts_fraction (ws ++ ";"%char :: r) = false)
    by (now apply gap_then_no_fraction).
  destruct Hl as [d ds Hd|d ds d2 ds2 Hd Hd2|c body Hbody| | | ].
  - eexists. eexists. split; [exact (spells_int _ d ds Hd Hdigit Hfrac)|].
    split; [discriminate|]. intros p g Ht Hv.
    unfold parse_literal, payload_int. now rewrite Ht, Hv.
  - eexists. eexists.
    split; [exact (spells_float _ d ds d2 ds2 Hd Hd2 Hdigit Hexp)|].
    split; [discriminate|]. intros p g Ht Hv.
    unfold parse_literal, payload_float. now rewrite Ht, Hv.
  - eexists. eexists. split; [exact (spells_string _ c body Hbody)|].
    split; [reflexivity|]. intros p g Ht Hv.
    unfold parse_literal, payload_string. now rewrite Ht, Hv.
  - eexists. eexists.
    split; [exact (spells_word _ "t"%char (text "rue") eq_refl eq_refl Hword)|].
    split; [discriminate|]. intros p g Ht Hv.
    unfold parse_literal. now rewrite Ht.
  - eexists. eexists.
    split;
      [exact (spells_word _ "f"%char (text "alse") eq_refl eq_refl Hword)|].
    split; [discriminate|]. intros p g Ht Hv.
    unfold parse_literal. now rewrite Ht.
  - eexists. eexists.
    split; [exact (spells_word _ "n"%char (text "ull") eq_refl eq_refl Hword)|].
    split; [discriminate|]. intros p g Ht Hv.
    unfold parse_literal. now rewrite Ht.
Qed.

(** The loop of [string] over a body that runs to the end of the
    source. *)
Lemma string_loop_run_end body :
  forall l fuel,
    in_bounds l ->
    rest_of l = body ->
    forallb string_byte body = true ->
    (List.length (lex_source l) - lex_current l < fuel)%nat ->
    string_loop fuel l = Ok (over l body) /\
    Lex.is_at_end (over l body) = Ok true.
Proof.
  induction body as [|c body IH]; intros l fuel Hb Hr Hw Hf;
    (destruct fuel as [|fuel]; [lia|]); cbn [string_loop].
  - pose proof (rest_nil_peek l Hb Hr) as Hp.
    change (over l []) with l.
    unfold Lex.is_at_end. rewrite Hp. split; reflexivity.
  - simpl in Hw. apply andb_prop in Hw. destruct Hw as [Hc Hws].
    pose proof (rest_cons l c _ Hr) as (Hp & _).
    pose proof (skipn_cons_inv NUL _ _ _ _ Hr) as (Hlt & _).
    pose proof (rest_of_step_over l c _ Hr) as (Hr1 & Hb1 & Ha).
    unfold Lex.is_at_end at 1. rewrite Hp. cbn [bind].
    unfold string_byte in Hc. rewrite Hc. cbn [bind].
    unfold is_newline in Ha. rewrite Ha. cbn [bind].
    unfold over. simpl. fold (over (step_over l c) body).
    apply IH; try assumption.
    unfold step_over. destruct (is_newline c); simpl; lia.
Qed.

(** An opening quote, one byte and a body free of quotes that runs to
    the end of the source: on an empty slot [scan_token] raises
    "Unterminated string." with a span from the quote to the end. *)
Lemma scan_token_open_string_here (l : Lexer) (g : KasdState) (c : ascii)
    (body : list ascii) :
  rest_of l = (QUOTE :: c :: body)%list ->
  forallb string_byte body = true ->
  pending g = false ->
  let l2 := over (moved (mark_start l) 2) body in
  scan_token l g
  = Ok (mkToken TOKEN_EOF (InMessage "Unterminated string.") 20
          (lex_line l2) (lex_column l2) NoValue,
        Lex.set_had_error l2,
        mkState (log_level g)
          (mkError ERROR_SYNTAX (lex_line l2) (lex_column l2)
             (Some "Unterminated string."%string)
             (Some (strdup (lex_source l))) (Z.of_nat (lex_current l))
             (Z.of_nat (2 + List.length body)) true)).
Proof.
  intros Hr Hbody Hp l2.
  assert (Hq : blank QUOTE = false /\ QUOTE <> NUL)
    by (split; [reflexivity|discriminate]).
  destruct Hq as [Hqb Hqn].
  rewrite (scan_token_enters l g QUOTE _ Hr Hqb Hqn).
  change (char_classes QUOTE) with CHAR_QUOTE. cbv iota.
  pose proof (rest_cons (mark_start l) QUOTE _ Hr) as (_ & _ & Hr1 & Hb1).
  pose proof (rest_cons _ c _ Hr1) as (_ & Ha1 & Hr2 & Hb2).
  rewrite moved_moved in Ha1, Hr2, Hb2. cbn [Nat.add] in Ha1, Hr2, Hb2.
  unfold string_. rewrite Ha1. cbn [bind].
  destruct (string_loop_run_end body _ _ Hb2 Hr2 Hbody (fuel_enough _))
    as [Hloop Hend].
  rewrite Hloop. cbn [bind]. fold l2. fold l2 in Hend. rewrite Hend.
  cbn [bind].
  destruct (over_fields body (moved (mark_start l) 2))
    as (Fs & Fc & Ft & Fe & Fl). fold l2 in Fs, Fc, Ft, Fe, Fl.
  unfold error_token, set_error. unfold pending in Hp. rewrite Hp.
  unfold ptr_diff.
  cbn [Lex.set_had_error lex_line lex_column lex_source lex_start
       lex_current option_map].
  rewrite Fs, Fc, Ft.
  cbn [moved mark_start lex_source lex_start lex_current].
  repeat f_equal; lia.
Qed.

(** A declaration, whatever its blanks, with a tail after its
    semicolon: the parser's [advance] takes its seven tokens without a
    diagnostic and leaves the lexer in front of the tail; whatever token
    [scan_token] makes of the tail, [parse_declaration] returns the
    declaration and stops at that token with the error flag unset. *)
Lemma parse_declaration_run gap c w ty T lit v g tail :
  (forall i, forallb blank (gap i) = true) ->
  gap 1%nat <> [] ->
  word_start c = true ->
  forallb word_char w = true ->
  check_keyword_from keywords (c :: w) = TOKEN_IDENTIFIER ->
  In (ty, T) type_words ->
  literal_text lit v ->
  exists p0 l7 t7 at_literal,
    init_parser (init_lexer (declaration_then gap (c :: w) ty lit tail)) g
    = Ok (p0, g) /\
    in_bounds l7 /\ rest_of l7 = tail /\
    lex_source l7 = declaration_then gap (c :: w) ty lit tail /\
    (value_type v <> VALUE_STRING ->
     at_literal = place (1, 1) (before_literal gap (c :: w) ty) /\
     position l7
     = place (1, 1) (declaration_prefix 7 gap (c :: w) ty lit)) /\
    forall t8 l8 g8,
      scan_token l7 g = Ok (t8, l8, g8) ->
      lex_source l8 = lex_source l7 ->
      parse_declaration p0 g
      = Ok (Some (NODE_VARIABLE_DECLARATION
                    (fst (place (1, 1) (gap 0%nat ++ text "let" ++ gap 1%nat)))
                    (snd (place (1, 1) (gap 0%nat ++ text "let" ++ gap 1%nat)))
                    (string_of_list_ascii (c :: w)) T
                    (NODE_LITERAL (fst at_literal) (snd at_literal) v)),
            mkParser l8 t8 t7 false false, g8).
Proof.
  intros Hgap Hgap1 Hc Hw Hname Hty Hlit.
  set (source := declaration_then gap (c :: w) ty lit tail) in *.
  set (r7 := tail).
  set (r6 := (gap 6%nat ++ ";"%char :: r7)%list).
  set (r5 := (gap 5%nat ++ lit ++ r6)%list).
  set (r4 := (gap 4%nat ++ ["="%char] ++ r5)%list).
  set (r3 := (gap 3%nat ++ ty ++ r4)%list).
  set (r2 := (gap 2%nat ++ [":"%char] ++ r3)%list).
  set (r1 := (gap 1%nat ++ (c :: w) ++ r2)%list).
  assert (Hsource : source = (gap 0%nat ++ text "let" ++ r1)%list)
    by reflexivity.
  assert (Hblank : forall x, blank x = true -> word_char x = false).
  { intros x Hx. now destruct (blank_is_no_token_byte x Hx) as (-> & _). }
  (* let *)
  assert (S1 : spells r1 (text "let") TOKEN_LET NoValue).
  { apply (spells_word r1 "l"%char (text "et") eq_refl eq_refl).
    unfold r1. destruct (gap 1%nat) as [|b bs] eqn:E; [now elim Hgap1|].
    simpl. apply Hblank. specialize (Hgap 1%nat). rewrite E in Hgap.
    simpl in Hgap. now apply andb_prop in Hgap. }
  destruct (advance_spelled
              (mkParser (init_lexer source) uninitialised_token
                 uninitialised_token false false)
              g (gap 0%nat) (text "let") r1 _ _ S1 (Nat.le_0_l _) Hsource
              (Hgap 0%nat))
    as (t1 & l1 & A1 & Y1 & _ & R1 & B1 & C1 & P1).
  cbn [lexer current had_error panic_mode] in A1, C1, P1.
  destruct (P1 ltac:(discriminate)) as (_ & P1' & _). clear P1.
  (* the name *)
  assert (S2 : spells r2 (c :: w) TOKEN_IDENTIFIER NoValue).
  { rewrite <- Hname. apply spells_word; trivial.
    unfold r2. now apply gap_then. }
  destruct (advance_spelled (mkParser l1 t1 uninitialised_token false false)
              g (gap 1%nat) (c :: w) r2 _ _ S2 B1 R1 (Hgap 1%nat))
    as (t2 & l2 & A2 & Y2 & _ & R2 & B2 & C2 & P2).
  cbn [lexer current had_error panic_mode] in A2, C2, P2.
  destruct (P2 ltac:(discriminate)) as (N2 & P2' & X2 & _). clear P2.
  (* the colon *)
  destruct (advance_spelled (mkParser l2 t2 t1 false false)
              g (gap 2%nat) [":"%char] r3 _ _ (spells_colon r3) B2 R2
              (Hgap 2%nat))
    as (t3 & l3 & A3 & Y3 & _ & R3 & B3 & C3 & P3).
  cbn [lexer current had_error panic_mode] in A3, C3, P3.
  destruct (P3 ltac:(discriminate)) as (_ & P3' & _). clear P3.
  (* the type *)
  assert (H4 : starts_with word_char r4 = false)
    by (unfold r4; now apply gap_then).
  destruct (type_word_spelled ty T r4 Hty H4) as (tt & S4 & M4 & D4 & F4).
  destruct (advance_spelled (mkParser l3 t3 t2 false false)
              g (gap 3%nat) ty r4 _ _ S4 B3 R3 (Hgap 3%nat))
    as (t4 & l4 & A4 & Y4 & _ & R4 & B4 & C4 & P4).
  cbn [lexer current had_error panic_mode] in A4, C4, P4.
  destruct (P4 D4) as (_ & P4' & _). clear P4.
  (* the equal sign *)
  destruct (advance_spelled (mkParser l4 t4 t3 false false)
              g (gap 4%nat) ["="%char] r5 _ _ (spells_equal r5) B4 R4
              (Hgap 4%nat))
    as (t5 & l5 & A5 & Y5 & _ & R5 & B5 & C5 & P5).
  cbn [lexer current had_error panic_mode] in A5, C5, P5.
  destruct (P5 ltac:(discriminate)) as (_ & P5' & _). clear P5.
  (* the literal *)
  destruct (literal_spelled lit v (gap 6%nat) ";"%char r7 Hlit (Hgap 6%nat)
              eq_refl) as (ltype & lvalue & S6 & V6 & L6).
  fold r6 in S6.
  destruct (advance_spelled (mkParser l5 t5 t4 false false)
              g (gap 5%nat) lit r6 _ _ S6 B5 R5 (Hgap 5%nat))
    as (t6 & l6 & A6 & Y6 & W6 & R6 & B6 & C6 & P6).
  cbn [lexer current had_error panic_mode] in A6, C6, P6.
  (* the semicolon *)
  destruct (advance_spelled (mkParser l6 t6 t5 false false)
              g (gap 6%nat) [";"%char] r7 _ _ (spells_semicolon r7) B6 R6
              (Hgap 6%nat))
    as (t7 & l7 & A7 & Y7 & _ & R7 & B7 & C7 & P7).
  cbn [lexer current had_error panic_mode] in A7, C7, P7.
  destruct (P7 ltac:(discriminate)) as (_ & P7' & _). clear P7.
  (* what comes after the semicolon *)
  assert (C7' : lex_source l7 = source) by (now rewrite C7, C6, C5, C4, C3, C2).
  exists (mkParser l1 t1 uninitialised_token false false), l7, t7,
         (tok_line t6, tok_column t6).
  split; [exact A1|]. split; [exact B7|]. split; [exact R7|].
  split; [exact C7'|]. split.
  - intros Hv.
    assert (D6 : ltype <> TOKEN_STRING) by (intros E; exact (Hv (V6 E))).
    destruct (P6 D6) as (N6 & P6' & _). split.
    + rewrite N6, P5', P4', P3', P2', P1'. unfold before_literal.
      change (position (init_lexer source)) with (1, 1).
      rewrite <- !place_app. f_equal.
      rewrite <- !app_assoc. reflexivity.
    + rewrite P7', P6', P5', P4', P3', P2', P1'.
      change (position (init_lexer source)) with (1, 1).
      rewrite <- !place_app. f_equal. unfold declaration_prefix.
      cbn [firstn List.concat]. rewrite <- !app_assoc, ?app_nil_r.
      reflexivity.
  - intros t8 l8 g8 A8' C8.
    assert (A8 : Parse.advance (mkParser l7 t7 t6 false false) g
                 = Ok (mkParser l8 t8 t7 false false, g8))
      by (unfold Parse.advance; cbn [lexer]; now rewrite A8').
    unfold parse_declaration, parse_variable_declaration, consume,
      parse_expression, check.
    cbn [current]. rewrite Y1. cbn [TokenType_eqb]. rewrite A2.
    cbn [bind negb current previous]. rewrite Y2. cbn [TokenType_eqb].
    rewrite A3. cbn [bind negb current previous]. rewrite Y3.
    cbn [TokenType_eqb]. rewrite A4. cbn [bind negb current previous].
    rewrite (F4 (mkParser l4 t4 t3 false false) g _ _ Y4 A5).
    cbn [bind negb current previous]. rewrite Y5. cbn [TokenType_eqb].
    rewrite A6. cbn [bind negb current previous].
    rewrite (L6 (mkParser l6 t6 t5 false false) g Y6 W6), A7.
    cbn [bind negb current previous]. rewrite Y7. cbn [TokenType_eqb].
    rewrite A8. cbn [bind negb current previous lexer had_error].
    rewrite M4.
    rewrite C8, C7, C6, C5, C4, C3, C2, X2.
    replace (gap 0%nat ++ text "let" ++ gap 1%nat)%list
      with ((gap 0%nat ++ text "let") ++ gap 1%nat)%list
      by (now rewrite <- app_assoc).
    rewrite place_app.
    change (1, 1) with (position (init_lexer source)).
    rewrite <- P1', <- N2. reflexivity.
Qed.

(** A declaration, whatever its blanks, followed by a tail at which
    [scan_token] hands back a token of type EOF: [parse] returns the
    declaration with the error flag unset, and the diagnostic slot is
    the one that last call of [scan_token] left. *)
Lemma parse_declaration_then gap c w ty T lit v g tail
    (Q : KasdState -> Prop) :
  (forall i, forallb blank (gap i) = true) ->
  gap 1%nat <> [] ->
  word_start c = true ->
  forallb word_char w = true ->
  check_keyword_from keywords (c :: w) = TOKEN_IDENTIFIER ->
  In (ty, T) type_words ->
  literal_text lit v ->
  (forall l7,
     in_bounds l7 -> rest_of l7 = tail ->
     lex_source l7 = declaration_then gap (c :: w) ty lit tail ->
     exists t8 l8 g8,
       scan_token l7 g = Ok (t8, l8, g8) /\ tok_type t8 = TOKEN_EOF /\
       lex_source l8 = lex_source l7 /\ Q g8) ->
  exists p0 p1 at_literal g8,
    init_parser (init_lexer (declaration_then gap (c :: w) ty lit tail)) g
    = Ok (p0, g) /\
    parse p0 g
    = Ok (Some (NODE_VARIABLE_DECLARATION
                  (fst (place (1, 1) (gap 0%nat ++ text "let" ++ gap 1%nat)))
                  (snd (place (1, 1) (gap 0%nat ++ text "let" ++ gap 1%nat)))
                  (string_of_list_ascii (c :: w)) T
                  (NODE_LITERAL (fst at_literal) (snd at_literal) v)),
          p1, g8) /\
    had_error p1 = false /\ Q g8 /\
    (value_type v <> VALUE_STRING ->
     at_literal = place (1, 1) (before_literal gap (c :: w) ty)).
Proof.
  intros Hgap Hgap1 Hc Hw Hname Hty Hlit Htail.
  destruct (parse_declaration_run gap c w ty T lit v g tail Hgap Hgap1 Hc Hw
              Hname Hty Hlit)
    as (p0 & l7 & t7 & at_literal & Hinit & B7 & R7 & C7 & Hat & Hdecl).
  destruct (Htail l7 B7 R7 C7) as (t8 & l8 & g8 & A8 & Y8 & C8 & HQ).
  exists p0, (mkParser l8 t8 t7 false false), at_literal, g8.
  split; [exact Hinit|]. split; [|split; [reflexivity|split; [exact HQ|]]].
  - unfold parse. rewrite (Hdecl t8 l8 g8 A8 C8). cbn [bind].
    unfold check. cbn [current]. rewrite Y8. reflexivity.
  - intros Hv. exact (proj1 (Hat Hv)).
Qed.

(** X16. A source that is one declaration, [let], a name that is no
    keyword, a colon, one of the type names [int], [float], [bool] and
    [string], an equal sign, a literal and a semicolon, with any blanks
    (newlines included) before, between and after them and at least one
    between [let] and the name, is parsed without a diagnostic into the
    declaration of that name, type and literal value, placed at the
    name's line and column as the lexer counts them. When
    [check_types_compatible] accepts the declared type with the
    literal's type the run succeeds, binds the name to the value in the
    empty environment and leaves the diagnostic slot as it was, echoing
    the binding in REPL mode only; otherwise it raises the Type
    diagnostic at the literal, prints the slot and returns false. *)
Theorem run_source_accepts_declaration (gap : nat -> list ascii)
    (c : ascii) (w ty lit : list ascii) (T : ValueType) (v : Value)
    (repl : bool) (g : KasdState) :
  (forall i, forallb blank (gap i) = true) ->
  gap 1%nat <> [] ->
  word_start c = true ->
  forallb word_char w = true ->
  check_keyword_from keywords (c :: w) = TOKEN_IDENTIFIER ->
  In (ty, T) type_words ->
  literal_text lit v ->
  let name := string_of_list_ascii (c :: w) in
  let at_name := place (1, 1) (gap 0%nat ++ text "let" ++ gap 1%nat) in
  exists at_literal,
    (value_type v <> VALUE_STRING ->
     at_literal = place (1, 1) (before_literal gap (c :: w) ty)) /\
    let decl :=
      NODE_VARIABLE_DECLARATION (fst at_name) (snd at_name) name T
        (NODE_LITERAL (fst at_literal) (snd at_literal) v) in
    run_source (declaration_text gap (c :: w) ty lit) repl g
    = Ok (if check_types_compatible T (value_type v)
          then mkRun true (Some decl) ReportNothing
                 (Some (v, mkInterpreter [(name, v)] false repl,
                        if repl
                        then [mkEcho name (value_type_to_string T) v]
                        else []))
                 g
          else
            let g' :=
              set_error ERROR_TYPE (fst at_literal) (snd at_literal)
                (type_mismatch (value_type v) T) None 0 0 g in
            mkRun false (Some decl) (snd (print_error g')) None g').
Proof.
  intros Hgap Hgap1 Hc Hw Hname Hty Hlit name at_name.
  destruct (parse_declaration_then gap c w ty T lit v g (gap 7%nat)
              (fun g8 => g8 = g) Hgap Hgap1 Hc Hw Hname Hty Hlit)
    as (p0 & p1 & at_literal & g8 & Hinit & Hparse & Herr & -> & Hat).
  { intros l7 B7 R7 C7.
    assert (R7' : rest_of l7 = (gap 7%nat ++ [] ++ [])%list)
      by (now rewrite !app_nil_r).
    destruct (scan_spelled l7 g (gap 7%nat) [] [] _ _ (spells_eof [] eq_refl)
                B7 R7' (Hgap 7%nat))
      as (t8 & l8 & Hscan & Y8 & _ & _ & _ & C8 & _).
    now exists t8, l8, g. }
  exists at_literal. split; [exact Hat|].
  fold (declaration_text gap (c :: w) ty lit) in Hinit.
  unfold run_source. rewrite Hinit. cbn [bind]. rewrite Hparse.
  cbn [bind]. rewrite Herr. cbn [orb is_null].
  unfold analyze, analyze_node, analyze_variable_declaration,
    init_semantic_analyzer.
  cbn [symbol_table find_symbol get_node_type node_line node_column
       sem_had_error].
  destruct (check_types_compatible T (value_type v)); cbn [negb].
  - cbn [andb negb sem_had_error]. unfold interpret, init_interpreter.
    cbn [evaluate_node env env_define env_overwrite int_had_error repl_mode].
    destruct repl; reflexivity.
  - cbn [andb negb set_sem_error sem_had_error].
    destruct (print_error _) as [g2 report] eqn:Hprint.
    pose proof (f_equal fst Hprint) as Hk.
    rewrite print_error_keeps_slot in Hk. simpl in Hk. subst g2.
    reflexivity.
Qed.

Lemma run_source_accepts_declaration_witness :
  run_source
    (text "let total: int =" ++ "010"%char :: text " 42;" ++ ["010"%char])
    true (init_kasd_state 1)
  = Ok (mkRun true
          (Some (NODE_VARIABLE_DECLARATION 1 5 "total" VALUE_INT
                   (NODE_LITERAL 2 3 (VInt 42))))
          ReportNothing
          (Some (VInt 42, mkInterpreter [("total"%string, VInt 42)] false true,
                 [mkEcho "total" "int" (VInt 42)]))
          (init_kasd_state 1)) /\
  run_source (text "let r: float = 0.1;") false (init_kasd_state 1)
  = Ok (mkRun true
          (Some (NODE_VARIABLE_DECLARATION 1 5 "r" VALUE_FLOAT
                   (NODE_LITERAL 1 16
                      (VFloat
                         (SpecFloat.S754_finite false 7205759403792794
                            (-56))))))
          ReportNothing
          (Some (VFloat (SpecFloat.S754_finite false 7205759403792794 (-56)),
                 mkInterpreter
                   [("r"%string,
                     VFloat
                       (SpecFloat.S754_finite false 7205759403792794 (-56)))]
                   false false,
                 []))
          (init_kasd_state 1)).
Proof.
  split.
  - destruct (run_source_accepts_declaration
                (fun i => nth i [ []; text " "; []; text " "; text " ";
                                  ["010"%char; " "%char]; []; ["010"%char] ]
                            [])
                "t"%char (text "otal") (text "int") (text "42") VALUE_INT
                (VInt 42) true (init_kasd_state 1))
      as (at_literal & Hat & Hrun).
    + intros i. do 8 (destruct i as [|i]; [reflexivity|]). now destruct i.
    + discriminate.
    + reflexivity.
    + reflexivity.
    + reflexivity.
    + simpl. tauto.
    + exact (literal_int "4"%char (text "2") eq_refl).
    + rewrite (Hat ltac:(discriminate)) in Hrun. exact Hrun.
  - destruct (run_source_accepts_declaration
                (fun i => nth i [ []; text " "; []; text " "; text " ";
                                  text " " ] [])
                "r"%char [] (text "float") (text "0.1") VALUE_FLOAT
                (VFloat (SpecFloat.S754_finite false 7205759403792794 (-56)))
                false (init_kasd_state 1))
      as (at_literal & Hat & Hrun).
    + intros i. do 6 (destruct i as [|i]; [reflexivity|]). now destruct i.
    + discriminate.
    + reflexivity.
    + reflexivity.
    + reflexivity.
    + simpl. tauto.
    + exact (literal_float "0"%char [] "1"%char [] eq_refl eq_refl).
    + rewrite (Hat ltac:(discriminate)) in Hrun. exact Hrun.
Defined.

(** ** Lexical errors after a declaration *)

Lemma declaration_then_tail gap name type literal tail :
  declaration_then gap name type literal tail
  = (declaration_then gap name type literal [] ++ tail)%list.
Proof.
  unfold declaration_then. rewrite <- !app_assoc. reflexivity.
Qed.

Lemma current_of_rest l pre tail :
  in_bounds l -> lex_source l = (pre ++ tail)%list -> rest_of l = tail ->
  lex_current l = List.length pre.
Proof.
  unfold in_bounds, rest_of. intros Hb Hs Hr.
  apply (f_equal (@List.length ascii)) in Hr.
  rewrite length_skipn, Hs, length_app in Hr.
  rewrite Hs, length_app in Hb. lia.
Qed.

(** What [scan_token] answers in front of blanks and a lexical error,
    on an empty slot. *)
Lemma scan_lexical_error l g ws bad message span :
  lexical_error bad message span ->
  in_bounds l ->
  rest_of l = (ws ++ bad)%list ->
  forallb blank ws = true ->
  pending g = false ->
  exists t l' line column,
    scan_token l g
    = Ok (t, l',
          mkState (log_level g)
            (mkError ERROR_SYNTAX line column (Some message)
               (Some (strdup (lex_source l)))
               (Z.of_nat (lex_current l + List.length ws)) span true)) /\
    tok_type t = TOKEN_EOF /\ lex_source l' = lex_source l.
Proof.
  intros He Hb Hr Hw Hp.
  destruct (over_fields ws l) as (Fs & Fc & _).
  destruct He as [x junk K H1 H2 H3|c body Hbody].
  - assert (Hbl : blank x = false) by (unfold blank; now rewrite K).
    destruct (scan_after_blanks l g ws _ Hb Hr Hw Hbl) as (-> & Hr1 & _).
    destruct (scan_token_special_here _ g x junk Hr1 K)
      as (_ & _ & _ & Hscan).
    rewrite (Hscan H1 H2 H3 Hp), Fs, Fc.
    do 4 eexists. split; [reflexivity|]. split; [reflexivity|exact Fs].
  - destruct (scan_after_blanks l g ws _ Hb Hr Hw eq_refl)
      as (-> & Hr1 & _).
    rewrite (scan_token_open_string_here _ g c body Hr1 Hbody Hp), Fs, Fc.
    do 4 eexists. split; [reflexivity|]. split; [reflexivity|].
    cbn [Lex.set_had_error lex_source].
    destruct (over_fields body (moved (mark_start (over l ws)) 2))
      as (-> & _).
    exact Fs.
Qed.

(** X17. A declaration as in X16 followed, after any blanks, by a
    lexical error, a byte that starts no token or a string that is not
    closed: the lexer raises its Syntax diagnostic and hands back a
    token of type EOF, which [parse] takes for the end of the source
    without setting its error flag. When the types are compatible
    [run_source] therefore returns true and binds the name as if the
    source had ended after the declaration, prints nothing and leaves
    the lexer's diagnostic pending in the slot; when they are not, it
    returns false and what it prints is the lexer's diagnostic, the
    Type mismatch being dropped by [set_error]. *)
Theorem run_source_past_lexical_error (gap : nat -> list ascii)
    (c : ascii) (w ty lit bad : list ascii) (T : ValueType) (v : Value)
    (message : string) (span : Z) (repl : bool) (g : KasdState) :
  (forall i, forallb blank (gap i) = true) ->
  gap 1%nat <> [] ->
  word_start c = true ->
  forallb word_char w = true ->
  check_keyword_from keywords (c :: w) = TOKEN_IDENTIFIER ->
  In (ty, T) type_words ->
  literal_text lit v ->
  lexical_error bad message span ->
  pending g = false ->
  let name := string_of_list_ascii (c :: w) in
  let at_name := place (1, 1) (gap 0%nat ++ text "let" ++ gap 1%nat) in
  let whole := declaration_text gap (c :: w) ty lit in
  let source := (whole ++ bad)%list in
  exists at_literal line column,
    let decl :=
      NODE_VARIABLE_DECLARATION (fst at_name) (snd at_name) name T
        (NODE_LITERAL (fst at_literal) (snd at_literal) v) in
    let g' :=
      mkState (log_level g)
        (mkError ERROR_SYNTAX line column (Some message)
           (Some (strdup source)) (Z.of_nat (List.length whole)) span true) in
    run_source source repl g
    = Ok (if check_types_compatible T (value_type v)
          then mkRun true (Some decl) ReportNothing
                 (Some (v, mkInterpreter [(name, v)] false repl,
                        if repl
                        then [mkEcho name (value_type_to_string T) v]
                        else []))
                 g'
          else mkRun false (Some decl)
                 (ReportCaret ERROR_SYNTAX line column (Some message)
                    (strdup source) (Z.of_nat (List.length whole)) span)
                 None g').
Proof.
  intros Hgap Hgap1 Hc Hw Hname Hty Hlit Hbad Hp name at_name whole source.
  assert (Hsource : source
                    = declaration_then gap (c :: w) ty lit (gap 7%nat ++ bad)).
  { unfold source, whole, declaration_text.
    rewrite (declaration_then_tail _ _ _ _ (gap 7%nat ++ bad)).
    rewrite (declaration_then_tail _ _ _ _ (gap 7%nat)).
    now rewrite <- app_assoc. }
  destruct (parse_declaration_then gap c w ty T lit v g (gap 7%nat ++ bad)
              (fun g8 =>
                 exists line column,
                   g8 = mkState (log_level g)
                          (mkError ERROR_SYNTAX line column (Some message)
                             (Some (strdup source))
                             (Z.of_nat (List.length whole)) span true))
              Hgap Hgap1 Hc Hw Hname Hty Hlit)
    as (p0 & p1 & at_literal & g8 & Hinit & Hparse & Herr & HQ & _).
  { intros l7 B7 R7 C7.
    destruct (scan_lexical_error l7 g (gap 7%nat) bad message span Hbad B7 R7
                (Hgap 7%nat) Hp)
      as (t8 & l8 & line & column & Hscan & Y8 & C8).
    exists t8, l8. eexists. split; [exact Hscan|].
    split; [exact Y8|]. split; [exact C8|].
    exists line, column. rewrite C7, <- Hsource.
    rewrite (declaration_then_tail _ _ _ _ (gap 7%nat ++ bad)) in C7.
    rewrite (current_of_rest l7 _ _ B7 C7 R7), <- length_app.
    unfold whole, declaration_text.
    now rewrite (declaration_then_tail _ _ _ _ (gap 7%nat)). }
  destruct HQ as (line & column & ->).
  exists at_literal, line, column.
  rewrite <- Hsource in Hinit.
  unfold run_source. rewrite Hinit. cbn [bind]. rewrite Hparse.
  cbn [bind]. rewrite Herr. cbn [orb is_null].
  unfold analyze, analyze_node, analyze_variable_declaration,
    init_semantic_analyzer.
  cbn [symbol_table find_symbol get_node_type node_line node_column
       sem_had_error].
  destruct (check_types_compatible T (value_type v)); cbn [negb].
  - cbn [andb negb sem_had_error]. unfold interpret, init_interpreter.
    cbn [evaluate_node env env_define env_overwrite int_had_error repl_mode].
    destruct repl; reflexivity.
  - cbn [andb negb set_sem_error sem_had_error].
    unfold set_error, print_error.
    cbn [error has_error negb err_source_line err_source_pos err_type
         err_line err_column err_message err_source_len].
    assert (H0 : (0 <=? Z.of_nat (List.length whole)) = true)
      by (apply Z.leb_le; lia).
    rewrite H0. reflexivity.
Qed.

Lemma run_source_past_lexical_error_witness :
  exists at_literal line column,
    run_source (text "let x: int = 1; @") false (init_kasd_state 1)
    = Ok (mkRun true
            (Some (NODE_VARIABLE_DECLARATION 1 5 "x" VALUE_INT
                     (NODE_LITERAL (fst at_literal) (snd at_literal)
                        (VInt 1))))
            ReportNothing
            (Some (VInt 1, mkInterpreter [("x"%string, VInt 1)] false false,
                   []))
            (mkState 1
               (mkError ERROR_SYNTAX line column
                  (Some "Unexpected character: '@'"%string)
                  (Some (text "let x: int = 1; @")) 16 1 true))).
Proof.
  refine (run_source_past_lexical_error
            (fun i => nth i [ []; text " "; []; text " "; text " ";
                              text " "; []; text " " ] [])
            "x"%char [] (text "int") (text "1") (text "@") VALUE_INT (VInt 1)
            "Unexpected character: '@'" 1 false (init_kasd_state 1)
            _ _ eq_refl eq_refl eq_refl _
            (literal_int "1"%char [] eq_refl) _ eq_refl).
  - intros i. do 8 (destruct i as [|i]; [reflexivity|]). now destruct i.
  - discriminate.
  - simpl. tauto.
  - apply (unexpected_byte "@"%char []); [reflexivity|discriminate..].
Defined.

(** ** The REPL (main.c) *)

Lemma run_source_log_level source repl g r :
  run_source source repl g = Ok r -> log_level (run_state r) = log_level g.
Proof.
  unfold run_source. intros H. step_in H r0 Ei. destruct r0 as [p0 g0].
  pose proof (init_parser_spec _ _ _ _ Ei) as (Hh0 & _ & _).
  unfold init_parser in Ei. apply parser_advance_raised in Ei.
  destruct Ei as [R0 _].
  step_in H r1 Ep. destruct r1 as [[ast p1] g1].
  pose proof (parse_spec _ _ _ _ _ Hh0 Ep) as (R1 & _ & _).
  assert (L1 : log_level g1 = log_level g).
  { destruct (raised_syntax_trans _ _ _ R0 R1) as [->|(_ & _ & _ & D)];
      [reflexivity|exact D]. }
  destruct (had_error p1 || is_null ast).
  - pose proof (print_error_keeps_slot g1) as Hk.
    destruct (print_error g1) as [g2 report]. simpl in Hk. subst g2.
    injection H as <-. exact L1.
  - destruct (analyze init_semantic_analyzer ast g1) as [[ok a] g2] eqn:Ea.
    assert (L2 : log_level g2 = log_level g1).
    { unfold analyze, analyze_node, analyze_variable_declaration in Ea.
      destruct ast as [[line column name var_type init|line column v]|];
        simpl in Ea; try (injection Ea as _ _ <-; reflexivity).
      destruct (check_types_compatible var_type (get_node_type init));
        simpl in Ea; injection Ea as _ _ <-;
        [reflexivity|apply set_error_log_level]. }
    destruct (negb ok).
    + pose proof (print_error_keeps_slot g2) as Hk.
      destruct (print_error g2) as [g3 report]. simpl in Hk. subst g3.
      injection H as <-. simpl. congruence.
    + injection H as <-. simpl. congruence.
Qed.

Lemma fgets_bytes_split room :
  forall stdin line stdin',
    fgets_bytes room stdin = (line, stdin') ->
    stdin = (line ++ stdin')%list /\
    (room <> 0%nat -> stdin <> [] -> line <> []).
Proof.
  induction room as [|room IH]; intros stdin line stdin' H; simpl in H.
  - injection H as <- <-. split; [reflexivity|]. intros E. now elim E.
  - destruct stdin as [|c rest].
    + injection H as <- <-. split; [reflexivity|]. intros _ E. now elim E.
    + destruct (Ascii.eqb c "010").
      * injection H as <- <-. split; [reflexivity|discriminate].
      * destruct (fgets_bytes room rest) as [l r] eqn:E.
        injection H as <- <-. destruct (IH _ _ _ E) as [-> _].
        split; [reflexivity|discriminate].
Qed.

Lemma fgets_takes line size stdin line' stdin' :
  (1 < size)%nat ->
  fgets line size stdin = Some (line', stdin') ->
  exists taken,
    stdin = (taken ++ stdin')%list /\
    line' = (taken ++ NUL :: skipn (S (List.length taken)) line)%list /\
    (List.length stdin' < List.length stdin)%nat.
Proof.
  intros Hs H. unfold fgets in H.
  destruct stdin as [|c rest]; [discriminate|].
  destruct (fgets_bytes (size - 1) (c :: rest)) as [taken rest'] eqn:E.
  injection H as <- <-. apply fgets_bytes_split in E.
  destruct E as [E Hne]. exists taken. split; [exact E|].
  split; [reflexivity|].
  rewrite E, length_app.
  destruct taken; [elim Hne; [lia|discriminate|reflexivity]|simpl; lia].
Qed.

Lemma last_behind {A : Type} (a b : list A) (d : A) :
  b <> [] -> last (a ++ b) d = last b d.
Proof.
  intros Hb. induction a as [|x a IH]; [reflexivity|].
  simpl. rewrite IH. destruct (a ++ b)%list eqn:E; [|reflexivity].
  apply app_eq_nil in E. now destruct E.
Qed.

(** The array always ends with the NUL [fgets] wrote last, the one
    [line_buffer] leaves to [read]. *)
Lemma fgets_keeps_last_nul line size stdin line' stdin' :
  (1 < size)%nat ->
  (line = [] \/ last line "a"%char = NUL) ->
  fgets line size stdin = Some (line', stdin') ->
  last line' "a"%char = NUL /\
  (line_buffer line' ++ [NUL])%list = line'.
Proof.
  intros Hs Hinv H.
  destruct (fgets_takes _ _ _ _ _ Hs H) as (taken & _ & -> & _).
  assert (Hlast : last (taken ++ NUL :: skipn (S (List.length taken)) line)
                    "a"%char = NUL).
  { rewrite last_behind by discriminate.
    destruct (skipn (S (List.length taken)) line) as [|b tl] eqn:E;
      [reflexivity|].
    destruct Hinv as [->|Hl]; [now rewrite skipn_nil in E|].
    rewrite <- (firstn_skipn (S (List.length taken)) line), E in Hl.
    rewrite last_behind in Hl by discriminate.
    change (NUL :: b :: tl) with ([NUL] ++ b :: tl)%list.
    now rewrite last_behind by discriminate. }
  split; [exact Hlast|].
  unfold line_buffer. rewrite <- Hlast at 2.
  symmetry. apply app_removelast_last.
  now destruct taken.
Qed.

(** X18. A REPL session started on the state [main] sets up, its
    array [line] not yet written to. The input is cut by [fgets] into
    lines, up to the end of the input or the first line that is exactly
    "exit"; each line is stored with its NUL at the start of the array,
    behind which the array keeps what longer lines left there, and
    [run_source] is handed the array. The session has a result exactly
    when every one of these runs, made in REPL mode from the initial
    state on the array as it then stands, has one; the results are then
    those of these runs, in order. No diagnostic of one line reaches a
    later line, and the session leaves the diagnostic slot as [main] had
    set it up: what a line can get from the lines before it is only the
    bytes they left behind its NUL. *)
Theorem repl_runs_each_line_from_a_clear_slot (stdin : list ascii) (log : Z)
    (rs : list RunResult) (g' : KasdState) :
  repl stdin (init_kasd_state log) = Ok (rs, g') <->
  g' = init_kasd_state log /\
  Forall2
    (fun source r => run_source source true (init_kasd_state log) = Ok r)
    (repl_sources (S (List.length stdin)) [] stdin) rs.
Proof.
  assert (Hloop : forall fuel line stdin rs g',
    (List.length stdin < fuel)%nat ->
    repl_loop fuel line stdin (init_kasd_state log) = Ok (rs, g') <->
    g' = init_kasd_state log /\
    Forall2
      (fun source r => run_source source true (init_kasd_state log) = Ok r)
      (repl_sources fuel line stdin) rs).
  { clear stdin rs g'.
    induction fuel as [|fuel IH]; intros line stdin rs g' Hf; [lia|].
    cbn [repl_loop repl_sources].
    destruct (fgets line MAX_LINE_LENGTH stdin) as [[line' stdin']|] eqn:Eg.
    2:{ split.
        - intros H. injection H as <- <-. split; [reflexivity|constructor].
        - intros [-> H]. inversion H. reflexivity. }
    destruct (strcmp_is_0 line' exit_line).
    { split.
      - intros H. injection H as <- <-. split; [reflexivity|constructor].
      - intros [-> H]. inversion H. reflexivity. }
    assert (Hlt : (List.length stdin' < fuel)%nat).
    { apply fgets_takes in Eg; [|unfold MAX_LINE_LENGTH; lia].
      destruct Eg as (taken & _ & _ & Hlt). lia. }
    assert (Hnext : forall r,
              run_source (line_buffer line') true (init_kasd_state log)
              = Ok r ->
              clear_error (run_state r) = init_kasd_state log).
    { intros r Hr. apply run_source_log_level in Hr.
      unfold clear_error. rewrite Hr. reflexivity. }
    split.
    - intros H. step_in H r Er. rewrite (Hnext r eq_refl) in H.
      step_in H r2 E2. destruct r2 as [rs2 g2]. injection H as <- <-.
      apply (IH line' stdin' rs2 g2 Hlt) in E2. destruct E2 as [-> F].
      split; [reflexivity|]. now constructor.
    - intros [-> F]. inversion F as [|source r sources rs2 Hr F2]; subst.
      rewrite Hr. cbn [bind]. rewrite (Hnext r Hr).
      assert (E2 : repl_loop fuel line' stdin' (init_kasd_state log)
                   = Ok (rs2, init_kasd_state log))
        by (apply (IH line' stdin' rs2 _ Hlt); auto).
      now rewrite E2. }
  unfold repl. apply Hloop. lia.
Qed.

Lemma repl_runs_each_line_from_a_clear_slot_witness :
  repl session_of_two_lines (init_kasd_state 1)
  = Ok ([ mkRun true
            (Some (NODE_VARIABLE_DECLARATION 1 5 "s" VALUE_STRING
                     (NODE_LITERAL 1 17 (VString "bcdef"))))
            ReportNothing
            (Some (VString "bcdef",
                   mkInterpreter [("s", VString "bcdef")] false true,
                   [mkEcho "s" "string" (VString "bcdef")]))
            (init_kasd_state 1);
          mkRun true
            (Some (NODE_VARIABLE_DECLARATION 1 5 "t" VALUE_STRING
                     (NODE_LITERAL 1 17 (VString "bcdef"))))
            ReportNothing
            (Some (VString "bcdef",
                   mkInterpreter [("t", VString "bcdef")] false true,
                   [mkEcho "t" "string" (VString "bcdef")]))
            (init_kasd_state 1) ],
        init_kasd_state 1).
Proof.
  apply (proj2 (repl_runs_each_line_from_a_clear_slot session_of_two_lines 1
                  _ _)).
  split; [reflexivity|].
  match goal with
  | |- Forall2 _ ?sources _ =>
      let sources' := eval vm_compute in sources in
      change sources with sources'
  end.
  repeat constructor; vm_compute; reflexivity.
Defined.

(** ** One analyzer over several trees (semantic.c) *)

Lemma find_symbol_none table name :
  find_symbol table name = None -> ~ In name (map fst table).
Proof.
  induction table as [|[n t] table IH]; simpl; [tauto|].
  destruct (String.eqb_spec n name) as [->|Hne]; [discriminate|].
  intros H [E|E]; [contradiction|]. now apply IH.
Qed.

(** One call of [analyze]: the table keeps its names apart, a refusal
    sets the analyzer's flag, a set flag forces a refusal, and the slot
    is pending after a refusal by an analyzer whose flag was unset. *)
Lemma analyze_step a node g ok a1 g1 :
  analyze a node g = (ok, a1, g1) ->
  (NoDup (map fst (symbol_table a)) -> NoDup (map fst (symbol_table a1))) /\
  (sem_had_error a = true -> ok = false) /\
  sem_had_error a1 = negb ok || sem_had_error a /\
  (pending g = true -> pending g1 = true) /\
  (ok = false -> sem_had_error a = false -> pending g1 = true).
Proof.
  unfold analyze, analyze_node. intros H.
  assert (Hflag : forall b, b = true -> b && negb b = false)
    by (now intros b ->).
  destruct node as [[line column name var_type init|line column v]|].
  - unfold analyze_variable_declaration in H.
    destruct (find_symbol (symbol_table a) name) eqn:Ef.
    + injection H as <- <- <-. simpl.
      repeat split; auto using set_error_pends.
    + destruct (check_types_compatible var_type (get_node_type init));
        simpl in H; injection H as <- <- <-; simpl;
        repeat split; auto using set_error_pends;
        try (intros Hn; constructor; [now apply find_symbol_none|exact Hn]);
        try (intros ->; reflexivity);
        try (now destruct (sem_had_error a)).
  - injection H as <- <- <-. simpl.
    repeat split; auto; try (intros ->; reflexivity);
      try (now destruct (sem_had_error a)).
  - injection H as <- <- <-. simpl.
    repeat split; auto; try (intros ->; reflexivity);
      try (now destruct (sem_had_error a)).
Qed.

(** X19. An analyzer that has refused one tree refuses every tree handed
    to it afterwards, declarations that are in order, bare literals and
    the null tree included: over any list of trees analysed one after
    the other by a fresh analyzer, the verdicts are [true] up to the
    first refusal and [false] from there on. The first refusal leaves a
    diagnostic pending and sets the analyzer's error flag, which no call
    unsets; the flag is set at the end exactly when a tree was refused.
    The symbol table never holds a name twice. *)
Theorem analyze_refuses_for_good (nodes : list (option AstNode))
    (g : KasdState) :
  let '(verdicts, a, g') := analyze_all init_semantic_analyzer nodes g in
  NoDup (map fst (symbol_table a)) /\
  exists k,
    (k <= List.length nodes)%nat /\
    verdicts = (repeat true k ++ repeat false (List.length nodes - k))%list /\
    (sem_had_error a = true <-> (k < List.length nodes)%nat) /\
    ((k < List.length nodes)%nat -> pending g' = true).
Proof.
  assert (Hfrom : forall nodes a g,
    NoDup (map fst (symbol_table a)) ->
    let '(verdicts, a', g') := analyze_all a nodes g in
    NoDup (map fst (symbol_table a')) /\
    (pending g = true -> pending g' = true) /\
    exists k,
      (k <= List.length nodes)%nat /\
      verdicts
      = (repeat true k ++ repeat false (List.length nodes - k))%list /\
      (sem_had_error a = true -> k = 0%nat) /\
      (sem_had_error a' = true <->
       sem_had_error a = true \/ (k < List.length nodes)%nat) /\
      ((k < List.length nodes)%nat -> sem_had_error a = false ->
       pending g' = true)).
  { clear nodes g.
    induction nodes as [|node rest IH]; intros a g Hn.
    - simpl. split; [exact Hn|]. split; [auto|]. exists 0%nat.
      repeat split; auto; try lia. intros [H|H]; [exact H|lia].
    - cbn [analyze_all].
      destruct (analyze a node g) as [[ok a1] g1] eqn:Ea.
      destruct (analyze_step _ _ _ _ _ _ Ea) as (S1 & S2 & S3 & S5 & S6).
      specialize (IH a1 g1 (S1 Hn)).
      destruct (analyze_all a1 rest g1) as [[oks a2] g2].
      destruct IH as (N2 & P2 & k & Hk & Hv & H0 & Hflag & Hpend).
      split; [exact N2|]. split; [auto|].
      destruct ok.
      + assert (Ha : sem_had_error a = false).
        { destruct (sem_had_error a); [now specialize (S2 eq_refl)|auto]. }
        rewrite Ha in S3. simpl in S3.
        exists (S k). simpl. rewrite Hv.
        repeat split; try lia; try congruence.
        * intros H. apply Hflag in H. destruct H as [H|H]; [congruence|].
          right. lia.
        * intros [H|H]; [congruence|]. apply Hflag. right. lia.
        * intros Hlt _. apply Hpend; [lia|exact S3].
      + assert (Ha1 : sem_had_error a1 = true) by (now rewrite S3).
        specialize (H0 Ha1). subst k.
        exists 0%nat. simpl. rewrite Hv, Nat.sub_0_r. simpl.
        repeat split; try lia; auto.
        intros _. apply Hflag. now left. }
  specialize (Hfrom nodes init_semantic_analyzer g (NoDup_nil _)).
  destruct (analyze_all init_semantic_analyzer nodes g) as [[verdicts a] g'].
  destruct Hfrom as (N & _ & k & Hk & Hv & _ & Hflag & Hpend).
  split; [exact N|]. exists k. repeat split; trivial.
  - intros H. apply Hflag in H. destruct H as [H|H]; [discriminate|exact H].
  - intros H. apply Hflag. now right.
  - intros H. now apply Hpend.
Qed.

(** ** Payloads taken and released (interpreter.c) *)

Lemma payloads_cons n v e :
  payloads ((n, v) :: e) = (released v ++ payloads e)%list.
Proof. now destruct v. Qed.

(** What [env_free] releases is what the environment holds. *)
Lemma env_free_payloads e : snd (env_free e) = payloads e.
Proof.
  unfold env_free. cbn [snd].
  induction e as [|[n v] e IH]; [reflexivity|].
  rewrite payloads_cons, <- IH. reflexivity.
Qed.

Lemma env_overwrite_payloads e name value :
  forall e' freed,
    env_overwrite e name value = Some (e', freed) ->
    Permutation (freed ++ payloads e') (released value ++ payloads e).
Proof.
  induction e as [|[n old] e IH]; intros e' freed H; simpl in H;
    [discriminate|].
  destruct (String.eqb n name).
  - injection H as <- <-. rewrite !payloads_cons.
    apply Permutation_app_swap_app.
  - destruct (env_overwrite e name value) as [[next' freed']|];
      [|discriminate].
    injection H as <- <-. specialize (IH _ _ eq_refl).
    rewrite !payloads_cons.
    rewrite Permutation_app_swap_app, IH.
    apply Permutation_app_swap_app.
Qed.

Lemma env_define_payloads e name value :
  Permutation (snd (env_define e name value)
               ++ payloads (fst (env_define e name value)))
              (released value ++ payloads e).
Proof.
  unfold env_define.
  destruct (env_overwrite e name value) as [[e' freed]|] eqn:E.
  - simpl. exact (env_overwrite_payloads e name value e' freed E).
  - cbn [fst snd app]. rewrite payloads_cons. reflexivity.
Qed.

(** X20. Whatever bindings are defined one after the other in an
    interpreter's environment and then released by [free_interpreter],
    the string payloads released, by the overwrites on the way and by
    [env_free] at the end, are exactly the payloads [env_define] took a
    copy of, each as often as it was copied: no copy is left behind and
    none is released twice. The environment is empty afterwards, and
    the names released are those of its entries, each once. *)
Theorem env_payloads_balance (defs : list (string * Value)) (repl : bool) :
  let '(e, freed) := env_define_trace defs (env (init_interpreter repl)) in
  let '(i, names, freed_at_end) :=
    free_interpreter (mkInterpreter e false repl) in
  Permutation (freed ++ freed_at_end) (payloads defs) /\
  env i = [] /\ names = map fst e /\ NoDup names /\
  e = env_define_all defs [].
Proof.
  assert (Hfrom : forall defs e,
    let '(e', freed) := env_define_trace defs e in
    Permutation (freed ++ payloads e') (payloads defs ++ payloads e) /\
    e' = env_define_all defs e).
  { clear defs. induction defs as [|[n v] defs IH]; intros e.
    - simpl. split; reflexivity.
    - cbn [env_define_trace].
      pose proof (env_define_payloads e n v) as H1.
      destruct (env_define e n v) as [e1 freed1] eqn:E. simpl in H1.
      specialize (IH e1).
      destruct (env_define_trace defs e1) as [e2 freed2].
      destruct IH as [IH ->]. split.
      + rewrite (payloads_cons n v defs).
        rewrite <- !app_assoc, IH, Permutation_app_swap_app, H1.
        apply Permutation_app_swap_app.
      + unfold env_define_all. simpl. now rewrite E. }
  specialize (Hfrom defs []). simpl.
  destruct (env_define_trace defs []) as [e freed].
  destruct Hfrom as [Hp ->]. simpl. rewrite app_nil_r in Hp.
  split.
  { pose proof (env_free_payloads (env_define_all defs [])) as Hfree.
    unfold env_free in Hfree. cbn [snd] in Hfree. now rewrite Hfree. }
  repeat split; trivial.
  assert (H : forall defs e, NoDup (map fst e) ->
                             NoDup (map fst (env_define_all defs e))).
  { clear. induction defs as [|[n v] defs IH]; intros e He; [exact He|].
    simpl. apply IH. now apply env_define_keeps_names_unique. }
  apply H. constructor.
Qed.

(** ** Values written and read again (common.c) *)

Lemma digit_char_spec d :
  0 <= d < 10 ->
  isdigit (digit_char d) = true /\ digit_value (digit_char d) = d.
Proof.
  intros H.
  assert (E : d = 0 \/ d = 1 \/ d = 2 \/ d = 3 \/ d = 4 \/ d = 5 \/ d = 6
              \/ d = 7 \/ d = 8 \/ d = 9) by lia.
  repeat (destruct E as [->|E]; [split; reflexivity|]).
  subst d. split; reflexivity.
Qed.

Lemma digits_value_last ds d :
  digits_value (ds ++ [d]) = digits_value ds * 10 + digit_value d.
Proof. unfold digits_value. now rewrite fold_left_app. Qed.

Lemma decimal_digits_spec fuel :
  forall n,
    (0 < fuel)%nat ->
    0 <= n < 10 ^ Z.of_nat fuel ->
    decimal_digits fuel n <> [] /\
    forallb isdigit (decimal_digits fuel n) = true /\
    digits_value (decimal_digits fuel n) = n.
Proof.
  induction fuel as [|fuel IH]; intros n Hf Hn; [lia|].
  cbn [decimal_digits]. destruct (Z.ltb_spec n 10) as [Hlt|Hge].
  - destruct (digit_char_spec n) as [Hd Hv]; [lia|].
    split; [discriminate|]. split; [cbn [forallb]; now rewrite Hd|].
    unfold digits_value. cbn [fold_left]. rewrite Hv. lia.
  - rewrite Nat2Z.inj_succ, Z.pow_succ_r in Hn by lia.
    assert (Hfuel : (0 < fuel)%nat).
    { destruct fuel; [|lia]. change (10 ^ Z.of_nat 0) with 1 in Hn. lia. }
    destruct (IH (n / 10) Hfuel) as (Hne & Hds & Hv).
    { split; [apply Z.div_pos; lia|].
      apply Z.div_lt_upper_bound; lia. }
    destruct (digit_char_spec (n mod 10)) as [Hd Hdv];
      [apply Z.mod_pos_bound; lia|].
    split; [now destruct (decimal_digits fuel (n / 10))|].
    split.
    + rewrite forallb_app, Hds. cbn [forallb]. now rewrite Hd.
    + rewrite digits_value_last, Hv, Hdv.
      pose proof (Z.div_mod n 10). lia.
Qed.

(** X21. What [value_to_string] writes for null, for a boolean and for
    an integer between 0 and [LLONG_MAX], the only integers a literal
    can denote, is a literal that the lexer and [parse_literal] read
    back as the same value, whatever the C library makes of "%g":
    printing a value with "%lld" and reading it with [strtoll] gives
    the value again, with no saturation. *)
Theorem written_value_reads_back (format_g : double -> string)
    (v : Value) :
  written_as_literal v = true ->
  literal_text (text (value_to_string format_g v)) v.
Proof.
  destruct v as [|z|d|b|s]; simpl; intros H; try discriminate.
  - exact literal_null.
  - apply andb_prop in H. destruct H as [H0 Hmax].
    apply Z.leb_le in H0, Hmax. unfold print_lld.
    destruct (Z.ltb_spec z 0) as [Hneg|_]; [lia|].
    unfold text. rewrite list_ascii_of_string_of_list_ascii.
    destruct (decimal_digits_spec 20 z) as (Hne & Hds & Hv); [lia| |].
    { unfold LLONG_MAX in Hmax.
      change (10 ^ Z.of_nat 20) with 100000000000000000000.
      change (2 ^ 63 - 1) with 9223372036854775807 in Hmax. lia. }
    destruct (decimal_digits 20 z) as [|c ds] eqn:E; [now elim Hne|].
    replace (VInt z) with (VInt (Z.min (digits_value (c :: ds)) LLONG_MAX))
      by (rewrite Hv; f_equal; lia).
    now apply literal_int.
  - destruct b; [exact literal_true|exact literal_false].
Qed.

Lemma written_value_reads_back_witness :
  literal_text (text "9223372036854775807") (VInt LLONG_MAX).
Proof.
  exact (written_value_reads_back (fun _ => EmptyString) (VInt LLONG_MAX)
           eq_refl).
Defined.

(** ** The first token that does not fit (parser.c) *)

Lemma match_first_fits p g p' g' :
  fits 3 (tok_type (current p)) = true ->
  Parse.advance p g = Ok (p', g') ->
  exists type, match_first type_tokens p g = Ok (Some type, p', g').
Proof.
  intros Hf Ha. unfold fits in Hf.
  with_strategy transparent [type_tokens]
    (unfold type_tokens in *; unfold match_first, match_, check).
  destruct (tok_type (current p)) eqn:E; try discriminate Hf;
    repeat (simpl; rewrite ?E, ?Ha); eexists; reflexivity.
Qed.

Lemma match_first_misfit p g :
  fits 3 (tok_type (current p)) = false ->
  match_first type_tokens p g = Ok (None, p, g).
Proof.
  intros Hf. unfold fits in Hf.
  with_strategy transparent [type_tokens]
    (unfold type_tokens in *; unfold match_first, match_, check).
  destruct (tok_type (current p)) eqn:E; try discriminate Hf;
    repeat (simpl; rewrite ?E); reflexivity.
Qed.

Lemma parse_literal_fits p g p' g' :
  fits 5 (tok_type (current p)) = true ->
  Parse.advance p g = Ok (p', g') ->
  exists node, parse_literal p g = Ok (Some node, p', g').
Proof.
  intros Hf Ha. unfold fits in Hf. unfold parse_literal.
  destruct (tok_type (current p)); try discriminate Hf;
    rewrite Ha; eexists; reflexivity.
Qed.

Lemma parse_literal_misfit p g :
  fits 5 (tok_type (current p)) = false ->
  parse_literal p g
  = Ok (None, Parse.set_had_error p,
        snd (error_at_current p (expected_message 5) g)).
Proof.
  intros Hf. unfold fits in Hf. unfold parse_literal.
  destruct (tok_type (current p)); try discriminate Hf; reflexivity.
Qed.

(** [parse] on a stream of tokens that come without a diagnostic: the
    first token whose type does not fit its position is where [parse]
    stops, with the message of that position. *)
Lemma parse_first_misfit (ps : nat -> Parser) (g : KasdState) (k : nat) :
  (k <= 6)%nat ->
  (forall i, (i < k)%nat ->
     fits i (tok_type (current (ps i))) = true /\
     Parse.advance (ps i) g = Ok (ps (S i), g)) ->
  fits k (tok_type (current (ps k))) = false ->
  parse (ps 0%nat) g
  = Ok (None, Parse.set_had_error (ps k),
        snd (error_at_current (ps k) (expected_message k) g)).
Proof.
  intros Hk Hfit Hmis.
  unfold parse, parse_declaration, parse_variable_declaration,
    parse_expression.
  assert (Hconsume : forall p type message,
            TokenType_eqb (tok_type (current p)) type = false ->
            consume p type message g
            = Ok (false, Parse.set_had_error p,
                  snd (error_at_current p message g)))
    by (intros p type message E; unfold consume, check; now rewrite E).
  assert (Htake : forall p p' type message,
            TokenType_eqb (tok_type (current p)) type = true ->
            Parse.advance p g = Ok (p', g) ->
            consume p type message g = Ok (true, p', g))
    by (intros p p' type message E A; unfold consume, check;
        now rewrite E, A).
  assert (Hstop : forall (p : Parser) (g1 : KasdState)
                         (yes : Res (option AstNode * Parser * KasdState)),
            (if negb (check (Parse.set_had_error p) TOKEN_EOF)
                && negb (had_error (Parse.set_had_error p))
             then yes
             else Ok (@None AstNode, Parse.set_had_error p, g1))
            = Ok (None, Parse.set_had_error p, g1)).
  { intros p g1 yes. cbn [had_error Parse.set_had_error negb].
    now rewrite andb_false_r. }
  destruct k as [|k].
  { rewrite (Hconsume _ _ _ Hmis). cbn [bind negb]. apply Hstop. }
  destruct (Hfit 0%nat ltac:(lia)) as [F0 A0].
  rewrite (Htake _ _ _ _ F0 A0). cbn [bind negb].
  destruct k as [|k].
  { rewrite (Hconsume _ _ _ Hmis). cbn [bind negb]. apply Hstop. }
  destruct (Hfit 1%nat ltac:(lia)) as [F1 A1].
  rewrite (Htake _ _ _ _ F1 A1). cbn [bind negb].
  destruct k as [|k].
  { rewrite (Hconsume _ _ _ Hmis). cbn [bind negb]. apply Hstop. }
  destruct (Hfit 2%nat ltac:(lia)) as [F2 A2].
  rewrite (Htake _ _ _ _ F2 A2). cbn [bind negb].
  destruct k as [|k].
  { rewrite (match_first_misfit _ _ Hmis). cbn [bind negb]. apply Hstop. }
  destruct (Hfit 3%nat ltac:(lia)) as [F3 A3].
  destruct (match_first_fits _ _ _ _ F3 A3) as [tt ->]. cbn [bind negb].
  destruct k as [|k].
  { rewrite (Hconsume _ _ _ Hmis). cbn [bind negb]. apply Hstop. }
  destruct (Hfit 4%nat ltac:(lia)) as [F4 A4].
  rewrite (Htake _ _ _ _ F4 A4). cbn [bind negb].
  destruct k as [|k].
  { rewrite (parse_literal_misfit _ _ Hmis). cbn [bind negb]. apply Hstop. }
  destruct (Hfit 5%nat ltac:(lia)) as [F5 A5].
  destruct (parse_literal_fits _ _ _ _ F5 A5) as [node ->]. cbn [bind negb].
  destruct k as [|k]; [|lia].
  rewrite (Hconsume _ _ _ Hmis). cbn [bind negb]. apply Hstop.
Qed.

Lemma advance_n_last n :
  forall p g,
    advance_n (S n) p g
    = ('(p1, g1) <- advance_n n p g ;; Parse.advance p1 g1).
Proof.
  induction n as [|n IH]; intros p g.
  - cbn [advance_n bind].
    destruct (Parse.advance p g) as [[p1 g1]| |]; reflexivity.
  - change (advance_n (S (S n)) p g)
      with ('(p1, g1) <- Parse.advance p g ;; advance_n (S n) p1 g1).
    cbn [advance_n].
    destruct (Parse.advance p g) as [[p1 g1]| |]; cbn [bind];
      [apply IH|reflexivity..].
Qed.

Lemma current_after l l' a rest :
  in_bounds l -> in_bounds l' -> lex_source l' = lex_source l ->
  rest_of l = (a ++ rest)%list -> rest_of l' = rest ->
  lex_current l' = (lex_current l + List.length a)%nat.
Proof.
  unfold in_bounds, rest_of. intros Hb Hb' Hs Hr Hr'. rewrite Hs in *.
  apply (f_equal (@List.length ascii)) in Hr, Hr'.
  rewrite length_skipn in Hr, Hr'. rewrite length_app in Hr. lia.
Qed.

Lemma laid_out_app toks more :
  laid_out (toks ++ more) = (laid_out toks ++ laid_out more)%list.
Proof.
  induction toks as [|[[[ws txt] type] value] toks IH]; [reflexivity|].
  simpl. rewrite IH, <- !app_assoc. reflexivity.
Qed.

(** The tokens the parser's [advance] hands over on a text that spells
    them one after the other: each call has a result and raises no
    diagnostic; the token has the type its text spells, starts where
    its text starts, has the length of its span and, as long as no
    string has come, is placed there. *)
Lemma advance_n_spelled (toks : list Spelled) :
  forall p g ws txt type value final,
    in_bounds (lexer p) ->
    rest_of (lexer p)
    = (laid_out (toks ++ [(ws, txt, type, value)]) ++ final)%list ->
    well_spelled (toks ++ [(ws, txt, type, value)]) final ->
    (forall i, (i < List.length toks)%nat ->
       exists q,
         advance_n (S i) p g = Ok (q, g) /\
         tok_type (current q)
         = spelled_type (nth i toks (ws, txt, type, value))) /\
    exists q,
      advance_n (S (List.length toks)) p g = Ok (q, g) /\
      tok_type (current q) = type /\
      lex_source (lexer q) = lex_source (lexer p) /\
      tok_start (current q)
      = InSource (lex_current (lexer p)
                  + List.length (laid_out toks ++ ws)) /\
      tok_length (current q) = token_span type txt /\
      (type <> TOKEN_STRING ->
       Forall (fun tok => spelled_type tok <> TOKEN_STRING) toks ->
       (tok_line (current q), tok_column (current q))
       = place (position (lexer p)) (laid_out toks ++ ws)).
Proof.
  induction toks as [|[[[ws0 txt0] type0] value0] toks IH];
    intros p g ws txt type value final Hb Hr Hw.
  - simpl in Hr, Hw. destruct Hw as (Hws & Hs & _).
    rewrite app_nil_r in Hr. rewrite <- app_assoc in Hr.
    simpl in Hs.
    destruct (advance_spelled p g ws txt final type value Hs Hb Hr Hws)
      as (t & l' & A & Y & _ & _ & _ & C & P).
    destruct (advance_spelled_span p g ws txt final type value _ _ Hs Hb Hr
                Hws A) as [S1 S2].
    split; [intros i Hi; simpl in Hi; lia|].
    eexists. cbn [advance_n List.length]. rewrite A. cbn [bind].
    split; [reflexivity|]. split; [exact Y|]. split; [exact C|].
    cbn [current laid_out app] in *.
    split; [exact S1|]. split; [exact S2|].
    intros Hn _. now destruct (P Hn) as (P1 & _).
  - cbn [app laid_out] in Hr. cbn [app well_spelled] in Hw.
    destruct Hw as (Hws0 & Hs0 & Hw).
    rewrite <- !app_assoc in Hr.
    destruct (advance_spelled p g ws0 txt0 _ type0 value0 Hs0 Hb Hr Hws0)
      as (t & l' & A & Y & _ & R1 & B1 & C1 & P1).
    set (p1 := mkParser l' t (current p) (had_error p) (panic_mode p)) in *.
    destruct (IH p1 g ws txt type value final B1 R1 Hw) as [IHfit IHlast].
    split.
    + intros [|i] Hi.
      * exists p1. cbn [advance_n]. rewrite A. cbn [bind].
        split; [reflexivity|exact Y].
      * simpl in Hi. destruct (IHfit i ltac:(lia)) as (q & Hq & Tq).
        exists q. split; [|exact Tq].
        change (advance_n (S (S i)) p g)
          with ('(p2, g2) <- Parse.advance p g ;; advance_n (S i) p2 g2).
        rewrite A. exact Hq.
    + destruct IHlast as (q & Hq & Tq & Cq & Pq).
      exists q. split.
      { change (advance_n (S (List.length ((ws0, txt0, type0, value0)
                                              :: toks))) p g)
          with ('(p2, g2) <- Parse.advance p g ;;
                advance_n (S (List.length toks)) p2 g2).
        rewrite A. exact Hq. }
      split; [exact Tq|]. split; [now rewrite Cq|].
      destruct Pq as (Q2 & Q3 & Q1).
      assert (Hcur : lex_current l'
                     = (lex_current (lexer p)
                        + List.length (ws0 ++ txt0))%nat).
      { apply (current_after (lexer p) l' (ws0 ++ txt0)
                 (laid_out (toks ++ [(ws, txt, type, value)]) ++ final));
          trivial.
        now rewrite <- app_assoc. }
      cbn [lexer p1] in Q1, Q2. rewrite Hcur in Q2.
      cbn [laid_out]. split; [|split; [exact Q3|]].
      * rewrite Q2. f_equal. rewrite !length_app. lia.
      * intros Hn Hall. pose proof (Forall_inv Hall) as Hn0.
        pose proof (Forall_inv_tail Hall) as Hall'.
        cbn [spelled_type fst snd] in Hn0.
        destruct (P1 Hn0) as (_ & P1' & _).
        rewrite (Q1 Hn Hall'), P1', <- place_app. f_equal.
        now rewrite <- !app_assoc.
Qed.

Lemma continues_word s :
  starts_with continues s = false -> starts_with word_char s = false.
Proof.
  destruct s as [|c s]; [reflexivity|]. simpl. unfold continues.
  intros H. now apply orb_false_elim in H.
Qed.

Lemma continues_number s :
  starts_with continues s = false ->
  starts_with isdigit s = false /\ starts_fraction s = false /\
  starts_with exponent_mark s = false.
Proof.
  destruct s as [|c s]; [repeat split|]. simpl. unfold continues.
  intros H. apply orb_false_elim in H. destruct H as [Hw Hd].
  unfold word_char in Hw. apply orb_false_elim in Hw.
  destruct Hw as [Hs Hdig]. split; [exact Hdig|]. split.
  - destruct s; [reflexivity|]. now rewrite Hd.
  - revert Hs. clear.
    destruct c as [[] [] [] [] [] [] [] []]; vm_compute; congruence.
Qed.

Lemma blank_continues x : blank x = true -> continues x = false.
Proof.
  intros H. unfold continues.
  now destruct (blank_is_no_token_byte x H) as (-> & _ & _ & ->).
Qed.

(** The token of a type name, whatever follows it. *)
Lemma type_word_token ty T :
  In (ty, T) type_words ->
  exists type,
    fits 3 type = true /\ type <> TOKEN_STRING /\
    forall rest,
      starts_with word_char rest = false -> spells rest ty type NoValue.
Proof.
  intros Hin. simpl in Hin.
  destruct Hin as [H|[H|[H|[H|[]]]]]; injection H as <- <-.
  - exists TOKEN_TYPE_INT. split; [reflexivity|]. split; [discriminate|].
    intros rest Hr.
    exact (spells_word rest "i"%char (text "nt") eq_refl eq_refl Hr).
  - exists TOKEN_TYPE_FLOAT. split; [reflexivity|]. split; [discriminate|].
    intros rest Hr.
    exact (spells_word rest "f"%char (text "loat") eq_refl eq_refl Hr).
  - exists TOKEN_TYPE_BOOL. split; [reflexivity|]. split; [discriminate|].
    intros rest Hr.
    exact (spells_word rest "b"%char (text "ool") eq_refl eq_refl Hr).
  - exists TOKEN_TYPE_STRING. split; [reflexivity|]. split; [discriminate|].
    intros rest Hr.
    exact (spells_word rest "s"%char (text "tring") eq_refl eq_refl Hr).
Qed.

(** The token of a literal, whatever follows it that it cannot run
    into. *)
Lemma literal_token lit v :
  literal_text lit v ->
  exists type value,
    fits 5 type = true /\
    (type = TOKEN_STRING -> value_type v = VALUE_STRING) /\
    forall rest,
      starts_with continues rest = false -> spells rest lit type value.
Proof.
  intros Hl.
  destruct Hl as [d ds Hd|d ds d2 ds2 Hd Hd2|c body Hbody| | | ].
  - exists TOKEN_INT. eexists. split; [reflexivity|]. split; [discriminate|].
    intros rest Hr. destruct (continues_number rest Hr) as (A & B & _).
    exact (spells_int _ d ds Hd A B).
  - exists TOKEN_FLOAT. eexists. split; [reflexivity|]. split; [discriminate|].
    intros rest Hr. destruct (continues_number rest Hr) as (A & _ & C).
    exact (spells_float _ d ds d2 ds2 Hd Hd2 A C).
  - exists TOKEN_STRING. eexists. split; [reflexivity|]. split; [reflexivity|].
    intros rest _. exact (spells_string _ c body Hbody).
  - exists TOKEN_TRUE. eexists. split; [reflexivity|]. split; [discriminate|].
    intros rest Hr.
    exact (spells_word _ "t"%char (text "rue") eq_refl eq_refl
             (continues_word _ Hr)).
  - exists TOKEN_FALSE. eexists. split; [reflexivity|]. split; [discriminate|].
    intros rest Hr.
    exact (spells_word _ "f"%char (text "alse") eq_refl eq_refl
             (continues_word _ Hr)).
  - exists TOKEN_NULL. eexists. split; [reflexivity|]. split; [discriminate|].
    intros rest Hr.
    exact (spells_word _ "n"%char (text "ull") eq_refl eq_refl
             (continues_word _ Hr)).
Qed.

(** X22. A source that starts with the first [k] tokens of a
    declaration, [k] from 0 to 6, and goes on with the text of a token
    whose type does not fit position [k], the end of the source
    included: [parse] stops at that token, [run_source] returns false
    without a tree, and the diagnostic raised and printed is the Syntax
    diagnostic with the message of position [k]. Its span starts at the
    first byte of the token and covers the text of the token, but for a
    string literal out of place, whose span leaves the closing quote
    out. Its line and column are those of the first byte of the token
    when neither the token nor the literal in front of it is a string
    literal. *)
Theorem parse_reports_first_misfit (k : nat) (gap : nat -> list ascii)
    (c : ascii) (w ty lit txt rest : list ascii) (T : ValueType) (v : Value)
    (type : TokenType) (value : TokenValue) (repl : bool) (g : KasdState) :
  (k <= 6)%nat ->
  (forall i, forallb blank (gap i) = true) ->
  ((2 <= k)%nat -> gap 1%nat <> []) ->
  word_start c = true ->
  forallb word_char w = true ->
  check_keyword_from keywords (c :: w) = TOKEN_IDENTIFIER ->
  In (ty, T) type_words ->
  literal_text lit v ->
  spells rest txt type value ->
  fits k type = false ->
  (needs_gap k = true ->
   starts_with continues (gap k ++ txt ++ rest) = false) ->
  pending g = false ->
  let before := (declaration_prefix k gap (c :: w) ty lit ++ gap k)%list in
  let source := (before ++ txt ++ rest)%list in
  exists line column,
    (type <> TOKEN_STRING ->
     (k = 6%nat -> value_type v <> VALUE_STRING) ->
     (line, column) = place (1, 1) before) /\
    let g' :=
      mkState (log_level g)
        (mkError ERROR_SYNTAX line column (Some (expected_message k))
           (Some (strdup source)) (Z.of_nat (List.length before))
           (token_span type txt) true) in
    run_source source repl g
    = Ok (mkRun false None
            (ReportCaret ERROR_SYNTAX line column (Some (expected_message k))
               (strdup source) (Z.of_nat (List.length before))
               (token_span type txt))
            None g').
Proof.
  intros Hk Hgap Hgap1 Hc Hw Hname Hty Hlit Hs Hmis Hsep Hp before
    source.
  destruct (type_word_token ty T Hty) as (tt & Ftt & Dtt & Stt).
  destruct (literal_token lit v Hlit) as (ltype & lvalue & Flt & Vlt & Slt).
  set (D := [ (gap 0%nat, text "let", TOKEN_LET, NoValue);
              (gap 1%nat, (c :: w), TOKEN_IDENTIFIER, NoValue);
              (gap 2%nat, [":"%char], TOKEN_COLON, NoValue);
              (gap 3%nat, ty, tt, NoValue);
              (gap 4%nat, ["="%char], TOKEN_EQUAL, NoValue);
              (gap 5%nat, lit, ltype, lvalue);
              (gap 6%nat, [";"%char], TOKEN_SEMICOLON, NoValue) ]
             : list Spelled).
  set (toks := firstn k D).
  set (wrong := (gap k, txt, type, value) : Spelled).
  set (p_init := mkParser (init_lexer source) uninitialised_token
                   uninitialised_token false false).
  assert (Hlen : List.length toks = k)
    by (unfold toks; rewrite length_firstn; simpl; lia).
  assert (Hlaid : laid_out toks = declaration_prefix k gap (c :: w) ty lit).
  { unfold toks, D, declaration_prefix.
    do 7 (destruct k as [|k];
          [cbn [firstn laid_out List.concat app];
           rewrite ?app_nil_r, <- ?app_assoc; reflexivity|]).
    lia. }
  assert (Hbw : forall x, blank x = true -> word_char x = false).
  { intros x Hx. now destruct (blank_is_no_token_byte x Hx) as (-> & _). }
  assert (C1 : (2 <= k)%nat ->
               forall tail,
                 starts_with word_char (gap 1%nat ++ c :: tail) = false).
  { intros H2 tail. specialize (Hgap1 H2).
    destruct (gap 1%nat) as [|b bs] eqn:E; [now elim Hgap1|].
    simpl. apply Hbw. specialize (Hgap 1%nat). rewrite E in Hgap.
    simpl in Hgap. now apply andb_prop in Hgap. }
  assert (C2 : forall tail,
                 starts_with word_char (gap 2%nat ++ ":"%char :: tail)
                 = false)
    by (intros tail; now apply gap_then).
  assert (C4 : forall tail,
                 starts_with word_char (gap 4%nat ++ "="%char :: tail)
                 = false)
    by (intros tail; now apply gap_then).
  assert (C6 : forall tail,
                 starts_with continues (gap 6%nat ++ ";"%char :: tail)
                 = false)
    by (intros tail; apply gap_then; auto using blank_continues).
  assert (Slet : forall next,
                   starts_with word_char next = false ->
                   spells next (text "let") TOKEN_LET NoValue)
    by (intros next Hn;
        exact (spells_word next "l"%char (text "et") eq_refl eq_refl Hn)).
  assert (Sname : forall next,
                    starts_with word_char next = false ->
                    spells next (c :: w) TOKEN_IDENTIFIER NoValue)
    by (intros next Hn; rewrite <- Hname; now apply spells_word).
  assert (Hws : well_spelled (toks ++ [wrong]) rest).
  { unfold toks, wrong, D. clear Hlaid Hlen.
    destruct k as [|[|[|[|[|[|[|k]]]]]]]; [..|lia];
      try specialize (Hsep eq_refl); try specialize (C1 ltac:(lia));
      cbn [firstn app well_spelled laid_out];
      repeat split; try apply Hgap;
      rewrite ?app_nil_r, <- ?app_assoc; cbn [app];
      first [ exact Hs | apply spells_colon | apply spells_equal
            | apply spells_semicolon | apply Slet | apply Sname
            | apply Stt | apply Slt ];
      first [ apply C1 | apply C2 | apply C4 | apply C6 | exact Hsep
            | exact (continues_word _ Hsep) ]. }
  assert (Hr : rest_of (lexer p_init)
               = (laid_out (toks ++ [wrong]) ++ rest)%list).
  { unfold p_init, rest_of, wrong. cbn [lexer init_lexer lex_current
      lex_source skipn].
    rewrite laid_out_app, Hlaid. cbn [laid_out]. unfold source, before.
    rewrite app_nil_r, <- !app_assoc. reflexivity. }
  destruct (advance_n_spelled toks p_init g (gap k) txt type value rest
              (Nat.le_0_l _) Hr Hws)
    as [Hfits (q & Hq & Tq & Cq & Pq)].
  rewrite Hlen in Hq.
  destruct Pq as (Qs & Ql & Qp).
  rewrite Hlaid in Qs, Qp. fold before in Qs, Qp.
  set (ps := fun i => match advance_n (S i) p_init g with
                      | Ok (p, _) => p
                      | _ => p_init
                      end).
  assert (Hps : forall i, (i <= k)%nat ->
                          advance_n (S i) p_init g = Ok (ps i, g)).
  { intros i Hi. unfold ps.
    destruct (Nat.eq_dec i k) as [->|Hne]; [now rewrite Hq|].
    destruct (Hfits i ltac:(rewrite Hlen; lia)) as (qi & Hqi & _).
    now rewrite Hqi. }
  assert (Hchain : forall i, (i < k)%nat ->
            fits i (tok_type (current (ps i))) = true /\
            Parse.advance (ps i) g = Ok (ps (S i), g)).
  { intros i Hi. split.
    - destruct (Hfits i ltac:(rewrite Hlen; lia)) as (qi & Hqi & Tqi).
      rewrite (Hps i ltac:(lia)) in Hqi. injection Hqi as <-.
      rewrite Tqi. unfold toks, D. clear - Hi Hk Ftt Flt.
      do 7 (destruct k as [|k]; [lia|];
            destruct i as [|i];
            [cbn [firstn nth spelled_type fst snd];
             first [reflexivity|assumption]|]).
      lia.
    - pose proof (advance_n_last (S i) p_init g) as Hl.
      rewrite (Hps i ltac:(lia)), (Hps (S i) ltac:(lia)) in Hl.
      cbn [bind] in Hl. now symmetry. }
  assert (Hq_k : ps k = q).
  { pose proof (Hps k (le_n _)) as H. rewrite Hq in H. now injection H. }
  assert (Hmis' : fits k (tok_type (current (ps k))) = false)
    by (now rewrite Hq_k, Tq).
  pose proof (parse_first_misfit ps g k Hk Hchain Hmis') as Hparse.
  assert (Hinit : init_parser (init_lexer source) g = Ok (ps 0%nat, g)).
  { pose proof (Hps 0%nat (Nat.le_0_l _)) as H. cbn [advance_n] in H.
    unfold init_parser. fold p_init.
    destruct (Parse.advance p_init g) as [[p1 g1]| |]; [|discriminate..].
    exact H. }
  exists (tok_line (current q)), (tok_column (current q)). split.
  - intros Hnot Hv. apply (Qp Hnot). unfold toks, D. clear - Hk Hv Dtt Vlt.
    assert (Hl : (k = 6)%nat -> ltype <> TOKEN_STRING)
      by (intros E Es; exact (Hv E (Vlt Es))).
    do 6 (destruct k as [|k];
          [repeat constructor; cbn [spelled_type fst snd];
           first [discriminate|assumption]|]).
    destruct k as [|k]; [|lia].
    repeat constructor; cbn [spelled_type fst snd];
      first [discriminate|assumption|now apply Hl].
  - unfold run_source. rewrite Hinit. cbn [bind]. rewrite Hparse.
    cbn [bind had_error Parse.set_had_error orb].
    rewrite Hq_k. unfold error_at_current, set_error, start_offset.
    unfold pending in Hp. rewrite Hp, Qs, Ql, Cq.
    cbn [snd print_error error has_error negb err_source_line option_map
         err_source_pos err_type err_line err_column err_message
         err_source_len lexer p_init init_lexer lex_source lex_current
         Nat.add].
    unfold ptr_diff. rewrite Z.sub_0_r.
    assert (H0 : (0 <=? Z.of_nat (List.length before)) = true)
      by (apply Z.leb_le; lia).
    rewrite H0. reflexivity.
Qed.

Lemma parse_reports_first_misfit_witness :
  run_source (text "let x: null = 1;") false (init_kasd_state 1)
  = Ok (mkRun false None
          (ReportCaret ERROR_SYNTAX 1 8
             (Some "Expected type (int, float, bool, string, or null)."%string)
             (text "let x: null = 1;") 7 4)
          None
          (mkState 1
             (mkError ERROR_SYNTAX 1 8
                (Some
                   "Expected type (int, float, bool, string, or null)."%string)
                (Some (text "let x: null = 1;")) 7 4 true))) /\
  exists line column,
    run_source let_then_string false (init_kasd_state 1)
    = Ok (mkRun false None
            (ReportCaret ERROR_SYNTAX line column
               (Some "Expected variable name."%string) let_then_string 4 4)
            None
            (mkState 1
               (mkError ERROR_SYNTAX line column
                  (Some "Expected variable name."%string)
                  (Some let_then_string) 4 4 true))).
Proof.
  split.
  - destruct (parse_reports_first_misfit 3
                (fun i => nth i [ []; text " "; []; text " " ] [])
                "x"%char [] (text "int") (text "1") (text "null")
                (text " = 1;") VALUE_INT (VInt 1) TOKEN_NULL NoValue false
                (init_kasd_state 1))
      as (line & column & Hat & Hrun).
    + lia.
    + intros i. do 4 (destruct i as [|i]; [reflexivity|]). now destruct i.
    + discriminate.
    + reflexivity.
    + reflexivity.
    + reflexivity.
    + simpl. tauto.
    + exact (literal_int "1"%char [] eq_refl).
    + exact (spells_word (text " = 1;") "n"%char (text "ull") eq_refl eq_refl
               eq_refl).
    + reflexivity.
    + discriminate.
    + reflexivity.
    + assert (E : (line, column) = (1, 8))
        by (apply Hat; discriminate).
      injection E as -> ->. exact Hrun.
  - destruct (parse_reports_first_misfit 1
                (fun i => nth i [ []; text " " ] [])
                "x"%char [] (text "int") (text "1")
                (QUOTE :: "a"%char :: text "bc" ++ [QUOTE]) []
                VALUE_INT (VInt 1) TOKEN_STRING (TokString "bc") false
                (init_kasd_state 1))
      as (line & column & _ & Hrun).
    + lia.
    + intros i. do 2 (destruct i as [|i]; [reflexivity|]). now destruct i.
    + lia.
    + reflexivity.
    + reflexivity.
    + reflexivity.
    + simpl. tauto.
    + exact (literal_int "1"%char [] eq_refl).
    + exact (spells_string [] "a"%char (text "bc") eq_refl).
    + reflexivity.
    + reflexivity.
    + reflexivity.
    + exists line, column. exact Hrun.
Defined.

(** ** Tokens after a declaration (parser.c) *)

(** X23. A source that is one declaration, laid out as in X16, and
    then the text of one more token, of any type but the end of the
    source: the declaration parses, the end-of-file check of [parse]
    refuses the token, and [run_source] prints the Syntax diagnostic
    "Expected end of file." and returns false with the tree of the
    declaration and without interpreting it. The span of the diagnostic
    starts at the first byte of the token and covers its text, but for
    a string literal, whose span leaves the closing quote out. Its line
    and column are those of the first byte of the token when neither
    the token nor the literal of the declaration is a string literal. *)
Theorem run_source_refuses_trailing_token (gap : nat -> list ascii)
    (c : ascii) (w ty lit txt rest : list ascii) (T : ValueType) (v : Value)
    (type : TokenType) (value : TokenValue) (repl : bool) (g : KasdState) :
  (forall i, forallb blank (gap i) = true) ->
  gap 1%nat <> [] ->
  word_start c = true ->
  forallb word_char w = true ->
  check_keyword_from keywords (c :: w) = TOKEN_IDENTIFIER ->
  In (ty, T) type_words ->
  literal_text lit v ->
  spells rest txt type value ->
  type <> TOKEN_EOF ->
  pending g = false ->
  let name := string_of_list_ascii (c :: w) in
  let at_name := place (1, 1) (gap 0%nat ++ text "let" ++ gap 1%nat) in
  let before := declaration_text gap (c :: w) ty lit in
  let source := (before ++ txt ++ rest)%list in
  exists at_literal line column,
    (value_type v <> VALUE_STRING ->
     at_literal = place (1, 1) (before_literal gap (c :: w) ty) /\
     (type <> TOKEN_STRING -> (line, column) = place (1, 1) before)) /\
    let decl :=
      NODE_VARIABLE_DECLARATION (fst at_name) (snd at_name) name T
        (NODE_LITERAL (fst at_literal) (snd at_literal) v) in
    let g' :=
      mkState (log_level g)
        (mkError ERROR_SYNTAX line column (Some "Expected end of file.")
           (Some (strdup source)) (Z.of_nat (List.length before))
           (token_span type txt) true) in
    run_source source repl g
    = Ok (mkRun false (Some decl)
            (ReportCaret ERROR_SYNTAX line column
               (Some "Expected end of file.") (strdup source)
               (Z.of_nat (List.length before)) (token_span type txt))
            None g').
Proof.
  intros Hgap Hgap1 Hc Hw Hname Hty Hlit Hs Htype Hp name at_name before
    source.
  set (prefix := declaration_prefix 7 gap (c :: w) ty lit).
  assert (Hbefore : before = (prefix ++ gap 7%nat)%list).
  { unfold before, declaration_text, declaration_then, prefix,
      declaration_prefix.
    cbn [firstn List.concat]. rewrite <- !app_assoc, ?app_nil_r.
    reflexivity. }
  assert (Hsrc : source
                 = declaration_then gap (c :: w) ty lit
                     (gap 7%nat ++ txt ++ rest)).
  { unfold source, before, declaration_text, declaration_then.
    rewrite <- !app_assoc. reflexivity. }
  destruct (parse_declaration_run gap c w ty T lit v g
              (gap 7%nat ++ txt ++ rest) Hgap Hgap1 Hc Hw Hname Hty Hlit)
    as (p0 & l7 & t7 & at_literal & Hinit & B7 & R7 & C7 & Hat & Hdecl).
  rewrite <- Hsrc in Hinit, C7.
  destruct (scan_spelled l7 g (gap 7%nat) txt rest type value Hs B7 R7
              (Hgap 7%nat))
    as (t8 & l8 & Hscan & Y8 & _ & _ & _ & C8 & P8).
  destruct (scan_spelled_span l7 g (gap 7%nat) txt rest type value t8 l8 g
              Hs B7 R7 (Hgap 7%nat) Hscan) as [S8 L8].
  specialize (Hdecl t8 l8 g Hscan C8).
  assert (Hcur : lex_current l7 = List.length prefix).
  { apply (current_after (init_lexer source) l7 prefix
             (gap 7%nat ++ txt ++ rest) (Nat.le_0_l _) B7 C7); [|exact R7].
    unfold source. rewrite Hbefore, <- app_assoc. reflexivity. }
  exists at_literal, (tok_line t8), (tok_column t8). split.
  - intros Hv. destruct (Hat Hv) as [A1 A2]. split; [exact A1|].
    intros Hn. destruct (P8 Hn) as (-> & _).
    fold prefix in A2. now rewrite A2, Hbefore, place_app.
  - assert (Hne : tok_type (current (mkParser l8 t8 t7 false false))
                  <> TOKEN_EOF) by (cbn [current]; now rewrite Y8).
    destruct (parse_stops_at_trailing_token source repl g g g p0 _ _ Hp
                Hinit Hdecl Hne) as [_ Hrun].
    rewrite Hrun. unfold expected_end_of_file, start_offset.
    cbn [current]. rewrite S8, L8, Hcur. unfold ptr_diff.
    rewrite Z.sub_0_r, Hbefore, length_app. reflexivity.
Qed.

Lemma run_source_refuses_trailing_token_witness :
  run_source two_semicolons false (init_kasd_state 1)
  = Ok (mkRun false
          (Some (NODE_VARIABLE_DECLARATION 1 5 "x" VALUE_INT
                   (NODE_LITERAL 1 14 (VInt 1))))
          (ReportCaret ERROR_SYNTAX 1 16 (Some "Expected end of file.")
             two_semicolons 15 1)
          None
          (mkState 1
             (mkError ERROR_SYNTAX 1 16 (Some "Expected end of file.")
                (Some two_semicolons) 15 1 true))).
Proof.
  destruct (run_source_refuses_trailing_token
              (fun i => nth i [ []; text " "; []; text " "; text " ";
                                text " " ] [])
              "x"%char [] (text "int") (text "1") (text ";") []
              VALUE_INT (VInt 1) TOKEN_SEMICOLON NoValue false
              (init_kasd_state 1))
    as (at_literal & line & column & Hat & Hrun).
  - intros i. do 6 (destruct i as [|i]; [reflexivity|]). now destruct i.
  - discriminate.
  - reflexivity.
  - reflexivity.
  - reflexivity.
  - simpl. tauto.
  - exact (literal_int "1"%char [] eq_refl).
  - exact (spells_semicolon []).
  - discriminate.
  - reflexivity.
  - destruct (Hat ltac:(discriminate)) as [E1 E2].
    specialize (E2 ltac:(discriminate)).
    change (at_literal = (1, 14)) in E1. change ((line, column) = (1, 16)) in E2.
    subst at_literal. injection E2 as -> ->. exact Hrun.
Defined.
